(** * The agent orchestration core: a shallow embedding and its properties

    The development follows the Python sources
    - [core/event_bus.py]       (EventBus),
    - [tools/base_tool.py]      (Tool.example_schema),
    - [core/tool_manager.py]    (ToolManager),
    - [memory/buffer_memory.py] (EnhancedBufferMemory, MemoryEnhancedReasoner),
    - [reasoning/llm_reasoner.py] (LLMReasoner),
    - [core/tool_prompt.py]     (ToolPromptHandler),
    - [core/agent_kernel.py]    (AgentKernel),
    - [interfaces/cli_interface.py] (CLIInterface),
    - [reasoning/simple_reasoner.py] (SimpleReasoner).

    Python values that travel through the program (envelopes, tool inputs,
    schemas, event payloads) are JSON values; dictionaries keep their
    insertion order and are association lists with unique keys.  Effects
    (the memory store, the output channel, the event bus, the requests
    sent to the inference backend) are threaded through an explicit
    world state, and Python exceptions are an error result. *)

From Stdlib Require Import ZArith Ascii String DecimalString.
From stdpp Require Import base option list gmap strings.

Set Warnings "-register-all".

(** ** Python strings *)

Module PyStr.

(** The double quote and the line feed, which string literals of this
    file do not spell out. *)
Definition dq : string := String "034"%char "".
Definition nl : string := String "010"%char "".

Definition lower_char (c : ascii) : ascii :=
  let n := nat_of_ascii c in
  if (65 <=? n)%nat && (n <=? 90)%nat then ascii_of_nat (n + 32) else c.

Definition upper_char (c : ascii) : ascii :=
  let n := nat_of_ascii c in
  if (97 <=? n)%nat && (n <=? 122)%nat then ascii_of_nat (n - 32) else c.

(** [str.lower()] and [str.upper()], on ASCII text. *)
Fixpoint lower (s : string) : string :=
  match s with
  | EmptyString => EmptyString
  | String c s' => String (lower_char c) (lower s')
  end.

Fixpoint upper (s : string) : string :=
  match s with
  | EmptyString => EmptyString
  | String c s' => String (upper_char c) (upper s')
  end.

(** White space as [str.strip()] sees it below code point 128. *)
Definition is_space (c : ascii) : bool :=
  let n := nat_of_ascii c in
  ((9 <=? n)%nat && (n <=? 13)%nat) || ((28 <=? n)%nat && (n <=? 32)%nat).

Fixpoint lstrip (s : string) : string :=
  match s with
  | EmptyString => EmptyString
  | String c s' => if is_space c then lstrip s' else s
  end.

Definition rstrip (s : string) : string :=
  String.rev (lstrip (String.rev s)).

Definition strip (s : string) : string := rstrip (lstrip s).

(** [needle in hay] on strings. *)
Fixpoint contains (needle hay : string) : bool :=
  if String.prefix needle hay then true
  else match hay with
       | EmptyString => false
       | String _ hay' => contains needle hay'
       end.

(** [s.replace(old, new)] for a non-empty [old]: occurrences are
    replaced from the left and do not overlap; [skip] counts the
    characters of a matched occurrence still to be dropped. *)
Fixpoint replace_from (old new : string) (skip : nat) (s : string) : string :=
  match s with
  | EmptyString => EmptyString
  | String c s' =>
      match skip with
      | S k => replace_from old new k s'
      | O =>
          if String.prefix old s
          then new +:+ replace_from old new (String.length old - 1) s'
          else String c (replace_from old new 0 s')
      end
  end.

Definition replace (old new s : string) : string := replace_from old new 0 s.

(** [sep.join(parts)]. *)
Fixpoint join (sep : string) (parts : list string) : string :=
  match parts with
  | [] => ""
  | [p] => p
  | p :: rest => p +:+ sep +:+ join sep rest
  end.

(** [s[:n]]. *)
Fixpoint take (n : nat) (s : string) : string :=
  match n, s with
  | S k, String c s' => String c (take k s')
  | _, _ => EmptyString
  end.

End PyStr.

(** ** JSON values, as [json.loads] produces them *)

(** A Python float: not-a-number, an infinity, or the finite value
    [m * 2^e]. *)
Inductive pyfloat : Type :=
  | FNan
  | FInf (negative : bool)
  | FFinite (m e : Z).

Inductive json : Type :=
  | JNull
  | JBool (b : bool)
  | JInt (n : Z)
  | JFloat (f : pyfloat)
  | JStr (s : string)
  | JArr (items : list json)
  | JObj (fields : list (string * json)).

(** ** Python dictionaries

    A [dict] keeps insertion order; assigning to an existing key keeps
    its position. *)

Section Dict.
Context {A : Type}.

Fixpoint dict_get (k : string) (d : list (string * A)) : option A :=
  match d with
  | [] => None
  | (k', v) :: d' => if String.eqb k k' then Some v else dict_get k d'
  end.

(** [d[k] = v] *)
Fixpoint dict_set (k : string) (v : A) (d : list (string * A)) : list (string * A) :=
  match d with
  | [] => [(k, v)]
  | (k', v') :: d' =>
      if String.eqb k k' then (k, v) :: d' else (k', v') :: dict_set k v d'
  end.

(** [k in d] *)
Definition dict_mem (k : string) (d : list (string * A)) : bool :=
  match dict_get k d with Some _ => true | None => false end.

(** [del d[k]] *)
Fixpoint dict_del (k : string) (d : list (string * A)) : list (string * A) :=
  match d with
  | [] => []
  | (k', v) :: d' => if String.eqb k k' then d' else (k', v) :: dict_del k d'
  end.

Definition dict_keys (d : list (string * A)) : list string := d.*1.
Definition dict_values (d : list (string * A)) : list A := d.*2.

End Dict.

(** ** Truthiness and equality of Python values *)

(** [bool(v)] *)
Definition truthy (v : json) : bool :=
  match v with
  | JNull => false
  | JBool b => b
  | JInt n => negb (n =? 0)%Z
  | JFloat (FFinite m _) => negb (m =? 0)%Z
  | JFloat _ => true
  | JStr s => negb (String.eqb s "")
  | JArr l => match l with [] => false | _ => true end
  | JObj d => match d with [] => false | _ => true end
  end.

(** Numbers compare by value across [bool], [int] and [float]. *)
Definition as_number (v : json) : option pyfloat :=
  match v with
  | JBool b => Some (FFinite (if b then 1 else 0) 0)
  | JInt n => Some (FFinite n 0)
  | JFloat f => Some f
  | _ => None
  end.

Definition float_eq (a b : pyfloat) : bool :=
  match a, b with
  | FInf s, FInf t => Bool.eqb s t
  | FFinite m e, FFinite m' e' =>
      let lo := Z.min e e' in
      (m * 2 ^ (e - lo) =? m' * 2 ^ (e' - lo))%Z
  | _, _ => false
  end.

(** [a == b] *)
Fixpoint py_eq (a b : json) {struct a} : bool :=
  match a, b with
  | JNull, JNull => true
  | JStr s, JStr t => String.eqb s t
  | JArr l, JArr l' =>
      (fix all2 (l : list json) (l' : list json) {struct l} : bool :=
         match l, l' with
         | [], [] => true
         | x :: r, y :: r' => py_eq x y && all2 r r'
         | _, _ => false
         end) l l'
  | JObj d, JObj d' =>
      (length d =? length d')%nat &&
      (fix sub (d : list (string * json)) {struct d} : bool :=
         match d with
         | [] => true
         | (k, v) :: r =>
             match dict_get k d' with
             | Some v' => py_eq v v' && sub r
             | None => false
             end
         end) d
  | _, _ =>
      match as_number a, as_number b with
      | Some x, Some y => float_eq x y
      | _, _ => false
      end
  end.

(** [len(v)], a [TypeError] (here [None]) for values without a length. *)
Definition py_len (v : json) : option nat :=
  match v with
  | JStr s => Some (String.length s)
  | JArr l => Some (length l)
  | JObj d => Some (length d)
  | _ => None
  end.

(** ** Exceptions and results *)

Inductive exn_kind : Type :=
  | ValueError
  | JSONDecodeError      (* a subclass of ValueError *)
  | ValidationError      (* jsonschema *)
  | RuntimeError
  | AttributeError
  | TypeError
  | KeyError
  | OtherError.          (* any other subclass of Exception *)

Record exn : Type := Exn { exn_type : exn_kind; exn_msg : string }.

Inductive result (A : Type) : Type :=
  | Ok (a : A)
  | Raise (e : exn).
Arguments Ok {A} a.
Arguments Raise {A} e.

Definition is_JSONDecode_or_Validation (e : exn) : bool :=
  match exn_type e with
  | JSONDecodeError | ValidationError => true
  | _ => false
  end.

Definition is_ValueError (e : exn) : bool :=
  match exn_type e with
  | ValueError | JSONDecodeError => true
  | _ => false
  end.

(** ** The world: everything the program can observe or change *)

(** A subscriber of the event bus.  Calling it is recorded (its identity
    and the payload it received); it then returns or raises. *)
Record Callback : Type := {
  cb_id : nat;
  cb_body : json → option exn
}.

(** An entry of [EnhancedBufferMemory._conversation_history]; the
    wall-clock [timestamp] and the [session_id] stamped on each entry are
    left out. *)
Record MemoryEntry : Type := {
  role : string;
  content : json;
  metadata : json
}.

Record Memory : Type := {
  limit : nat;
  conversation_history : list MemoryEntry;
  context_memory : list (string * list (string * json))
}.

Record World : Type := {
  requests : list string;          (* prompts POSTed to the backend, oldest first *)
  transcript : list string;        (* the [transcript] list of the think call in progress *)
  memory : Memory;
  outputs : list json;             (* messages given to [interface.output] *)
  subscribers : gmap string (list Callback);   (* EventBus._subscribers *)
  deliveries : list (nat * json);  (* callbacks invoked so far, oldest first *)
  tool_runs : list (string * json);            (* tools executed so far *)
  reasoner_bus : bool              (* LLMReasoner.event_bus is set *)
}.

Definition set_requests (f : list string → list string) (w : World) : World :=
  {| requests := f (requests w); transcript := transcript w; memory := memory w;
     outputs := outputs w; subscribers := subscribers w; deliveries := deliveries w;
     tool_runs := tool_runs w; reasoner_bus := reasoner_bus w |}.

Definition set_transcript (f : list string → list string) (w : World) : World :=
  {| requests := requests w; transcript := f (transcript w); memory := memory w;
     outputs := outputs w; subscribers := subscribers w; deliveries := deliveries w;
     tool_runs := tool_runs w; reasoner_bus := reasoner_bus w |}.

Definition set_memory (f : Memory → Memory) (w : World) : World :=
  {| requests := requests w; transcript := transcript w; memory := f (memory w);
     outputs := outputs w; subscribers := subscribers w; deliveries := deliveries w;
     tool_runs := tool_runs w; reasoner_bus := reasoner_bus w |}.

Definition set_outputs (f : list json → list json) (w : World) : World :=
  {| requests := requests w; transcript := transcript w; memory := memory w;
     outputs := f (outputs w); subscribers := subscribers w; deliveries := deliveries w;
     tool_runs := tool_runs w; reasoner_bus := reasoner_bus w |}.

Definition set_bus (subs : gmap string (list Callback)) (calls : list (nat * json))
    (w : World) : World :=
  {| requests := requests w; transcript := transcript w; memory := memory w;
     outputs := outputs w; subscribers := subs; deliveries := deliveries w ++ calls;
     tool_runs := tool_runs w; reasoner_bus := reasoner_bus w |}.

Definition set_tool_runs (f : list (string * json) → list (string * json)) (w : World) : World :=
  {| requests := requests w; transcript := transcript w; memory := memory w;
     outputs := outputs w; subscribers := subscribers w; deliveries := deliveries w;
     tool_runs := f (tool_runs w); reasoner_bus := reasoner_bus w |}.

Definition set_reasoner_bus (b : bool) (w : World) : World :=
  {| requests := requests w; transcript := transcript w; memory := memory w;
     outputs := outputs w; subscribers := subscribers w; deliveries := deliveries w;
     tool_runs := tool_runs w; reasoner_bus := b |}.

(** ** A state-and-exception monad *)

Definition M (A : Type) : Type := World → World * result A.

Global Instance M_ret : MRet M := λ A a w, (w, Ok a).

Global Instance M_bind : MBind M := λ A B k c w,
  match c w with
  | (w', Ok a) => k a w'
  | (w', Raise e) => (w', Raise e)
  end.

Definition raise {A} (e : exn) : M A := λ w, (w, Raise e).

(** [try: c  except Exception as e: h e] *)
Definition try_except {A} (c : M A) (h : exn → M A) : M A := λ w,
  match c w with
  | (w', Ok a) => (w', Ok a)
  | (w', Raise e) => h e w'
  end.

(** [try: c  except (K1, K2) as e: h e] *)
Definition try_except_if {A} (p : exn → bool) (c : M A) (h : exn → M A) : M A := λ w,
  match c w with
  | (w', Ok a) => (w', Ok a)
  | (w', Raise e) => if p e then h e w' else (w', Raise e)
  end.

Definition modify (f : World → World) : M unit := λ w, (f w, Ok ()).
Definition gets {A} (f : World → A) : M A := λ w, (w, Ok (f w)).
Definition lift_result {A} (r : result A) : M A := λ w, (w, r).
Definition when (b : bool) (c : M unit) : M unit := if b then c else mret ().

(** Hoare triples over the monad: from a world that satisfies [P], the
    computation ends in a world and with a result that satisfy [Q]. *)
Definition hoare {A} (P : World → Prop) (c : M A) (Q : World → result A → Prop) : Prop :=
  ∀ w, P w → Q (c w).1 (c w).2.

(** ** core/event_bus.py *)

Module EventBus.

(** [self._subscribers[event_name]] on a [defaultdict(list)]: a missing
    key is created with an empty list. *)
Definition getitem (event_name : string) (subs : gmap string (list Callback))
    : list Callback * gmap string (list Callback) :=
  match subs !! event_name with
  | Some l => (l, subs)
  | None => ([], <[event_name := []]> subs)
  end.

Definition subscribe (event_name : string) (callback : Callback)
    (subs : gmap string (list Callback)) : gmap string (list Callback) :=
  let '(l, subs') := getitem event_name subs in
  <[event_name := l ++ [callback]]> subs'.

(** [for callback in ...: callback(data)]: the calls made, and the
    exception that ended the loop, if any. *)
Fixpoint call_all (callbacks : list Callback) (data : json)
    : list (nat * json) * option exn :=
  match callbacks with
  | [] => ([], None)
  | callback :: rest =>
      match cb_body callback data with
      | Some e => ([(cb_id callback, data)], Some e)
      | None =>
          let '(calls, r) := call_all rest data in
          ((cb_id callback, data) :: calls, r)
      end
  end.

Definition emit_pure (event_name : string) (data : json)
    (subs : gmap string (list Callback))
    : gmap string (list Callback) * list (nat * json) * option exn :=
  let '(l, subs') := getitem event_name subs in
  let '(calls, r) := call_all l data in
  (subs', calls, r).

Definition emit (event_name : string) (data : json) : M unit := λ w,
  let '(subs', calls, r) := emit_pure event_name data (subscribers w) in
  (set_bus subs' calls w,
   match r with Some e => Raise e | None => Ok () end).

(** The callbacks subscribed to a name, in subscription order. *)
Definition subscribed (event_name : string) (subs : gmap string (list Callback))
    : list Callback :=
  default [] (subs !! event_name).

Definition returns_on (data : json) (callback : Callback) : Prop :=
  cb_body callback data = None.

End EventBus.


(** ** The Python runtime and the outside world

    What the program calls but does not define: the [json] module, the
    numeric and printing builtins, the constants of [core/config.py]
    (not part of the sources at hand), the prompt files found on disk
    and the inference backend reached over HTTP. *)

(** One HTTP exchange with the backend: the connection fails, or a
    response arrives with its status code and its stream of text chunks,
    after which the transport may still break. *)
Inductive Reply : Type :=
  | ConnectionFailed (e : exn)
  | Response (status_code : nat) (chunks : list string) (broken : option exn).

Class Env : Type := {
  json_loads : string → option json;     (* None: json.JSONDecodeError *)
  json_error : string → string;          (* the message of that error *)
  json_dumps : json → string;            (* json.dumps(v, indent=2) *)
  py_repr : json → string;               (* repr(v) *)
  py_int : string → option Z;            (* int(s); None: ValueError *)
  py_float : string → option pyfloat;    (* float(s); None: ValueError *)
  AGENT_NAME : string;                   (* core.config.AGENT_NAME *)
  prompt_cache : list (string * json);   (* the prompts/ directory, as loaded *)
  backend : nat → string → Reply         (* reply to the n-th request, given its prompt *)
}.

Section Program.
Context `{env : Env}.

(** [str(v)], as f-strings print a value. *)
Definition py_str (v : json) : string :=
  match v with
  | JStr s => s
  | _ => py_repr v
  end.

(** ** The fragment of the jsonschema package the program relies on

    Schemas are JSON objects; the keywords that occur in the program's
    schemas are [type], [required] and [properties]. *)

Record verror : Type := {
  ve_path : list string;      (* where in the instance the error lies *)
  ve_validator : string;      (* the keyword that failed *)
  ve_message : string
}.

Definition float_is_integer (f : pyfloat) : bool :=
  match f with
  | FFinite m e => (0 <=? e)%Z || (m mod 2 ^ (- e) =? 0)%Z
  | _ => false
  end.

Definition is_type (instance : json) (ty : string) : bool :=
  if String.eqb ty "object" then match instance with JObj _ => true | _ => false end
  else if String.eqb ty "array" then match instance with JArr _ => true | _ => false end
  else if String.eqb ty "string" then match instance with JStr _ => true | _ => false end
  else if String.eqb ty "boolean" then match instance with JBool _ => true | _ => false end
  else if String.eqb ty "null" then match instance with JNull => true | _ => false end
  else if String.eqb ty "integer" then
    match instance with
    | JInt _ => true
    | JFloat f => float_is_integer f
    | _ => false
    end
  else if String.eqb ty "number" then
    match instance with JInt _ | JFloat _ => true | _ => false end
  else false.

Definition json_strings (v : json) : list string :=
  match v with
  | JStr s => [s]
  | JArr l => omap (λ x, match x with JStr s => Some s | _ => None end) l
  | _ => []
  end.

Definition type_errors (types : json) (instance : json) : list verror :=
  if existsb (is_type instance) (json_strings types) then []
  else [ {| ve_path := []; ve_validator := "type";
            ve_message := py_repr instance +:+ " is not of type " +:+
                          PyStr.join ", " ((λ t, py_repr (JStr t)) <$> json_strings types) |} ].

Definition required_message (property : string) : string :=
  py_repr (JStr property) +:+ " is a required property".

Definition required_error (property : string) : verror :=
  {| ve_path := []; ve_validator := "required";
     ve_message := required_message property |}.

Definition required_errors (required : json) (instance : json) : list verror :=
  match instance with
  | JObj fields =>
      required_error <$>
        List.filter (λ property, negb (dict_mem property fields)) (json_strings required)
  | _ => []
  end.

Definition under (property : string) (e : verror) : verror :=
  {| ve_path := property :: ve_path e; ve_validator := ve_validator e;
     ve_message := ve_message e |}.

(** [validator.iter_errors(instance)]: the keywords of the schema are
    visited in the order the schema lists them. *)
Fixpoint iter_errors (schema : json) (instance : json) {struct schema} : list verror :=
  match schema with
  | JObj keywords =>
      (fix each_keyword (l : list (string * json)) : list verror :=
         match l with
         | [] => []
         | (keyword, arg) :: l' =>
             (if String.eqb keyword "type" then type_errors arg instance
              else if String.eqb keyword "required" then required_errors arg instance
              else if String.eqb keyword "properties" then
                match arg, instance with
                | JObj properties, JObj fields =>
                    (fix each_property (ps : list (string * json)) : list verror :=
                       match ps with
                       | [] => []
                       | (property, subschema) :: ps' =>
                           match dict_get property fields with
                           | Some value => under property <$> iter_errors subschema value
                           | None => []
                           end ++ each_property ps'
                       end) properties
                | _, _ => []
                end
              else []) ++ each_keyword l'
         end) keywords
  | _ => []
  end.

(** [best_match]: the first of the errors that lie nearest the root. *)
Fixpoint best_match (errors : list verror) : option verror :=
  match errors with
  | [] => None
  | e :: rest =>
      match best_match rest with
      | Some e' => if (length (ve_path e') <? length (ve_path e))%nat then Some e' else Some e
      | None => Some e
      end
  end.

(** [jsonschema.validate(instance, schema)] *)
Definition validate (instance schema : json) : result unit :=
  match best_match (iter_errors schema instance) with
  | Some e => Raise (Exn ValidationError (ve_message e))
  | None => Ok ()
  end.

(** ** tools/base_tool.py *)

Record Tool : Type := {
  name : string;                    (* the empty string stands for a missing name *)
  description : string;
  example_usage : option string;    (* None: the attribute is absent *)
  input_schema : option json;       (* None: the attribute is absent *)
  run : json → result string
}.

Definition infer_type (value : json) : string :=
  match value with
  | JBool _ => "boolean"
  | JInt _ => "integer"
  | JFloat _ => "number"
  | JObj _ => "object"
  | JArr _ => "array"
  | _ => "string"
  end.

(** The example a tool documents itself with, parsed. *)
Definition parsed_example (tool : Tool) : option json :=
  match example_usage tool with
  | Some text => json_loads (PyStr.strip (PyStr.replace "Example:" "" text))
  | None => None
  end.

Definition schema_of_example (example : list (string * json)) : json :=
  JObj [ ("type", JStr "object");
         ("required", JArr (JStr <$> dict_keys example));
         ("properties", JObj ((λ kv, (kv.1, JObj [("type", JStr (infer_type kv.2))])) <$> example)) ].

(** [Tool.example_schema]: any failure on the way yields the bare
    object schema. *)
Definition example_schema (tool : Tool) : json :=
  match parsed_example tool with
  | Some (JObj example) => schema_of_example example
  | _ => JObj [("type", JStr "object")]
  end.

(** ** core/tool_manager.py *)

Record ToolManager : Type := {
  _tools : list (string * Tool);
  event_bus : bool                  (* an EventBus is attached *)
}.

(** [register_tool]: the manager as the call leaves it, the world, and
    how the call ended.  With an event bus attached, the payload of
    [on_tool_registered] is built after the tool is stored, and
    [tool.input_schema], an argument of [getattr], is evaluated first. *)
Definition register_tool (tool : Tool) (tm : ToolManager) (w : World)
    : ToolManager * World * result unit :=
  if String.eqb (name tool) "" || String.eqb (description tool) ""
     || negb (bool_decide (is_Some (example_usage tool)))
  then (tm, w, Raise (Exn ValueError "[ToolManager] Invalid tool metadata"))
  else if dict_mem (name tool) (_tools tm)
  then (tm, w, Raise (Exn ValueError ("Tool '" +:+ name tool +:+ "' is already registered.")))
  else
    let tm' := {| _tools := dict_set (name tool) tool (_tools tm);
                  event_bus := event_bus tm |} in
    if event_bus tm then
      match input_schema tool with
      | None => (tm', w, Raise (Exn AttributeError "object has no attribute 'input_schema'"))
      | Some _ =>
          let '(w', r) :=
            EventBus.emit "on_tool_registered"
              (JObj [("tool", JStr (name tool));
                     ("description", JStr (description tool));
                     ("schema", example_schema tool)]) w in
          (tm', w', r)
      end
    else (tm', w, Ok ()).

(** [self._tools.get(name)] for a name read from an envelope: lists and
    objects cannot be dictionary keys. *)
Definition get_tool_by_name (tool_name : json) (tm : ToolManager) : result (option Tool) :=
  match tool_name with
  | JStr s => Ok (dict_get s (_tools tm))
  | JArr _ | JObj _ => Raise (Exn TypeError "unhashable type")
  | _ => Ok None
  end.

Definition get_all_tools (tm : ToolManager) : list Tool := dict_values (_tools tm).

(** The conversion [validate_input] applies to a schema that has no
    [properties] key. *)
Definition convert_simple_schema (schema : list (string * json)) : json :=
  JObj [ ("type", JStr "object");
         ("properties",
          JObj ((λ kv, (kv.1, match kv.2 with
                              | JObj _ => kv.2
                              | _ => JObj [("type", JStr "string")]
                              end)) <$> schema));
         ("required",
          JArr (JStr <$> dict_keys
                  (List.filter (λ kv : string * json,
                                  match kv.2 with
                                  | JObj d => truthy (default (JBool false) (dict_get "required" d))
                                  | _ => false
                                  end) schema))) ].

Definition schema_for_validation (tool : Tool) : json :=
  match example_schema tool with
  | JObj schema =>
      if dict_mem "properties" schema then JObj schema
      else convert_simple_schema schema
  | other => other
  end.

(** [validate_input]; the loop calls it with the name under which it
    has just found the tool, so a name that cannot be a key does not
    get here. *)
Definition validate_input (tool_name : json) (input_data : json) (tm : ToolManager)
    : bool * string :=
  match get_tool_by_name tool_name tm with
  | Ok (Some tool) =>
      match validate input_data (schema_for_validation tool) with
      | Ok _ => (true, "")
      | Raise e => (false, exn_msg e)
      end
  | _ => (false, "Tool '" +:+ py_str tool_name +:+ "' not found.")
  end.

(** [tool_exists] *)
Definition tool_exists (tool_name : string) (tm : ToolManager) : bool :=
  dict_mem tool_name (_tools tm).

(** [unregister_tool]: the manager as the call leaves it, the world, and
    how the call ended.  The tool is deleted before the event is
    emitted. *)
Definition unregister_tool (tool_name : string) (tm : ToolManager) (w : World)
    : ToolManager * World * result bool :=
  if dict_mem tool_name (_tools tm) then
    let tm' := {| _tools := dict_del tool_name (_tools tm); event_bus := event_bus tm |} in
    if event_bus tm then
      let '(w', r) :=
        EventBus.emit "on_tool_unregistered" (JObj [("tool", JStr tool_name)]) w in
      (tm', w', match r with Ok _ => Ok true | Raise e => Raise e end)
    else (tm', w, Ok true)
  else (tm, w, Ok false).

(** ** memory/buffer_memory.py *)

(** [l[-n:]] *)
Definition tail_slice {A} (n : nat) (l : list A) : list A :=
  match n with
  | O => l
  | _ => drop (length l - n) l
  end.

Definition save_entry (r : string) (c : json) (md : json) (m : Memory) : Memory :=
  let h := conversation_history m ++ [ {| role := r; content := c; metadata := md |} ] in
  {| limit := limit m;
     conversation_history := if (limit m <? length h)%nat then tail_slice (limit m) h else h;
     context_memory := context_memory m |}.

(** [memory.save(role, content, metadata)]; a failure to write the
    history file is caught inside and changes nothing here. *)
Definition memory_save (r : string) (c : json) (md : list (string * json)) : M unit :=
  modify (set_memory (save_entry r c (JObj md))).

(** [memory.save_context(key, value, category)] *)
Definition save_context_entry (key : string) (value : json) (category : string)
    (m : Memory) : Memory :=
  let items := default [] (dict_get category (context_memory m)) in
  {| limit := limit m;
     conversation_history := conversation_history m;
     context_memory := dict_set category (dict_set key value items) (context_memory m) |}.

Definition save_context (key : string) (value : json) (category : string) : M unit :=
  modify (set_memory (save_context_entry key value category)).

Definition get_conversation_context (last_n : nat) (m : Memory) : string :=
  let recent_entries := tail_slice last_n (conversation_history m) in
  let conversation :=
    match recent_entries with
    | [] => []
    | _ => "RECENT CONVERSATION:" ::
           ((λ e, role e +:+ ": " +:+ py_str (content e)) <$> recent_entries)
    end in
  let context :=
    match context_memory m with
    | [] => []
    | cm =>
        (PyStr.nl +:+ "RELEVANT CONTEXT:") ::
        concat ((λ ci : string * list (string * json),
                   match ci.2 with
                   | [] => []
                   | items =>
                       (PyStr.upper ci.1 +:+ ":") ::
                       ((λ kd : string * json, "  - " +:+ kd.1 +:+ ": " +:+ py_str kd.2) <$> items)
                   end) <$> cm)
    end in
  PyStr.join PyStr.nl (conversation ++ context).

(** [MemoryEnhancedReasoner.inject_memory_context] *)
Definition inject_memory_context (prompt : string) (m : Memory) (context_limit : nat) : string :=
  let conversation_context := get_conversation_context context_limit m in
  if String.eqb conversation_context "" then prompt
  else
    "CONVERSATION CONTEXT:" +:+ PyStr.nl +:+ conversation_context +:+ PyStr.nl +:+ PyStr.nl +:+
    "CURRENT REQUEST:" +:+ PyStr.nl +:+ prompt +:+ PyStr.nl +:+ PyStr.nl +:+
    "Please consider the above context when responding. Reference previous conversations when relevant.".

(** [MemoryEnhancedReasoner.extract_learnable_info] *)
Definition extract_learnable_info (user_input : string) : list (string * json) :=
  let user_lower := PyStr.lower user_input in
  (if PyStr.contains "i like" user_lower || PyStr.contains "i prefer" user_lower
   then [("preference", JStr user_input)] else []) ++
  (if PyStr.contains "i am" user_lower || PyStr.contains "my name is" user_lower
   then [("user_fact", JStr user_input)] else []) ++
  (if PyStr.contains "remember" user_lower || PyStr.contains "note that" user_lower
   then [("important_note", JStr user_input)] else []).

(** ** reasoning/prompt_templates.py *)

Definition quoted (s : string) : string := PyStr.dq +:+ s +:+ PyStr.dq.

Definition SYSTEM_PROMPT (agent_name tool_list : string) : string :=
  PyStr.join PyStr.nl [
    "You are a helpful modular AI agent named " +:+ agent_name +:+ ".";
    "";
    "Your job is to analyze the user's input and decide which tool to use. You must respond with a single JSON object in the following format:";
    "";
    "{";
    "    " +:+ quoted "thoughts" +:+ ": " +:+ quoted "<your internal reasoning>" +:+ ",";
    "    " +:+ quoted "tool_name" +:+ ": " +:+ quoted ("<one of the tools: " +:+ tool_list +:+ ">") +:+ ",";
    "    " +:+ quoted "tool_input" +:+ ": {";
    "        // For calculator: " +:+ quoted "expression" +:+ ": " +:+ quoted "2 + 2" +:+ " or " +:+ quoted "abs(-5)";
    "        // For chat: " +:+ quoted "response" +:+ ": " +:+ quoted "Hello! How can I assist you today?";
    "    }";
    "}";
    "";
    "Examples:";
    "1. Math input:";
    "{";
    "    " +:+ quoted "thoughts" +:+ ": " +:+ quoted "This is a math problem. I'll use the calculator." +:+ ",";
    "    " +:+ quoted "tool_name" +:+ ": " +:+ quoted "calculator" +:+ ",";
    "    " +:+ quoted "tool_input" +:+ ": {";
    "        " +:+ quoted "expression" +:+ ": " +:+ quoted "5 * 7";
    "    }";
    "}";
    "";
    "2. Chat input:";
    "{";
    "    " +:+ quoted "thoughts" +:+ ": " +:+ quoted "This looks like small talk. I'll respond directly." +:+ ",";
    "    " +:+ quoted "tool_name" +:+ ": " +:+ quoted "chat" +:+ ",";
    "    " +:+ quoted "tool_input" +:+ ": {";
    "        " +:+ quoted "response" +:+ ": " +:+ quoted "Hello! How can I help you today?";
    "    }";
    "}";
    "";
    "IMPORTANT:";
    "- Use exactly one tool per response.";
    "- Never explain outside the JSON. Your entire reply must be valid JSON."
  ].

Definition CONTEXTUAL_PROMPT (memory_context input tool_descriptions system_prompt : string)
    : string :=
  PyStr.join PyStr.nl [
    "# Agent Memory:";
    memory_context;
    "";
    "# User Input:";
    input;
    "";
    "# Tool Descriptions:";
    tool_descriptions;
    "";
    system_prompt
  ].

(** ** reasoning/llm_reasoner.py *)

Definition LLM_RESPONSE_SCHEMA : json :=
  JObj [ ("type", JStr "object");
         ("required", JArr [JStr "thoughts"; JStr "tool_name"; JStr "tool_input"]);
         ("properties",
          JObj [ ("thoughts", JObj [("type", JStr "string")]);
                 ("tool_name", JObj [("type", JArr [JStr "string"; JStr "null"])]);
                 ("tool_input", JObj [("type", JStr "object")]) ]) ].

Record LLMReasoner : Type := {
  retries : nat;
  debug_mode : bool
}.

(** What a reasoner is to its callers: [think(input, memory, tools)],
    with [tools] possibly [None], and a flag telling whether the caller
    passes the [event_bus] keyword.  The result is the envelope, a
    dictionary. *)
Definition Reasoner : Type :=
  string → option ToolManager → bool → M (list (string * json)).

Definition _format_tool_descriptions (tools : list Tool) : string :=
  PyStr.join PyStr.nl
    (concat ((λ tool,
                ("- " +:+ name tool +:+ ": " +:+ description tool) ::
                match example_usage tool with
                | Some example => ["  Example: " +:+ example]
                | None => []
                end) <$> tools)).

(** [_format_memory_context]: no memory class of the program has a
    [get_recent] method, so the bare [except] answers. *)
Definition _format_memory_context (m : Memory) : string :=
  "No conversation history available.".

Definition _fallback_response (input : string) : list (string * json) :=
  [ ("thoughts", JStr "LLM reasoning failed, falling back to chat response.");
    ("tool_name", JStr "chat");
    ("tool_input",
     JObj [("response",
            JStr ("I'm having trouble processing that request. Could you rephrase it? You asked: "
                  +:+ input))]) ].

Definition _validate_reasoning_result (result : json) (available_tools : list Tool) : bool :=
  match result with
  | JObj d =>
      if forallb (λ key, dict_mem key d) ["thoughts"; "tool_name"; "tool_input"] then
        existsb (λ tool, py_eq (default JNull (dict_get "tool_name" d)) (JStr (name tool)))
                available_tools
      else false
  | _ => false
  end.

(** The token a streamed chunk carries; [None] when the chunk is blank
    or handling it raises (the loop then goes on to the next chunk). *)
Definition chunk_token (chunk : string) : option string :=
  if String.eqb (PyStr.strip chunk) "" then None
  else match json_loads chunk with
       | Some (JObj data) =>
           match dict_get "response" data with
           | None => Some ""
           | Some (JStr token) => Some token
           | Some _ => None
           end
       | _ => None
       end.

(** The complete lines of a buffer, each with its line feed, and what
    follows the last line feed. *)
Fixpoint split_lines_from (current : string) (s : string) : list string * string :=
  match s with
  | EmptyString => ([], String.rev current)
  | String c s' =>
      if Ascii.eqb c "010"%char then
        let '(lines, rest) := split_lines_from "" s' in
        (String.rev (String c current) :: lines, rest)
      else split_lines_from (String c current) s'
  end.

Definition split_lines (s : string) : list string * string := split_lines_from "" s.

(** The [while] loop that hands complete lines to the callback; an
    exception of the callback ends the handling of the chunk, the lines
    not yet handed over staying in the buffer. *)
Fixpoint drain_lines (token_callback : option (string → M unit))
    (lines : list string) (rest : string) (w : World) : World * string :=
  match lines with
  | [] => (w, rest)
  | line :: lines' =>
      match token_callback with
      | None => drain_lines token_callback lines' rest w
      | Some callback =>
          match callback line w with
          | (w', Ok _) => drain_lines token_callback lines' rest w'
          | (w', Raise _) => (w', PyStr.join "" lines' +:+ rest)
          end
      end
  end.

Fixpoint consume_chunks (token_callback : option (string → M unit))
    (chunks : list string) (full_text line_buffer : string) (w : World)
    : World * (string * string) :=
  match chunks with
  | [] => (w, (full_text, line_buffer))
  | chunk :: chunks' =>
      match chunk_token chunk with
      | None => consume_chunks token_callback chunks' full_text line_buffer w
      | Some token =>
          let '(lines, rest) := split_lines (line_buffer +:+ token) in
          let '(w', line_buffer') := drain_lines token_callback lines rest w in
          consume_chunks token_callback chunks' (full_text +:+ token) line_buffer' w'
      end
  end.

Definition _call_llm_stream (prompt : string) (token_callback : option (string → M unit))
    : M string := λ w,
  let w1 := set_requests (λ r, r ++ [prompt]) w in
  match backend (length (requests w)) prompt with
  | ConnectionFailed e => (w1, Raise e)
  | Response status_code chunks broken =>
      if negb (status_code =? 200)%nat then
        (w1, Raise (Exn RuntimeError ("LLM returned HTTP " +:+ py_repr (JInt (Z.of_nat status_code)))))
      else
        let '(w2, (full_text, line_buffer)) := consume_chunks token_callback chunks "" "" w1 in
        match broken with
        | Some e => (w2, Raise e)
        | None =>
            match token_callback with
            | Some callback =>
                if String.eqb line_buffer "" then (w2, Ok full_text)
                else (callback line_buffer ;; mret full_text) w2
            | None => (w2, Ok full_text)
            end
        end
  end.

Fixpoint try_call_llm_from (self : LLMReasoner) (attempts : nat) (last_error : option exn)
    (prompt : string) (token_callback : option (string → M unit)) : M string := λ w,
  match attempts with
  | O =>
      (w, Raise (Exn RuntimeError
                   ("LLM failed after " +:+ py_repr (JInt (Z.of_nat (retries self))) +:+
                    " retries: " +:+
                    match last_error with Some e => exn_msg e | None => "None" end)))
  | S attempts' =>
      match _call_llm_stream prompt token_callback w with
      | (w', Ok text) => (w', Ok text)
      | (w', Raise e) => try_call_llm_from self attempts' (Some e) prompt token_callback w'
      end
  end.

Definition _try_call_llm (self : LLMReasoner) (prompt : string)
    (token_callback : option (string → M unit)) : M string :=
  try_call_llm_from self (retries self) None prompt token_callback.

(** [emit] guarded by [self.debug_mode and self.event_bus]. *)
Definition emit_debug (self : LLMReasoner) (event_name : string) (data : json) : M unit :=
  bus ← gets reasoner_bus;
  when (debug_mode self && bus) (EventBus.emit event_name data).

(** [stream_callback]; no interface is ever passed to [think]. *)
Definition stream_callback (line : string) : M unit :=
  modify (set_transcript (λ t, t ++ [line]));;
  bus ← gets reasoner_bus;
  when bus (EventBus.emit "on_llm_stream_line" (JObj [("line", JStr line)])).

Definition fallback_prompt (input response_str : string) : string :=
  "You're an AI assistant. The user asked something, but your last response failed to format correctly."
  +:+ PyStr.nl +:+
  "Just answer the user's question clearly and helpfully without explaining what went wrong."
  +:+ PyStr.nl +:+ PyStr.nl +:+
  "User's input:" +:+ PyStr.nl +:+ input +:+ PyStr.nl +:+ PyStr.nl +:+
  "Previous malformed response:" +:+ PyStr.nl +:+ PyStr.strip response_str +:+ PyStr.nl +:+ PyStr.nl +:+
  "Respond directly to the user now:".

Definition fallback_parsed (e : exn) (fallback_response_str : string) : list (string * json) :=
  [ ("thoughts", JStr ("Invalid LLM output, attempted rephrasing. Original error: " +:+ exn_msg e));
    ("tool_name", JStr "chat");
    ("tool_input", JObj [("response", JStr (PyStr.strip fallback_response_str))]) ].

Definition final_fallback_parsed (e inner_e : exn) (response_str : string)
    : list (string * json) :=
  [ ("thoughts", JStr ("Double LLM failure. Initial error: " +:+ exn_msg e +:+
                       ". Fallback error: " +:+ exn_msg inner_e));
    ("tool_name", JStr "chat");
    ("tool_input",
     JObj [("response", JStr ("Raw LLM output from initial attempt: " +:+ PyStr.strip response_str))]) ].

Definition error_fallback_parsed (e : exn) (input : string) : list (string * json) :=
  dict_set "thoughts" (JStr ("LLM Reasoning failed: " +:+ exn_msg e +:+ ". Falling back to chat."))
    (_fallback_response input).

Definition loads (text : string) : result json :=
  match json_loads text with
  | Some v => Ok v
  | None => Raise (Exn JSONDecodeError (json_error text))
  end.

Definition fields_of (v : json) : list (string * json) :=
  match v with
  | JObj d => d
  | _ => []
  end.

Definition prompt_for (input : string) (available_tools : list Tool) (m : Memory) : string :=
  let tool_list := PyStr.join ", " (name <$> available_tools) in
  CONTEXTUAL_PROMPT (_format_memory_context m) input
    (_format_tool_descriptions available_tools)
    (SYSTEM_PROMPT AGENT_NAME tool_list).

(** The recovery from a response that is not a valid envelope: one
    corrective request, whose answer is taken as it comes. *)
Definition reask (self : LLMReasoner) (input response_str : string) (e : exn)
    : M (list (string * json)) :=
  try_except
    (fallback_response_str ← _try_call_llm self (fallback_prompt input response_str) None;
     emit_debug self "on_llm_response"
       (JObj [("response", JStr fallback_response_str);
              ("note", JStr "Fallback due to parsing error")]);;
     emit_debug self "on_thought" (JObj (fallback_parsed e fallback_response_str));;
     mret (fallback_parsed e fallback_response_str))
    (λ inner_e,
       emit_debug self "on_thought" (JObj (final_fallback_parsed e inner_e response_str));;
       mret (final_fallback_parsed e inner_e response_str)).

(** The body of the outer [try] of [think]. *)
Definition think_body (self : LLMReasoner) (input : string) (tools : option ToolManager)
    : M (list (string * json)) :=
  available_tools ←
    match tools with
    | Some tm => mret (get_all_tools tm)
    | None => raise (Exn AttributeError "'NoneType' object has no attribute 'get_all_tools'")
    end;
  prompt ← gets (λ w, prompt_for input available_tools (memory w));
  emit_debug self "on_llm_prompt" (JObj [("prompt", JStr prompt)]);;
  modify (set_transcript (λ _, []));;
  response_str ← _try_call_llm self prompt (Some stream_callback);
  lines ← gets transcript;
  memory_save "llm_transcript" (JStr (PyStr.join PyStr.nl lines)) [];;
  bus ← gets reasoner_bus;
  (if debug_mode self && bus then
     EventBus.emit "on_llm_response" (JObj [("response", JStr response_str)])
   else if bus then
     EventBus.emit "on_llm_response"
       (JObj [("input", JStr input); ("prompt", JStr prompt);
              ("raw_response", JStr response_str);
              ("transcript", JArr (JStr <$> lines))])
   else mret ());;
  try_except_if is_JSONDecode_or_Validation
    (parsed ← lift_result (loads (PyStr.strip response_str));
     lift_result (validate parsed LLM_RESPONSE_SCHEMA);;
     if negb (_validate_reasoning_result parsed available_tools)
     then mret (_fallback_response input)
     else emit_debug self "on_thought" parsed;; mret (fields_of parsed))
    (reask self input response_str).

Definition think (self : LLMReasoner) : Reasoner := λ input tools event_bus,
  when event_bus (modify (set_reasoner_bus true));;
  try_except (think_body self input tools)
    (λ e,
       emit_debug self "on_thought" (JObj (error_fallback_parsed e input));;
       mret (error_fallback_parsed e input)).

(** ** reasoning/simple_reasoner.py *)

Definition SimpleReasoner_think : Reasoner := λ input tools event_bus,
  if event_bus then raise (Exn TypeError "think() got an unexpected keyword argument 'event_bus'")
  else
    let input_lower := PyStr.lower input in
    let is_math_query :=
      existsb (λ op, PyStr.contains op input_lower)
              ["+"; "-"; "*"; "/"; "plus"; "minus"; "times"; "divided"] in
    calculator ←
      (if is_math_query then
         match tools with
         | Some tm => lift_result (get_tool_by_name (JStr "calculator") tm)
         | None => raise (Exn AttributeError "'NoneType' object has no attribute 'get_tool_by_name'")
         end
       else mret None);
    match calculator with
    | Some _ =>
        mret [ ("thoughts", JStr "This looks like a math problem. Using calculator.");
               ("tool_name", JStr "calculator");
               ("tool_input", JObj [("expression", JStr input)]) ]
    | None =>
        mret [ ("thoughts", JStr "This doesn't look like a math problem. Falling back to chat.");
               ("tool_name", JStr "chat");
               ("tool_input", JObj [("response", JStr ("Echo: " +:+ input))]) ]
    end.

(** ** core/tool_prompt.py *)

(** [d.get(key, fallback)] on a value that should be a dictionary. *)
Definition json_get (d : json) (key : string) (fallback : json) : result json :=
  match d with
  | JObj fields => Ok (default fallback (dict_get key fields))
  | _ => Raise (Exn AttributeError "object has no attribute 'get'")
  end.

Definition catch_if {A} (p : exn → bool) (r : result A) (h : exn → result A) : result A :=
  match r with
  | Ok a => Ok a
  | Raise e => if p e then h e else Raise e
  end.

Definition int_of (s : string) : result json :=
  match py_int s with
  | Some n => Ok (JInt n)
  | None => Raise (Exn ValueError "invalid literal for int() with base 10")
  end.

Definition float_of (s : string) : result json :=
  match py_float s with
  | Some f => Ok (JFloat f)
  | None => Raise (Exn ValueError "could not convert string to float")
  end.

Definition truthy_tokens : list string := ["true"; "yes"; "1"; "on"].

Definition _parse_field_value (response : json) (field_type : json) : result json :=
  match response with
  | JStr raw =>
      let response := PyStr.strip raw in
      catch_if is_ValueError
        (if py_eq field_type (JStr "boolean") then
           Ok (JBool (existsb (String.eqb (PyStr.lower response)) truthy_tokens))
         else if py_eq field_type (JStr "integer") then int_of response
         else if py_eq field_type (JStr "number") then float_of response
         else if existsb (py_eq field_type) [JStr "array"; JStr "object"] then loads response
         else Ok (JStr response))
        (λ _, Ok (JStr response))
  | _ => Raise (Exn AttributeError "object has no attribute 'strip'")
  end.

Definition _build_field_prompt (tool_name field_name field_type field_description
    user_input : string) (current_input : list (string * json)) (custom_prompt : string)
    : string :=
  let base_prompt :=
    PyStr.join PyStr.nl [
      "";
      "You are helping to fill missing required fields for the '" +:+ tool_name +:+ "' tool.";
      "";
      "User's original request: " +:+ quoted user_input;
      "";
      "Missing field: " +:+ field_name;
      "Field type: " +:+ field_type;
      "Field description: " +:+ field_description;
      "";
      "Current tool input: " +:+ json_dumps (JObj current_input);
      "";
      custom_prompt;
      "";
      "Based on the user's request, what should the value be for the '" +:+ field_name +:+ "' field?";
      "Respond ONLY with the field value, no explanations or extra text.";
      ""
    ] in
  PyStr.strip
    (base_prompt +:+ PyStr.nl +:+
     (if String.eqb field_type "boolean" then "Respond with only: true or false"
      else if String.eqb field_type "integer" then "Respond with only a number (integer)"
      else if String.eqb field_type "number" then "Respond with only a number"
      else if String.eqb field_type "array" then
        "Respond with a JSON array format: [item1, item2, ...]"
      else if String.eqb field_type "object" then
        "Respond with a JSON object format: {" +:+ quoted "key" +:+ ": " +:+ quoted "value" +:+ "}"
      else "Respond with only the text/string value")).

Definition get_tool_prompt (tool_name : string) : json :=
  default (JObj []) (dict_get tool_name prompt_cache).

(** [_fill_single_field]; the result [JNull] is Python's [None]. *)
Definition _fill_single_field (reasoner : Reasoner) (tool_name field_name : string)
    (field_schema : json) (user_input : string) (tool_config : json)
    (current_input : list (string * json)) : M json :=
  field_prompts ← lift_result (json_get tool_config "field_prompts" (JObj []));
  field_prompt ← lift_result (json_get field_prompts field_name (JStr ""));
  field_type ← lift_result (json_get field_schema "type" (JStr "string"));
  field_description ←
    lift_result (json_get field_schema "description" (JStr (field_name +:+ " field")));
  let prompt :=
    _build_field_prompt tool_name field_name (py_str field_type) (py_str field_description)
      user_input current_input (py_str field_prompt) in
  try_except
    (reasoning_result ← reasoner prompt None false;
     if py_eq (default JNull (dict_get "tool_name" reasoning_result)) (JStr "chat") then
       response ←
         lift_result (json_get (default (JObj []) (dict_get "tool_input" reasoning_result))
                               "response" (JStr ""));
       lift_result (_parse_field_value response field_type)
     else mret JNull)
    (λ _, mret JNull).

(** [field not in tool_input or not tool_input[field]] *)
Definition is_missing (tool_input : list (string * json)) (field : string) : bool :=
  match dict_get field tool_input with
  | None => true
  | Some v => negb (truthy v)
  end.

(** The loop over the missing fields. *)
Fixpoint fill_fields (reasoner : Reasoner) (tool_name : string)
    (properties : json) (user_input : string) (tool_prompt_config : json)
    (missing_fields : list string) (filled_input : list (string * json))
    : M (list (string * json)) :=
  match missing_fields with
  | [] => mret filled_input
  | field :: rest =>
      field_schema ← lift_result (json_get properties field (JObj []));
      filled_value ←
        _fill_single_field reasoner tool_name field field_schema user_input
          tool_prompt_config filled_input;
      fill_fields reasoner tool_name properties user_input tool_prompt_config rest
        match filled_value with
        | JNull => filled_input
        | _ => dict_set field filled_value filled_input
        end
  end.

(** The required fields a tool's schema lists. *)
Definition required_fields (tool : Tool) : list string :=
  json_strings (default (JArr []) (dict_get "required" (fields_of (example_schema tool)))).

Definition fill_missing_fields (reasoner : Reasoner) (tool_name : string)
    (tool_input : list (string * json)) (user_input : string) (tool_manager : ToolManager)
    : M (list (string * json)) :=
  match dict_get tool_name (_tools tool_manager) with
  | None => mret tool_input
  | Some tool =>
      let schema := fields_of (example_schema tool) in
      let properties := default (JObj []) (dict_get "properties" schema) in
      let missing_fields := List.filter (is_missing tool_input) (required_fields tool) in
      match missing_fields with
      | [] => mret tool_input
      | _ =>
          fill_fields reasoner tool_name properties user_input (get_tool_prompt tool_name)
            missing_fields tool_input
      end
  end.

(** ** core/agent_kernel.py *)

Record AgentKernel : Type := {
  reasoner : Reasoner;
  tools : ToolManager;
  debug : bool                      (* self.debug_mode *)
}.

(** [interface.output(message)] *)
Definition output (message : json) : M unit :=
  modify (set_outputs (λ o, o ++ [message])).

(** The memory in use has [get_conversation_context]. *)
Definition _prepare_reasoning_prompt (user_input : string) (m : Memory) : string :=
  inject_memory_context user_input m 8.

Fixpoint save_learned (learnable_info : list (string * json)) : M unit :=
  match learnable_info with
  | [] => mret ()
  | (info_type, info_value) :: rest =>
      save_context ("learned_" +:+ info_type) info_value "learned_facts";;
      save_learned rest
  end.

Definition _save_conversation_with_learning (user_input : string) (agent_output : json)
    : M unit :=
  response_length ←
    match py_len agent_output with
    | Some n => mret n
    | None => raise (Exn TypeError "object has no len()")
    end;
  memory_save "agent" agent_output
    [("type", JStr "chat_response"); ("response_length", JInt (Z.of_nat response_length))];;
  save_learned (extract_learnable_info user_input).

(** [tool.run(tool_input)], awaited or not. *)
Definition run_tool (tool : Tool) (tool_input : json) : M string :=
  modify (set_tool_runs (λ r, r ++ [(name tool, tool_input)]));;
  lift_result (run tool tool_input).

Definition not_found_message (tool_name : json) : string :=
  "[ERROR] Tool '" +:+ py_str tool_name +:+ "' not found or undefined.".

Definition not_found_metadata : list (string * json) :=
  [("type", JStr "error"); ("error_type", JStr "tool_not_found")].

(** The branch of the loop body for a pure chat envelope. *)
Definition chat_reply (self : AgentKernel) (user_input : string)
    (tool_input : list (string * json)) : M unit :=
  let output_value := default JNull (dict_get "response" tool_input) in
  output output_value;;
  _save_conversation_with_learning user_input output_value;;
  if debug self then
    EventBus.emit "on_tool_output" (JObj [("tool_name", JStr "chat"); ("output", output_value)])
  else
    EventBus.emit "on_tool_used"
      (JObj [("tool", JStr "chat"); ("input", JObj tool_input); ("output", output_value)]).

(** The branch for a tool the registry does not know. *)
Definition missing_tool (self : AgentKernel) (user_input : string) (tool_name : json)
    (tool_input : list (string * json)) : M unit :=
  let fallback_response := default JNull (dict_get "response" tool_input) in
  if truthy fallback_response then
    let out :=
      JStr ("[Fallback Chat] Tool '" +:+ py_str tool_name +:+ "' not found. Chatting instead:"
            +:+ PyStr.nl +:+ py_str fallback_response) in
    output out;;
    memory_save "agent" out
      [("type", JStr "fallback"); ("requested_tool", tool_name);
       ("reason", JStr "tool_not_found")];;
    save_context ("failed_tool_" +:+ py_str tool_name)
      (JObj [("user_request", JStr user_input); ("fallback_used", JBool true)])
      "tool_usage";;
    if debug self then
      EventBus.emit "on_tool_output" (JObj [("tool_name", JStr "chat_fallback"); ("output", out)])
    else
      EventBus.emit "on_tool_used"
        (JObj [("tool", JStr "chat_fallback"); ("input", JObj tool_input); ("output", out)])
  else
    let error_msg := JStr (not_found_message tool_name) in
    output error_msg;;
    memory_save "agent" error_msg not_found_metadata;;
    when (debug self)
      (EventBus.emit "on_tool_output"
         (JObj [("tool_name", JStr "error_tool_not_found"); ("output", error_msg)])).

(** The branch for a registered tool: fill, validate, run, persist. *)
Definition use_tool (self : AgentKernel) (user_input : string) (tool : Tool)
    (tool_name : json) (original_input : list (string * json)) : M unit :=
  tool_input ←
    fill_missing_fields (reasoner self) (py_str tool_name) original_input user_input (tools self);
  when (negb (py_eq (JObj tool_input) (JObj original_input)))
    (EventBus.emit "on_fields_auto_filled"
       (JObj [("tool", tool_name); ("original_input", JObj original_input);
              ("filled_input", JObj tool_input)]));;
  let '(valid, error_msg) := validate_input tool_name (JObj tool_input) (tools self) in
  if negb valid then
    let error_output := JStr ("[ERROR] Invalid tool input: " +:+ error_msg) in
    output error_output;;
    memory_save "agent" error_output
      [("type", JStr "error"); ("error_type", JStr "validation_failed"); ("tool", tool_name)]
  else
    tool_output ← run_tool tool (JObj tool_input);
    (if debug self then
       EventBus.emit "on_tool_output"
         (JObj [("tool_name", tool_name); ("output", JStr tool_output)])
     else
       EventBus.emit "on_tool_used"
         (JObj [("tool", tool_name); ("input", JObj tool_input); ("output", JStr tool_output)]));;
    memory_save "agent" (JStr tool_output)
      [("type", JStr "tool_result"); ("tool_name", tool_name);
       ("tool_input", JObj tool_input); ("success", JBool true)];;
    save_context ("successful_tool_" +:+ py_str tool_name)
      (JObj [("user_request", JStr user_input); ("tool_input", JObj tool_input);
             ("output_length", JInt (Z.of_nat (String.length tool_output)))])
      "tool_usage";;
    output (JStr tool_output);;
    EventBus.emit "on_output" (JObj [("output", JStr tool_output)]).

(** What the loop body does with the envelope the reasoner returned.
    The envelope's [tool_input] is a mapping, as the reasoner contract
    and the envelope schema have it; any other shape is stopped here
    with a [TypeError]. *)
Definition dispatch (self : AgentKernel) (user_input : string)
    (reasoning_result : list (string * json)) : M unit :=
  let tool_name := default JNull (dict_get "tool_name" reasoning_result) in
  tool_input ←
    match dict_get "tool_input" reasoning_result with
    | None => mret []
    | Some (JObj d) => mret d
    | Some _ => raise (Exn TypeError "tool_input is not a mapping")
    end;
  when (debug self)
    (EventBus.emit "on_tool_selected"
       (JObj [("tool_name", tool_name); ("tool_input", JObj tool_input)]));;
  if py_eq tool_name (JStr "chat") && dict_mem "response" tool_input then
    chat_reply self user_input tool_input
  else
    tool ← lift_result (get_tool_by_name tool_name (tools self));
    match tool with
    | None => missing_tool self user_input tool_name tool_input
    | Some tool => use_tool self user_input tool tool_name tool_input
    end.

(** The body of the [try] of one pass of the loop, from the input just
    read. *)
Definition turn_body (self : AgentKernel) (user_input : string) : M unit :=
  EventBus.emit "on_input" (JObj [("input", JStr user_input)]);;
  memory_save "user" (JStr user_input)
    [("input_length", JInt (Z.of_nat (String.length user_input)));
     ("tool_context", JStr "conversation_start")];;
  enhanced_prompt ← gets (λ w, _prepare_reasoning_prompt user_input (memory w));
  reasoning_result ← reasoner self enhanced_prompt (Some (tools self)) true;
  when (negb (debug self)) (EventBus.emit "on_thought" (JObj reasoning_result));;
  dispatch self user_input reasoning_result.

Definition exception_name (e : exn) : string :=
  match exn_type e with
  | ValueError => "ValueError"
  | JSONDecodeError => "JSONDecodeError"
  | ValidationError => "ValidationError"
  | RuntimeError => "RuntimeError"
  | AttributeError => "AttributeError"
  | TypeError => "TypeError"
  | KeyError => "KeyError"
  | OtherError => "Exception"
  end.

(** The crash message; the stack trace that follows the first line is
    not reproduced. *)
Definition crash_message (e : exn) : json :=
  JStr ("[ERROR] Agent crashed: " +:+ exn_msg e +:+ PyStr.nl).

(** One pass of the [while True] loop: [Ok] when the loop goes on to
    the next input, [Raise] when an exception leaves [run]. *)
Definition run_turn (self : AgentKernel) (user_input : string) : M unit :=
  try_except (turn_body self user_input)
    (λ e,
       output (crash_message e);;
       memory_save "system" (crash_message e)
         [("type", JStr "system_error"); ("exception_type", JStr (exception_name e))];;
       EventBus.emit "on_error" (JObj [("error", crash_message e)])).

(** [AgentKernel.run] over the inputs the interface delivers before it signals the
    end of the session. *)
Fixpoint AgentKernel_run (self : AgentKernel) (inputs : list string) : M unit :=
  match inputs with
  | [] => mret ()
  | user_input :: rest => run_turn self user_input;; AgentKernel_run self rest
  end.

(** ** interfaces/cli_interface.py *)

Record CLIInterface : Type := {
  allow_empty : bool;
  exit_commands : list string
}.

(** [CLIInterface.__init__]: [exit_commands or ['exit', 'quit', 'q']]. *)
Definition CLIInterface_init (allow_empty : bool) (exit_commands : option (list string))
    : CLIInterface :=
  {| allow_empty := allow_empty;
     exit_commands := match exit_commands with
                      | Some (command :: others) => command :: others
                      | _ => ["exit"; "quit"; "q"]
                      end |}.

(** What one call of the builtin [input] meets: a line typed at the
    prompt, or an interrupt from the keyboard.  The end of the list is
    the end of the input stream, where [input] raises [EOFError]. *)
Inductive keyboard : Type :=
  | Line (text : string)
  | Interrupt.

(** [CLIInterface.input]: the message read ([None] when
    [KeyboardInterrupt] leaves the method) and what is left to read. *)
Fixpoint CLIInterface_input (self : CLIInterface) (keys : list keyboard)
    : option string * list keyboard :=
  match keys with
  | [] => (None, [])
  | Interrupt :: rest => (None, rest)
  | Line text :: rest =>
      let user_input := PyStr.strip text in
      if existsb (String.eqb (PyStr.lower user_input)) (exit_commands self) then (None, rest)
      else if String.eqb user_input "" then
        if allow_empty self then (Some user_input, rest)
        else CLIInterface_input self rest
      else (Some user_input, rest)
  end.

End Program.
(** ** Views of the definitions above used in the statements *)

Section Views.
Context `{env : Env}.

Definition property_errors (fields : list (string * json)) (p : string * json) : list verror :=
  match dict_get p.1 fields with
  | Some value => under p.1 <$> iter_errors p.2 value
  | None => []
  end.

Definition keyword_errors (instance : json) (kw : string * json) : list verror :=
  if String.eqb kw.1 "type" then type_errors kw.2 instance
  else if String.eqb kw.1 "required" then required_errors kw.2 instance
  else if String.eqb kw.1 "properties" then
    match kw.2, instance with
    | JObj properties, JObj fields => concat (property_errors fields <$> properties)
    | _, _ => []
    end
  else [].

(** The metadata check of [register_tool]. *)
Definition invalid_metadata (tool : Tool) : Prop :=
  name tool = "" ∨ description tool = "" ∨ example_usage tool = None.

(** Every key of the registry is the name of the tool stored under it,
    and no key occurs twice. *)
Definition well_keyed (tm : ToolManager) : Prop :=
  NoDup (dict_keys (_tools tm)) ∧
  Forall (λ kt : string * Tool, kt.1 = name kt.2) (_tools tm).

(** Every subscriber returns normally, whatever the event and the
    payload. *)
Definition quiet (w : World) : Prop :=
  ∀ event_name data,
    Forall (EventBus.returns_on data) (EventBus.subscribed event_name (subscribers w)).

(** The envelopes [think] can return, by the [return] statement that
    produces them. *)
Inductive think_result (input : string) (available_tools : list Tool)
    : list (string * json) → Prop :=
  | accepted response_str parsed :
      loads (PyStr.strip response_str) = Ok parsed →
      validate parsed LLM_RESPONSE_SCHEMA = Ok () →
      _validate_reasoning_result parsed available_tools = true →
      think_result input available_tools (fields_of parsed)
  | rejected :
      think_result input available_tools (_fallback_response input)
  | reasked e fallback_response_str :
      think_result input available_tools (fallback_parsed e fallback_response_str)
  | raw_passthrough e inner_e response_str :
      think_result input available_tools (final_fallback_parsed e inner_e response_str)
  | failed e :
      think_result input available_tools (error_fallback_parsed e input).

(** A chat envelope that carries a textual response. *)
Definition chat_envelope (envelope : list (string * json)) : Prop :=
  dict_get "tool_name" envelope = Some (JStr "chat") ∧
  ∃ text, dict_get "tool_input" envelope = Some (JObj [("response", JStr text)]).

(** The text a stream of chunks adds up to. *)
Definition stream_text (chunks : list string) : string :=
  foldr (λ chunk text,
           match chunk_token chunk with
           | Some token => token +:+ text
           | None => text
           end) "" chunks.

(** The backend answers the n-th request, made with this prompt, with
    a complete stream that adds up to the text. *)
Definition replies_with (n : nat) (prompt text : string) : Prop :=
  ∃ chunks, backend n prompt = Response 200 chunks None ∧ stream_text chunks = text.

(** The exception a response text meets on its way to an envelope:
    from [json.loads], or from the validation against the envelope
    schema. *)
Definition envelope_error (response_str : string) : option exn :=
  match loads (PyStr.strip response_str) with
  | Raise e => Some e
  | Ok parsed =>
      match validate parsed LLM_RESPONSE_SCHEMA with
      | Raise e => Some e
      | Ok _ => None
      end
  end.

(** The text of the response an envelope carries, if any. *)
Definition response_text (envelope : list (string * json)) : option string :=
  match dict_get "tool_input" envelope with
  | Some (JObj d) => match dict_get "response" d with Some (JStr s) => Some s | _ => None end
  | _ => None
  end.

(** The subscribers are quiet whenever they are known to be ([sure]). *)
Definition guarded (sure : bool) (w : World) : Prop := sure = true → quiet w.

(** The tools [think] sees in the catalog it is given. *)
Definition catalog (tools : option ToolManager) : list Tool :=
  match tools with
  | Some tm => get_all_tools tm
  | None => []
  end.

(** A token callback that keeps the guard. *)
Definition keeps_guard (sure : bool) (token_callback : option (string → M unit)) : Prop :=
  match token_callback with
  | Some callback => ∀ line, hoare (guarded sure) (callback line) (λ w _, guarded sure w)
  | None => True
  end.

(** What the body of [think] may end with: an envelope of one of the
    known kinds, or any exception. *)
Definition body_post (sure : bool) (input : string) (tools : option ToolManager)
    (w : World) (r : result (list (string * json))) : Prop :=
  guarded sure w ∧
  match r with
  | Ok envelope => think_result input (catalog tools) envelope
  | Raise _ => True
  end.

(** The subscribers are quiet and the requests sent so far are [sent]. *)
Definition at_requests (sent : list string) (w : World) : Prop :=
  quiet w ∧ requests w = sent.

(** A token callback that returns normally and sends nothing. *)
Definition returns_at (sent : list string) (token_callback : option (string → M unit)) : Prop :=
  match token_callback with
  | Some callback =>
      ∀ line, hoare (at_requests sent) (callback line)
                (λ w r, at_requests sent w ∧ r = Ok ())
  | None => True
  end.

(** The subscribers are quiet, and the output channel, the memory and
    the record of executed tools are the given ones. *)
Definition kept (o : list json) (m : Memory) (t : list (string * json)) (w : World) : Prop :=
  quiet w ∧ outputs w = o ∧ memory w = m ∧ tool_runs w = t.

(** The memory after the facts extracted from a turn are stored. *)
Definition learned (learnable_info : list (string * json)) (m : Memory) : Memory :=
  foldl (λ m kv, save_context_entry ("learned_" +:+ kv.1) kv.2 "learned_facts" m)
        m learnable_info.

(** The world in which the loop calls the reasoner: the input has been
    announced and stored. *)
Definition before_reasoning (user_input : string) (w : World) : World :=
  set_memory
    (save_entry "user" (JStr user_input)
       (JObj [("input_length", JInt (Z.of_nat (String.length user_input)));
              ("tool_context", JStr "conversation_start")]))
    (EventBus.emit "on_input" (JObj [("input", JStr user_input)]) w).1.

(** The schema the completer reads for one field of a tool. *)
Definition field_schema_of (tool : Tool) (field : string) : json :=
  default (JObj [])
    (dict_get field
       (fields_of (default (JObj []) (dict_get "properties" (fields_of (example_schema tool)))))).

(** The prompt configuration of a tool is a mapping, and so are its
    field prompts. *)
Definition config_ok (tool_name : string) : Prop :=
  ∃ config field_prompts,
    get_tool_prompt tool_name = JObj config ∧
    default (JObj []) (dict_get "field_prompts" config) = JObj field_prompts.

(** The completer cannot resolve a field: whatever the input filled so
    far, the single-field completion ends with [None]. *)
Definition cannot_resolve (reasoner : Reasoner) (tool_name : string) (tool : Tool)
    (user_input field : string) : Prop :=
  ∀ current_input w,
    (_fill_single_field reasoner tool_name field (field_schema_of tool field) user_input
       (get_tool_prompt tool_name) current_input w).2 = Ok JNull.

(** The required fields an input leaves out. *)
Definition absent_fields (tool : Tool) (input : list (string * json)) : list string :=
  List.filter (λ field, negb (dict_mem field input)) (required_fields tool).

(** The backend delivers no stream for the n-th request, made with this
    prompt: the connection fails, or the status is not 200. *)
Definition refused (n : nat) (prompt : string) : Prop :=
  match backend n prompt with
  | ConnectionFailed _ => True
  | Response status_code _ _ => status_code ≠ 200
  end.

(** The value the context memory holds under a category and a key. *)
Definition context_value (category key : string) (m : Memory) : option json :=
  items ← dict_get category (context_memory m); dict_get key items.

(** A computation keeps an invariant of the world, however it ends. *)
Definition preserves {A} (I : World → Prop) (c : M A) : Prop :=
  hoare I c (λ w _, I w).

(** A reasoner keeps an invariant of the world, whatever it is asked. *)
Definition reasoner_preserves (I : World → Prop) (reasoner : Reasoner) : Prop :=
  ∀ prompt tools bus, preserves I (reasoner prompt tools bus).

(** A reasoner that keeps to itself: it leaves quiet subscribers quiet,
    writes nothing to the output channel and runs no tool. *)
Definition unobtrusive (reasoner : Reasoner) : Prop :=
  ∀ prompt tools bus w,
    let w' := (reasoner prompt tools bus w).1 in
    (quiet w → quiet w') ∧ outputs w' = outputs w ∧ tool_runs w' = tool_runs w.

(** The subscribers are quiet and at least [n] messages have been
    written to the output channel. *)
Definition answered (n : nat) (w : World) : Prop :=
  quiet w ∧ (n ≤ length (outputs w))%nat.

(** What a pass of the loop leaves behind: one more message on the
    output channel if its body ends normally, and no less than before
    in any case. *)
Definition turn_post (n : nat) (w : World) (r : result unit) : Prop :=
  match r with
  | Ok _ => answered (S n) w
  | Raise _ => answered n w
  end.

(** Since the tool runs [t], nothing has been run, or one registered
    tool has, on an input that [validate_input] accepted. *)
Definition ran_validated (tm : ToolManager) (t : list (string * json)) (w : World) : Prop :=
  tool_runs w = t ∨
  ∃ tool_name tool input,
    get_tool_by_name tool_name tm = Ok (Some tool) ∧
    validate_input tool_name (JObj input) tm = (true, "") ∧
    tool_runs w = t ++ [(name tool, JObj input)].

End Views.

(** ** A small concrete runtime, on which the model can be run *)

Module Sample.

Definition repr (v : json) : string :=
  match v with
  | JNull => "None"
  | JBool true => "True"
  | JBool false => "False"
  | JInt n => NilZero.string_of_int (Z.to_int n)
  | JFloat _ => "<float>"
  | JStr s => "'" +:+ s +:+ "'"
  | JArr _ => "[...]"
  | JObj _ => "{...}"
  end.

(** A runtime whose [json.loads] knows the texts of a table and whose
    backend is the given one. *)
Definition runtime (table : list (string * json)) (replies : nat → string → Reply) : Env :=
  {| json_loads := λ s, dict_get s table;
     json_error := λ _, "Expecting value: line 1 column 1 (char 0)";
     json_dumps := repr;
     py_repr := repr;
     py_int := λ s, if String.eqb s "42" then Some 42%Z else None;
     py_float := λ s, if String.eqb s "0.5" then Some (FFinite 1 (-1)) else None;
     AGENT_NAME := "Agent";
     prompt_cache := [];
     backend := replies |}.

Definition unreachable : nat → string → Reply :=
  λ _ _, ConnectionFailed (Exn OtherError "connection refused").

Definition world (subs : gmap string (list Callback)) : World :=
  {| requests := []; transcript := [];
     memory := {| limit := 1000; conversation_history := []; context_memory := [] |};
     outputs := []; subscribers := subs; deliveries := []; tool_runs := [];
     reasoner_bus := false |}.

Definition chat_tool : Tool :=
  {| name := "chat";
     description := "Replies conversationally to the user.";
     example_usage := Some ("Example: {" +:+ quoted "response" +:+ ": " +:+
                            quoted "Hello! How can I help you?" +:+ "}");
     input_schema := None;
     run := λ input,
       Ok match input with
          | JObj d => match dict_get "response" d with Some (JStr s) => s | _ => "I'm here." end
          | _ => "I'm here."
          end |}.

End Sample.

Section DictFacts.
Context {A : Type}.
Implicit Types (d : list (string * A)) (k : string) (v : A).

Lemma dict_get_set_eq k v d : dict_get k (dict_set k v d) = Some v.
Proof.
  induction d as [|[k' v'] d IH]; simpl.
  - by rewrite String.eqb_refl.
  - destruct (String.eqb k k') eqn:E; simpl.
    + by rewrite String.eqb_refl.
    + by rewrite E.
Qed.

Lemma dict_get_set_ne k k' v d :
  k ≠ k' → dict_get k' (dict_set k v d) = dict_get k' d.
Proof.
  intros Hne. induction d as [|[k0 v0] d IH]; simpl.
  - destruct (String.eqb_spec k' k); congruence.
  - destruct (String.eqb_spec k k0) as [->|Hk]; simpl.
    + destruct (String.eqb_spec k' k0); congruence.
    + destruct (String.eqb_spec k' k0); congruence.
Qed.

Lemma dict_get_None_keys k d : dict_get k d = None ↔ k ∉ dict_keys d.
Proof.
  unfold dict_keys. induction d as [|[k' v'] d IH]; simpl.
  - split; [intros _; apply not_elem_of_nil | done].
  - rewrite not_elem_of_cons.
    destruct (String.eqb_spec k k') as [->|Hk]; split; try done.
    + by intros [? _].
    + intros H. split; [done | by apply IH].
    + intros [_ H]. by apply IH.
Qed.

Lemma dict_set_new k v d :
  dict_get k d = None → dict_set k v d = d ++ [(k, v)].
Proof.
  induction d as [|[k' v'] d IH]; simpl; [done|].
  destruct (String.eqb_spec k k'); [done|].
  intros H. by rewrite IH.
Qed.

Lemma dict_keys_set_new k v d :
  dict_get k d = None → dict_keys (dict_set k v d) = dict_keys d ++ [k].
Proof.
  intros H. rewrite dict_set_new by done. unfold dict_keys.
  by rewrite fmap_app.
Qed.
End DictFacts.

Lemma bind_ok {A B} (c : M A) (k : A → M B) w w' a :
  c w = (w', Ok a) → (c ≫= k) w = k a w'.
Proof. intros H. unfold mbind, M_bind. by rewrite H. Qed.

Lemma bind_raise {A B} (c : M A) (k : A → M B) w w' e :
  c w = (w', Raise e) → (c ≫= k) w = (w', Raise e).
Proof. intros H. unfold mbind, M_bind. by rewrite H. Qed.


(** * Properties *)

(** ** The monad *)

Lemma run_bind {A B} (c : M A) (k : A → M B) w :
  (c ≫= k) w =
  match c w with
  | (w', Ok a) => k a w'
  | (w', Raise e) => (w', Raise e)
  end.
Proof. reflexivity. Qed.

(** ** The event bus *)

Module EventBusFacts.
Import EventBus.

Lemma call_all_returns callbacks data :
  Forall (returns_on data) callbacks →
  call_all callbacks data = ((λ cb, (cb_id cb, data)) <$> callbacks, None).
Proof.
  induction 1 as [|cb rest Hcb _ IH]; simpl; [done|].
  unfold returns_on in Hcb. by rewrite Hcb, IH.
Qed.

Lemma call_all_raises before cb after data e :
  Forall (returns_on data) before →
  cb_body cb data = Some e →
  call_all (before ++ cb :: after) data =
    ((λ cb, (cb_id cb, data)) <$> (before ++ [cb]), Some e).
Proof.
  intros Hbefore Hcb.
  induction Hbefore as [|cb' rest Hcb' _ IH]; simpl.
  - by rewrite Hcb.
  - unfold returns_on in Hcb'. by rewrite Hcb', IH.
Qed.

Lemma getitem_subscribed event_name subs :
  (getitem event_name subs).1 = subscribed event_name subs.
Proof. unfold getitem, subscribed. by destruct (subs !! event_name). Qed.

Lemma subscribed_getitem event_name other subs :
  subscribed other (getitem event_name subs).2 = subscribed other subs.
Proof.
  unfold getitem, subscribed.
  destruct (subs !! event_name) eqn:E; simpl; [done|].
  destruct (decide (event_name = other)) as [->|Hne].
  - by rewrite lookup_insert_eq, E.
  - by rewrite lookup_insert_ne.
Qed.

Lemma subscribed_subscribe event_name cb other subs :
  subscribed other (subscribe event_name cb subs) =
  if decide (other = event_name) then subscribed event_name subs ++ [cb]
  else subscribed other subs.
Proof.
  unfold subscribe.
  pose proof (getitem_subscribed event_name subs) as H1.
  pose proof (subscribed_getitem event_name other subs) as H2.
  destruct (getitem event_name subs) as [l subs']; simpl in *. subst l.
  unfold subscribed at 1.
  destruct (decide (other = event_name)) as [->|Hne].
  - by rewrite lookup_insert_eq.
  - rewrite lookup_insert_ne by done. exact H2.
Qed.

Lemma emit_unfold event_name data w :
  emit event_name data w =
  (set_bus (getitem event_name (subscribers w)).2
           (call_all (subscribed event_name (subscribers w)) data).1 w,
   match (call_all (subscribed event_name (subscribers w)) data).2 with
   | Some e => Raise e
   | None => Ok ()
   end).
Proof.
  unfold emit, emit_pure.
  rewrite <- getitem_subscribed.
  destruct (getitem event_name (subscribers w)) as [l subs']; simpl.
  by destruct (call_all l data).
Qed.

End EventBusFacts.

(** C10. [emit] calls the callbacks subscribed to the event name once
    each, in the order of their subscription and with the payload it was
    given, before it returns; with no subscriber it calls nothing and
    returns; and when a callback raises, [emit] raises that exception
    and the callbacks subscribed after it are not called.  The order of
    subscription is the order of the list: [subscribe] appends. *)
Theorem emit_calls_subscribers_in_order event_name data w :
  let subs := EventBus.subscribed event_name (subscribers w) in
  let call := λ cb : Callback, (cb_id cb, data) in
  let after := EventBus.emit event_name data w in
  (Forall (EventBus.returns_on data) subs →
     after.2 = Ok () ∧ deliveries after.1 = deliveries w ++ (call <$> subs)) ∧
  (subs = [] → after.2 = Ok () ∧ deliveries after.1 = deliveries w) ∧
  (∀ before cb later e,
     subs = before ++ cb :: later →
     Forall (EventBus.returns_on data) before →
     cb_body cb data = Some e →
     after.2 = Raise e ∧ deliveries after.1 = deliveries w ++ (call <$> (before ++ [cb]))) ∧
  (∀ cb, EventBus.subscribed event_name
           (EventBus.subscribe event_name cb (subscribers w)) = subs ++ [cb]).
Proof.
  intros subs call after. subst after.
  rewrite EventBusFacts.emit_unfold. fold subs. simpl.
  split; [|split; [|split]].
  - intros Hall. by rewrite (EventBusFacts.call_all_returns _ _ Hall).
  - intros ->. simpl. by rewrite app_nil_r.
  - intros before cb later e -> Hbefore Hcb.
    by rewrite (EventBusFacts.call_all_raises _ _ _ _ _ Hbefore Hcb).
  - intros cb. rewrite EventBusFacts.subscribed_subscribe.
    by rewrite decide_True.
Qed.

(** ** The schema validator *)

Section SchemaFacts.
Context `{env : Env}.

Lemma iter_errors_unfold keywords instance :
  iter_errors (JObj keywords) instance = concat (keyword_errors instance <$> keywords).
Proof.
  simpl. induction keywords as [|[kw arg] rest IH]; [done|].
  rewrite fmap_cons. simpl. rewrite <- IH. f_equal.
  unfold keyword_errors. simpl.
  destruct (String.eqb kw "type"); [done|].
  destruct (String.eqb kw "required"); [done|].
  destruct (String.eqb kw "properties"); [|done].
  destruct arg as [| | | | | |properties]; try done.
  destruct instance as [| | | | | |fields]; try done.
  induction properties as [|[p sub] ps IHp]; [done|].
  rewrite fmap_cons. simpl. by rewrite <- IHp.
Qed.

Lemma is_type_infer_type v : v ≠ JNull → is_type v (infer_type v) = true.
Proof. by destruct v. Qed.

Lemma json_strings_JStr (l : list string) : json_strings (JArr (JStr <$> l)) = l.
Proof.
  unfold json_strings. induction l as [|s l IH]; [done|].
  rewrite fmap_cons. cbn. by rewrite IH.
Qed.

Lemma dict_mem_keys {A} (d : list (string * A)) k :
  k ∈ dict_keys d → dict_mem k d = true.
Proof.
  intros Hin. unfold dict_mem.
  destruct (dict_get k d) eqn:E; [done|].
  by apply dict_get_None_keys in E.
Qed.

Lemma required_errors_own_keys example :
  required_errors (JArr (JStr <$> dict_keys example)) (JObj example) = [].
Proof.
  unfold required_errors. rewrite json_strings_JStr.
  assert (∀ l, (∀ k, k ∈ l → k ∈ dict_keys example) →
     List.filter (λ property, negb (dict_mem property example)) l = []) as H.
  { induction l as [|k l IH]; intros Hl; [done|]. simpl.
    rewrite (dict_mem_keys example k) by (apply Hl; left). simpl.
    apply IH. intros k' Hk'. apply Hl. by right. }
  by rewrite H.
Qed.

Lemma dict_get_NoDup {A} (d : list (string * A)) k v :
  NoDup (dict_keys d) → (k, v) ∈ d → dict_get k d = Some v.
Proof.
  unfold dict_keys. induction d as [|[k' v'] d IH]; intros Hnd Hin.
  - by apply elem_of_nil in Hin.
  - rewrite fmap_cons in Hnd. simpl in Hnd. apply NoDup_cons in Hnd as [Hk' Hnd].
    apply elem_of_cons in Hin as [Heq|Hin]; simpl.
    + injection Heq as -> ->. by rewrite String.eqb_refl.
    + destruct (String.eqb_spec k k') as [->|Hne]; [|by apply IH].
      exfalso. apply Hk'. apply list_elem_of_fmap. by exists (k', v).
Qed.

Lemma property_errors_own_fields example part :
  (∀ k v, (k, v) ∈ part → dict_get k example = Some v ∧ v ≠ JNull) →
  concat (property_errors example <$>
            ((λ kv : string * json, (kv.1, JObj [("type", JStr (infer_type kv.2))])) <$> part))
  = [].
Proof.
  induction part as [|[k v] part IH]; intros Hpart; [done|].
  rewrite !fmap_cons. simpl.
  destruct (Hpart k v) as [Hget Hnull]; [left|].
  rewrite IH by (intros k' v' Hin; apply Hpart; by right).
  unfold property_errors. simpl. rewrite Hget, app_nil_r.
  unfold type_errors. simpl.
  by rewrite (is_type_infer_type v Hnull).
Qed.

Lemma keyword_type arg instance :
  keyword_errors instance ("type", arg) = type_errors arg instance.
Proof. reflexivity. Qed.

Lemma keyword_required arg instance :
  keyword_errors instance ("required", arg) = required_errors arg instance.
Proof. reflexivity. Qed.

Lemma keyword_properties properties fields :
  keyword_errors (JObj fields) ("properties", JObj properties) =
  concat (property_errors fields <$> properties).
Proof. reflexivity. Qed.

(** An example without null values passes the schema inferred from it. *)
Lemma example_without_null_validates example :
  NoDup (dict_keys example) →
  Forall (λ kv : string * json, kv.2 ≠ JNull) example →
  validate (JObj example) (schema_of_example example) = Ok ().
Proof.
  intros Hnd Hnull. unfold validate, schema_of_example.
  rewrite iter_errors_unfold, !fmap_cons, fmap_nil.
  rewrite keyword_type, keyword_required, keyword_properties.
  rewrite required_errors_own_keys, property_errors_own_fields; [done|].
  intros k v Hin. split; [by apply dict_get_NoDup|].
  rewrite Forall_forall in Hnull. exact (Hnull (k, v) Hin).
Qed.

End SchemaFacts.

(** ** The tool registry *)

Section RegistryFacts.
Context `{env : Env}.

Lemma register_tool_guards tool tm w :
  invalid_metadata tool ∨ dict_mem (name tool) (_tools tm) = true →
  ∃ msg, register_tool tool tm w = (tm, w, Raise (Exn ValueError msg)).
Proof.
  unfold invalid_metadata, register_tool. intros H.
  destruct (String.eqb_spec (name tool) ""); simpl; [eauto|].
  destruct (String.eqb_spec (description tool) ""); simpl; [eauto|].
  destruct (example_usage tool) eqn:E; simpl; [|eauto].
  destruct H as [[?|[?|?]]|Hdup]; try done.
  rewrite Hdup. eauto.
Qed.

(** Without an event bus, [register_tool] raises exactly at its two
    guards and then leaves the registry alone; otherwise it appends the
    tool under its name, and names stay unique. *)
Lemma register_tool_without_bus tool tm w :
  event_bus tm = false →
  let out := register_tool tool tm w in
  out.1.2 = w ∧
  ((∃ e, out.2 = Raise e) ↔
     invalid_metadata tool ∨ dict_mem (name tool) (_tools tm) = true) ∧
  ((∃ e, out.2 = Raise e) → out.1.1 = tm) ∧
  (out.2 = Ok () →
     _tools out.1.1 = _tools tm ++ [(name tool, tool)] ∧
     (well_keyed tm → well_keyed out.1.1)).
Proof.
  intros Hbus. unfold invalid_metadata, register_tool. rewrite Hbus.
  destruct (String.eqb_spec (name tool) "") as [Hn|Hn]; simpl.
  { repeat split; eauto; done. }
  destruct (String.eqb_spec (description tool) "") as [Hd|Hd]; simpl.
  { repeat split; eauto; done. }
  destruct (example_usage tool) eqn:E; simpl; [|repeat split; eauto; done].
  destruct (dict_mem (name tool) (_tools tm)) eqn:Hmem; simpl.
  { repeat split; eauto; done. }
  assert (dict_get (name tool) (_tools tm) = None) as Hget.
  { unfold dict_mem in Hmem. by destruct (dict_get (name tool) (_tools tm)). }
  split; [done|]. split; [|split].
  - split; [by intros [? ?]|]. intros [[?|[?|?]]|?]; done.
  - by intros [? ?].
  - intros _. rewrite dict_set_new by done. split; [done|].
    intros [Hnd Hkeys]. unfold well_keyed. simpl. split.
    + unfold dict_keys in *. rewrite fmap_app. simpl.
      apply NoDup_app. split; [done|]. split; [|apply NoDup_singleton].
      intros k Hk ->%list_elem_of_singleton.
      by apply dict_get_None_keys in Hget.
    + apply Forall_app. split; [done|]. by apply Forall_singleton.
Qed.

End RegistryFacts.

(** C9, at a failing input.  A manager with an event bus attached and an
    empty registry is given the chat tool, whose metadata is complete
    and whose name is new: the call stores the tool and then raises. *)
Theorem register_tool_with_bus_stores_then_raises :
  let env := Sample.runtime [] Sample.unreachable in
  register_tool Sample.chat_tool {| _tools := []; event_bus := true |} (Sample.world ∅) =
  ({| _tools := [("chat", Sample.chat_tool)]; event_bus := true |},
   Sample.world ∅,
   Raise (Exn AttributeError "object has no attribute 'input_schema'")).
Proof. reflexivity. Qed.

(** C6, at a failing input.  A registered tool documents itself with an
    example whose field [x] is null; the schema inferred from the
    example types [x] as a string, and the example does not pass it. *)
Theorem null_example_fails_own_schema :
  let text := "{" +:+ quoted "x" +:+ ": null}" in
  let example := JObj [("x", JNull)] in
  let env := Sample.runtime [(text, example)] Sample.unreachable in
  let tool := {| name := "lookup"; description := "Looks a key up.";
                 example_usage := Some text; input_schema := None;
                 run := λ _, Ok "done" |} in
  let tm := {| _tools := [("lookup", tool)]; event_bus := false |} in
  parsed_example tool = Some example ∧
  example_schema tool =
    JObj [ ("type", JStr "object"); ("required", JArr [JStr "x"]);
           ("properties", JObj [("x", JObj [("type", JStr "string")])]) ] ∧
  validate_input (JStr "lookup") example tm = (false, "None is not of type 'string'").
Proof. vm_compute. done. Qed.

(** ** The field completer's coercion *)

Lemma existsb_eqb_elem (s : string) (l : list string) :
  existsb (String.eqb s) l = bool_decide (s ∈ l).
Proof.
  induction l as [|x l IH]; cbn [existsb].
  - symmetry. apply bool_decide_eq_false_2, not_elem_of_nil.
  - rewrite IH. destruct (String.eqb_spec s x) as [->|Hne]; cbn [orb].
    + symmetry. apply bool_decide_eq_true_2. left.
    + apply bool_decide_ext. rewrite elem_of_cons.
      split; [by right | by intros [?|?]].
Qed.


(** ** A Hoare logic for the monad *)

Section HoareRules.
Context {A B : Type}.
Implicit Types (P : World → Prop) (c : M A) (Q : World → result A → Prop).

Lemma hoare_pre P P' c Q :
  (∀ w, P w → P' w) → hoare P' c Q → hoare P c Q.
Proof. intros HP Hc w Hw. apply Hc, HP, Hw. Qed.

Lemma hoare_post P c Q Q' :
  hoare P c Q → (∀ w r, Q w r → Q' w r) → hoare P c Q'.
Proof. intros Hc HQ w Hw. apply HQ, Hc, Hw. Qed.

Lemma hoare_ret P (a : A) Q :
  (∀ w, P w → Q w (Ok a)) → hoare P (mret a) Q.
Proof. intros H w Hw. by apply H. Qed.

Lemma hoare_raise P e Q :
  (∀ w, P w → Q w (Raise e)) → hoare P (raise e) Q.
Proof. intros H w Hw. by apply H. Qed.

Lemma hoare_lift_result P (r : result A) Q :
  (∀ w, P w → Q w r) → hoare P (lift_result r) Q.
Proof. intros H w Hw. by apply H. Qed.

Lemma hoare_gets P (f : World → A) Q :
  (∀ w, P w → Q w (Ok (f w))) → hoare P (gets f) Q.
Proof. intros H w Hw. by apply H. Qed.

Lemma hoare_bind P c (R : World → result A → Prop) (k : A → M B)
    (Q : World → result B → Prop) :
  hoare P c R →
  (∀ a, hoare (λ w, R w (Ok a)) (k a) Q) →
  (∀ w e, R w (Raise e) → Q w (Raise e)) →
  hoare P (c ≫= k) Q.
Proof.
  intros Hc Hk He w Hw. rewrite run_bind.
  specialize (Hc w Hw). destruct (c w) as [w' [a|e]]; simpl in *.
  - by apply Hk.
  - by apply He.
Qed.

Lemma hoare_try_except P c (R : World → result A → Prop) (h : exn → M A) Q :
  hoare P c R →
  (∀ w a, R w (Ok a) → Q w (Ok a)) →
  (∀ e, hoare (λ w, R w (Raise e)) (h e) Q) →
  hoare P (try_except c h) Q.
Proof.
  intros Hc Hok Hh w Hw. unfold try_except.
  specialize (Hc w Hw). destruct (c w) as [w' [a|e]]; simpl in *.
  - by apply Hok.
  - by apply Hh.
Qed.

Lemma hoare_try_except_if P (p : exn → bool) c (R : World → result A → Prop)
    (h : exn → M A) Q :
  hoare P c R →
  (∀ w a, R w (Ok a) → Q w (Ok a)) →
  (∀ w e, R w (Raise e) → p e = false → Q w (Raise e)) →
  (∀ e, p e = true → hoare (λ w, R w (Raise e)) (h e) Q) →
  hoare P (try_except_if p c h) Q.
Proof.
  intros Hc Hok Hpass Hh w Hw. unfold try_except_if.
  specialize (Hc w Hw). destruct (c w) as [w' [a|e]]; simpl in *.
  - by apply Hok.
  - destruct (p e) eqn:Hp; [by apply Hh | by apply Hpass].
Qed.

End HoareRules.

Lemma hoare_modify P (f : World → World) (Q : World → result unit → Prop) :
  (∀ w, P w → Q (f w) (Ok ())) → hoare P (modify f) Q.
Proof. intros H w Hw. by apply H. Qed.

Lemma hoare_when P (b : bool) (c : M unit) (Q : World → result unit → Prop) :
  (b = true → hoare P c Q) →
  (b = false → ∀ w, P w → Q w (Ok ())) →
  hoare P (when b c) Q.
Proof.
  intros Hc Hskip. destruct b; simpl.
  - by apply Hc.
  - intros w Hw. by apply Hskip.
Qed.

(** ** Quiet subscribers *)

Lemma quiet_subscribers w w' :
  subscribers w' = subscribers w → quiet w → quiet w'.
Proof. unfold quiet. by intros ->. Qed.

Lemma emit_quiet event_name data w :
  quiet w →
  (EventBus.emit event_name data w).2 = Ok () ∧ quiet (EventBus.emit event_name data w).1.
Proof.
  intros Hq. rewrite EventBusFacts.emit_unfold. simpl.
  rewrite (EventBusFacts.call_all_returns _ _ (Hq event_name data)). split; [done|].
  intros other data'. simpl. rewrite EventBusFacts.subscribed_getitem. apply Hq.
Qed.

(** What an emission leaves alone. *)
Lemma emit_frame event_name data w :
  let w' := (EventBus.emit event_name data w).1 in
  requests w' = requests w ∧ transcript w' = transcript w ∧ memory w' = memory w ∧
  outputs w' = outputs w ∧ tool_runs w' = tool_runs w ∧ reasoner_bus w' = reasoner_bus w.
Proof. rewrite EventBusFacts.emit_unfold. by simpl. Qed.

Lemma hoare_ret_bind {A B} P (a : A) (k : A → M B) Q :
  hoare P (k a) Q → hoare P (mret a ≫= k) Q.
Proof. intros H w Hw. exact (H w Hw). Qed.

Lemma hoare_lift_bind {A B} P (r : result A) (k : A → M B) (Q : World → result B → Prop) :
  match r with
  | Ok a => hoare P (k a) Q
  | Raise e => ∀ w, P w → Q w (Raise e)
  end →
  hoare P (lift_result r ≫= k) Q.
Proof.
  destruct r as [a|e]; intros H w Hw.
  - exact (H w Hw).
  - exact (H w Hw).
Qed.

(** Sequencing under an invariant. *)
Lemma hoare_seq {A B} (I : World → Prop) (c : M A) (k : A → M B)
    (Q : World → result B → Prop) :
  hoare I c (λ w _, I w) →
  (∀ a, hoare I (k a) Q) →
  (∀ w e, I w → Q w (Raise e)) →
  hoare I (c ≫= k) Q.
Proof. intros Hc Hk He. by eapply hoare_bind; [exact Hc|..]. Qed.

(** ** The reasoning client *)

Section ThinkFacts.
Context `{env : Env}.
Variable self : LLMReasoner.
Variable sure : bool.

Lemma guarded_subscribers w w' :
  subscribers w' = subscribers w → guarded sure w → guarded sure w'.
Proof. intros Hs Hg Hsure. eapply quiet_subscribers; [exact Hs | by apply Hg]. Qed.

Lemma emit_guarded event_name data :
  hoare (guarded sure) (EventBus.emit event_name data)
    (λ w r, guarded sure w ∧ (sure = true → r = Ok ())).
Proof.
  intros w Hw. split.
  - intros Hsure. by apply emit_quiet, Hw.
  - intros Hsure. by apply emit_quiet, Hw.
Qed.

Lemma emit_debug_guarded event_name data :
  hoare (guarded sure) (emit_debug self event_name data)
    (λ w r, guarded sure w ∧
            match r with
            | Ok _ => True
            | Raise _ => sure = false ∧ debug_mode self = true
            end).
Proof.
  intros w Hw. unfold emit_debug. rewrite run_bind. simpl.
  destruct (debug_mode self) eqn:Hd; simpl; [|done].
  destruct (reasoner_bus w); simpl; [|done].
  destruct (emit_guarded event_name data w Hw) as [Hg Hr]. split; [done|].
  destruct (EventBus.emit event_name data w).2 eqn:E; [done|].
  destruct sure; [|done]. by specialize (Hr eq_refl).
Qed.

Lemma emit_debug_keeps event_name data :
  hoare (guarded sure) (emit_debug self event_name data) (λ w _, guarded sure w).
Proof. eapply hoare_post; [apply emit_debug_guarded|]. by intros w r [? _]. Qed.

Lemma emit_keeps event_name data :
  hoare (guarded sure) (EventBus.emit event_name data) (λ w _, guarded sure w).
Proof. eapply hoare_post; [apply emit_guarded|]. by intros w r [? _]. Qed.

Lemma stream_callback_guarded line :
  hoare (guarded sure) (stream_callback line) (λ w _, guarded sure w).
Proof.
  intros w Hw. unfold stream_callback. rewrite run_bind. simpl.
  rewrite run_bind. simpl.
  assert (guarded sure (set_transcript (λ t, t ++ [line]) w)) as Hw'
    by (by eapply guarded_subscribers; [|exact Hw]).
  destruct (reasoner_bus w); simpl; [|done].
  exact (emit_keeps _ _ _ Hw').
Qed.

Lemma drain_lines_guarded token_callback lines rest w :
  keeps_guard sure token_callback → guarded sure w →
  guarded sure (drain_lines token_callback lines rest w).1.
Proof.
  intros Hcb. revert w. induction lines as [|line lines IH]; intros w Hw; simpl; [done|].
  destruct token_callback as [callback|]; [|by apply IH].
  specialize (Hcb line w Hw).
  destruct (callback line w) as [w' [[]|e]]; simpl in *; [by apply IH | done].
Qed.

Lemma consume_chunks_guarded token_callback chunks full_text line_buffer w :
  keeps_guard sure token_callback → guarded sure w →
  guarded sure (consume_chunks token_callback chunks full_text line_buffer w).1.
Proof.
  intros Hcb. revert full_text line_buffer w.
  induction chunks as [|chunk chunks IH]; intros full_text line_buffer w Hw; simpl; [done|].
  destruct (chunk_token chunk) as [token|]; [|by apply IH].
  destruct (split_lines (line_buffer +:+ token)) as [lines rest].
  pose proof (drain_lines_guarded token_callback lines rest w Hcb Hw) as Hd.
  destruct (drain_lines token_callback lines rest w) as [w' line_buffer']. by apply IH.
Qed.

Lemma call_llm_stream_guarded prompt token_callback :
  keeps_guard sure token_callback →
  hoare (guarded sure) (_call_llm_stream prompt token_callback) (λ w _, guarded sure w).
Proof.
  intros Hcb w Hw. unfold _call_llm_stream.
  assert (guarded sure (set_requests (λ r, r ++ [prompt]) w)) as Hw1
    by (by eapply guarded_subscribers; [|exact Hw]).
  destruct (backend (length (requests w)) prompt) as [e|status_code chunks broken]; [done|].
  destruct (negb (status_code =? 200)); [done|].
  pose proof (consume_chunks_guarded token_callback chunks "" "" _ Hcb Hw1) as Hc.
  destruct (consume_chunks token_callback chunks "" "" _) as [w2 [full_text line_buffer]].
  simpl in Hc. destruct broken; [done|].
  destruct token_callback as [callback|]; [|done].
  destruct (String.eqb line_buffer ""); [done|].
  rewrite run_bind. specialize (Hcb line_buffer w2 Hc).
  by destruct (callback line_buffer w2) as [w3 [[]|e]].
Qed.

Lemma try_call_llm_guarded attempts last_error prompt token_callback :
  keeps_guard sure token_callback →
  hoare (guarded sure) (try_call_llm_from self attempts last_error prompt token_callback)
    (λ w _, guarded sure w).
Proof.
  intros Hcb. revert last_error.
  induction attempts as [|attempts IH]; intros last_error w Hw; simpl; [done|].
  pose proof (call_llm_stream_guarded prompt token_callback Hcb w Hw) as Hc.
  destruct (_call_llm_stream prompt token_callback w) as [w' [text|e]]; simpl in *; [done|].
  by apply IH.
Qed.

Lemma try_call_llm_unreachable attempts last_error prompt token_callback :
  (∀ n p, ∃ e, backend n p = ConnectionFailed e) →
  hoare (guarded sure) (try_call_llm_from self attempts last_error prompt token_callback)
    (λ w r, guarded sure w ∧ ∃ e, r = Raise e).
Proof.
  intros Hdown. revert last_error.
  induction attempts as [|attempts IH]; intros last_error w Hw; simpl.
  - split; [done | by eexists].
  - unfold _call_llm_stream.
    destruct (Hdown (length (requests w)) prompt) as [e ->].
    apply IH. by eapply guarded_subscribers; [|exact Hw].
Qed.

Lemma memory_save_guarded r c md :
  hoare (guarded sure) (memory_save r c md) (λ w _, guarded sure w).
Proof. intros w Hw. by eapply guarded_subscribers; [|exact Hw]. Qed.

Lemma reask_guarded input tools response_str e :
  hoare (guarded sure) (reask self input response_str e) (body_post sure input tools).
Proof.
  unfold reask.
  eapply hoare_try_except with (R := body_post sure input tools).
  - apply hoare_seq; [by apply try_call_llm_guarded | | done].
    intros text.
    apply hoare_seq; [apply emit_debug_keeps | | done]. intros ?.
    apply hoare_seq; [apply emit_debug_keeps | | done]. intros ?.
    apply hoare_ret. intros w Hw. split; [done|]. apply reasked.
  - done.
  - intros inner_e. eapply hoare_pre; [by intros w [Hw _]; exact Hw|].
    apply hoare_seq; [apply emit_debug_keeps | | done]. intros ?.
    apply hoare_ret. intros w Hw. split; [done|]. apply raw_passthrough.
Qed.

Lemma think_body_guarded input tools :
  hoare (guarded sure) (think_body self input tools) (body_post sure input tools).
Proof.
  unfold think_body. destruct tools as [tm|]; [|by intros w Hw].
  apply hoare_ret_bind.
  apply hoare_seq; [by apply hoare_gets | | done]. intros prompt.
  apply hoare_seq; [apply emit_debug_keeps | | done]. intros ?.
  apply hoare_seq; [apply hoare_modify; intros w Hw;
                    by eapply guarded_subscribers; [|exact Hw] | | done]. intros ?.
  apply hoare_seq; [apply try_call_llm_guarded; intros line;
                    apply stream_callback_guarded | | done]. intros response_str.
  apply hoare_seq; [by apply hoare_gets | | done]. intros lines.
  apply hoare_seq; [apply memory_save_guarded | | done]. intros ?.
  apply hoare_seq; [by apply hoare_gets | | done]. intros bus.
  apply hoare_seq; [| | done].
  { destruct (debug_mode self && bus); [|destruct bus].
    - apply emit_keeps.
    - apply emit_keeps.
    - by apply hoare_ret. }
  intros ?.
  eapply hoare_try_except_if with (R := body_post sure input (Some tm)).
  - apply hoare_lift_bind.
    destruct (loads (PyStr.strip response_str)) as [parsed|e] eqn:Hloads; [|done].
    apply hoare_lift_bind.
    destruct (validate parsed LLM_RESPONSE_SCHEMA) as [[]|e] eqn:Hvalid; [|done].
    destruct (_validate_reasoning_result parsed (get_all_tools tm)) eqn:Hknown; simpl.
    + apply hoare_seq; [apply emit_debug_keeps | | done]. intros ?.
      apply hoare_ret. intros w Hw. split; [done|]. by eapply accepted.
    + apply hoare_ret. intros w Hw. split; [done|]. apply rejected.
  - done.
  - done.
  - intros e _. eapply hoare_pre; [by intros w [Hw _]; exact Hw|].
    apply reask_guarded.
Qed.

(** With the backend out of reach the body of [think] ends with an
    exception. *)
Lemma think_body_unreachable input tools :
  (∀ n p, ∃ e, backend n p = ConnectionFailed e) →
  hoare (guarded sure) (think_body self input tools)
    (λ w r, guarded sure w ∧ ∃ e, r = Raise e).
Proof.
  intros Hdown. unfold think_body.
  destruct tools as [tm|]; [|intros w Hw; split; [done | by eexists]].
  apply hoare_ret_bind.
  apply hoare_seq; [by apply hoare_gets | | by eauto]. intros prompt.
  apply hoare_seq; [apply emit_debug_keeps | | by eauto]. intros ?.
  apply hoare_seq; [apply hoare_modify; intros w Hw;
                    by eapply guarded_subscribers; [|exact Hw] | | by eauto]. intros ?.
  eapply hoare_bind; [by apply try_call_llm_unreachable | |].
  - by intros text w [_ [e ?]].
  - intros w e [Hw _]. eauto.
Qed.

Lemma think_unreachable input tools bus :
  (∀ n p, ∃ e, backend n p = ConnectionFailed e) →
  hoare (guarded sure) (think self input tools bus)
    (λ w r, match r with
            | Ok envelope => ∃ e, envelope = error_fallback_parsed e input
            | Raise _ => sure = false ∧ debug_mode self = true
            end).
Proof.
  intros Hdown. unfold think.
  eapply hoare_bind with (R := λ w r, guarded sure w ∧ r = Ok ()).
  - apply hoare_when; intros _.
    + apply hoare_modify. intros w Hw. split; [|done].
      by eapply guarded_subscribers; [|exact Hw].
    + by intros w Hw.
  - intros ?. eapply hoare_pre; [by intros w [Hw _]; exact Hw|].
    eapply hoare_try_except;
      [by apply think_body_unreachable | by intros w envelope [_ [e ?]] |].
    intros e. eapply hoare_pre; [by intros w [Hw _]; exact Hw|].
    eapply hoare_bind; [apply emit_debug_guarded | |by intros w e' [_ ?]].
    intros ?. apply hoare_ret. intros w _. by eexists.
  - by intros w e [_ ?].
Qed.

Lemma think_guarded input tools bus :
  hoare (guarded sure) (think self input tools bus)
    (λ w r, match r with
            | Ok envelope => think_result input (catalog tools) envelope
            | Raise _ => sure = false ∧ debug_mode self = true
            end).
Proof.
  unfold think.
  eapply hoare_bind with (R := λ w r, guarded sure w ∧ r = Ok ()).
  - apply hoare_when; intros ?.
    + apply hoare_modify. intros w Hw. split; [|done].
      by eapply guarded_subscribers; [|exact Hw].
    + by intros w Hw.
  - intros ?. eapply hoare_pre; [by intros w [Hw _]; exact Hw|].
    eapply hoare_try_except; [apply think_body_guarded | by intros w envelope [_ ?] |].
    intros e. eapply hoare_pre; [by intros w [Hw _]; exact Hw|].
    eapply hoare_bind; [apply emit_debug_guarded | |by intros w e' [_ ?]].
    intros ?. apply hoare_ret. intros w _. apply failed.
  - by intros w e [_ ?].
Qed.

End ThinkFacts.

Section EnvelopeFacts.
Context `{env : Env}.

Lemma py_eq_JStr v s : py_eq v (JStr s) = true → v = JStr s.
Proof.
  destruct v as [|b|n|f|t|l|d]; simpl; try done.
  by intros ->%String.eqb_eq.
Qed.

Lemma validated_tool_is_registered parsed available_tools :
  _validate_reasoning_result parsed available_tools = true →
  ∃ tool, tool ∈ available_tools ∧
          dict_get "tool_name" (fields_of parsed) = Some (JStr (name tool)).
Proof.
  unfold _validate_reasoning_result. destruct parsed as [| | | | | |d]; try done.
  destruct (forallb _ _); [|done].
  intros (tool & Hin & Heq)%existsb_exists.
  exists tool. split; [by apply list_elem_of_In|]. simpl.
  apply py_eq_JStr in Heq.
  destruct (dict_get "tool_name" d); simpl in Heq; [by subst | done].
Qed.

Lemma think_result_tool_name input available_tools envelope :
  think_result input available_tools envelope →
  dict_get "tool_name" envelope = Some (JStr "chat") ∨
  ∃ tool, tool ∈ available_tools ∧ dict_get "tool_name" envelope = Some (JStr (name tool)).
Proof.
  destruct 1 as [response_str parsed _ _ Hknown| | | |]; try (by left).
  right. by apply validated_tool_is_registered.
Qed.

Lemma think_result_chat_unless_accepted input available_tools envelope :
  think_result input available_tools envelope →
  chat_envelope envelope ∨
  ∃ response_str parsed,
    envelope = fields_of parsed ∧
    loads (PyStr.strip response_str) = Ok parsed ∧
    validate parsed LLM_RESPONSE_SCHEMA = Ok () ∧
    _validate_reasoning_result parsed available_tools = true.
Proof.
  destruct 1 as [response_str parsed Hloads Hvalid Hknown| | | |].
  - right. by exists response_str, parsed.
  - left. split; [done|]. by eexists.
  - left. split; [done|]. by eexists.
  - left. split; [done|]. by eexists.
  - left. split; [done|]. by eexists.
Qed.

Lemma error_fallback_is_chat e input : chat_envelope (error_fallback_parsed e input).
Proof. split; [done|]. by eexists. Qed.

Lemma nothing_validates_without_tools parsed : _validate_reasoning_result parsed [] = false.
Proof.
  unfold _validate_reasoning_result. destruct parsed; try done.
  by destruct (forallb _ _).
Qed.

End EnvelopeFacts.

(** C1. Whatever the backend answers, an envelope that [think] returns
    for a supplied catalog names the reserved [chat] or a tool of the
    catalog: a parsed answer naming anything else is replaced by the
    chat fallback before it is returned.  [think] ends with an
    exception only in debug mode. *)
Theorem think_names_chat_or_registered_tool `{env : Env}
    (self : LLMReasoner) (input : string) (tm : ToolManager) (bus : bool) (w : World) :
  match (think self input (Some tm) bus w).2 with
  | Ok envelope =>
      dict_get "tool_name" envelope = Some (JStr "chat") ∨
      ∃ tool, tool ∈ get_all_tools tm ∧
              dict_get "tool_name" envelope = Some (JStr (name tool))
  | Raise _ => debug_mode self = true
  end.
Proof.
  pose proof (think_guarded self false input (Some tm) bus w) as H.
  destruct (think self input (Some tm) bus w).2 as [envelope|e].
  - eapply think_result_tool_name, H. done.
  - by apply H.
Qed.

(** C4, amended. When debug mode is off, or when no event subscriber
    raises, [think] returns an envelope and no exception reaches the
    caller.  The envelope is a chat envelope with a textual response
    unless it is the backend's own answer: a text that parses, is valid
    against the envelope schema and names a tool of the catalog.  In
    particular it is a chat envelope when the backend cannot be reached
    and when no catalog is supplied. *)
Theorem think_returns_an_envelope `{env : Env}
    (self : LLMReasoner) (input : string) (tools : option ToolManager) (bus : bool)
    (w : World) :
  (debug_mode self = true → quiet w) →
  ∃ w' envelope,
    think self input tools bus w = (w', Ok envelope) ∧
    (chat_envelope envelope ∨
     ∃ response_str parsed,
       envelope = fields_of parsed ∧
       loads (PyStr.strip response_str) = Ok parsed ∧
       validate parsed LLM_RESPONSE_SCHEMA = Ok () ∧
       _validate_reasoning_result parsed (catalog tools) = true) ∧
    ((∀ n p, ∃ e, backend n p = ConnectionFailed e) → chat_envelope envelope) ∧
    (tools = None → chat_envelope envelope).
Proof.
  intros Hquiet.
  pose proof (think_guarded self (debug_mode self) input tools bus w Hquiet) as H.
  pose proof (λ Hdown, think_unreachable self (debug_mode self) input tools bus Hdown w Hquiet)
    as Hdown.
  destruct (think self input tools bus w) as [w' [envelope|e]] eqn:E; simpl in H, Hdown.
  - exists w', envelope. split; [done|].
    pose proof (think_result_chat_unless_accepted _ _ _ H) as Hshape.
    split; [done|]. split.
    + intros Hrefused. destruct (Hdown Hrefused) as [e ->]. apply error_fallback_is_chat.
    + intros ->. destruct Hshape as [?|(r & parsed & _ & _ & _ & Hknown)]; [done|].
      simpl in Hknown. by rewrite nothing_validates_without_tools in Hknown.
  - destruct H as [H1 H2]. congruence.
Qed.

Lemma think_returns_an_envelope_witness :
  let env := Sample.runtime [] Sample.unreachable in
  let self := {| retries := 3; debug_mode := true |} in
  let tools := Some {| _tools := [("chat", Sample.chat_tool)]; event_bus := false |} in
  ∃ w' envelope,
    think self "hello" tools true (Sample.world ∅) = (w', Ok envelope) ∧
    (chat_envelope envelope ∨
     ∃ response_str parsed,
       envelope = fields_of parsed ∧
       loads (PyStr.strip response_str) = Ok parsed ∧
       validate parsed LLM_RESPONSE_SCHEMA = Ok () ∧
       _validate_reasoning_result parsed (catalog tools) = true) ∧
    ((∀ n p, ∃ e, backend n p = ConnectionFailed e) → chat_envelope envelope) ∧
    (tools = None → chat_envelope envelope).
Proof.
  intros env self tools.
  apply (think_returns_an_envelope self "hello" tools true (Sample.world ∅)).
  intros _ event_name data. unfold EventBus.subscribed. simpl.
  rewrite lookup_empty. simpl. apply Forall_nil_2.
Defined.

(** C4 as stated fails: in debug mode, with the backend unreachable
    and a subscriber of [on_thought] that raises, the exception of the
    subscriber leaves [think]. *)
Lemma think_raises_in_debug_mode :
  let env := Sample.runtime [] Sample.unreachable in
  let self := {| retries := 3; debug_mode := true |} in
  let failing := {| cb_id := 1; cb_body := λ _, Some (Exn OtherError "subscriber failed") |} in
  let w := Sample.world {[ "on_thought" := [failing] ]} in
  (think self "hello" (Some {| _tools := []; event_bus := false |}) true w).2
  = Raise (Exn OtherError "subscriber failed").
Proof. vm_compute. reflexivity. Qed.

(** ** The fallback ladder *)

Lemma append_cons (x : ascii) (a b : string) : String x a +:+ b = String x (a +:+ b).
Proof. reflexivity. Qed.

Lemma append_assoc (a b c : string) : (a +:+ b) +:+ c = a +:+ (b +:+ c).
Proof. induction a as [|x a IH]; [done | by rewrite !append_cons, IH]. Qed.

Lemma append_empty_r (a : string) : a +:+ "" = a.
Proof. induction a as [|x a IH]; [done | by rewrite append_cons, IH]. Qed.

Lemma hoare_step {A B} P P' (c : M A) (v : A) (k : A → M B) Q :
  hoare P c (λ w r, P' w ∧ r = Ok v) →
  hoare P' (k v) Q →
  hoare P (c ≫= k) Q.
Proof.
  intros Hc Hk. eapply hoare_bind; [exact Hc | |].
  - intros a. intros w [Hw [= ->]]. by apply Hk.
  - by intros w e [_ ?].
Qed.

Lemma hoare_gets_bind {A B} P (f : World → A) (k : A → M B) Q :
  (∀ a, hoare P (k a) Q) → hoare P (gets f ≫= k) Q.
Proof. intros Hk w Hw. exact (Hk (f w) w Hw). Qed.

Lemma hoare_gets_const {A B} P (f : World → A) (v : A) (k : A → M B) Q :
  (∀ w, f w = v) → hoare P (k v) Q → hoare P (gets f ≫= k) Q.
Proof.
  intros Hf Hk w Hw. specialize (Hk w Hw).
  unfold mbind, M_bind, gets. by rewrite Hf.
Qed.

Section LadderFacts.
Context `{env : Env}.
Variable self : LLMReasoner.

Lemma at_requests_subscribers sent w w' :
  subscribers w' = subscribers w → requests w' = requests w →
  at_requests sent w → at_requests sent w'.
Proof.
  intros Hs Hr [Hq Hsent]. split; [by eapply quiet_subscribers | congruence].
Qed.

Lemma emit_at sent event_name data :
  hoare (at_requests sent) (EventBus.emit event_name data)
    (λ w r, at_requests sent w ∧ r = Ok ()).
Proof.
  intros w [Hq Hsent]. destruct (emit_quiet event_name data w Hq) as [Hr Hq'].
  split; [|done]. split; [done|].
  destruct (emit_frame event_name data w) as [-> _]. done.
Qed.

Lemma emit_debug_at sent event_name data :
  hoare (at_requests sent) (emit_debug self event_name data)
    (λ w r, at_requests sent w ∧ r = Ok ()).
Proof.
  intros w Hw. unfold emit_debug. rewrite run_bind. simpl.
  destruct (debug_mode self && reasoner_bus w); simpl; [|done].
  by apply emit_at.
Qed.

Lemma stream_callback_at sent line :
  hoare (at_requests sent) (stream_callback line)
    (λ w r, at_requests sent w ∧ r = Ok ()).
Proof.
  intros w Hw. unfold stream_callback. rewrite run_bind. simpl.
  rewrite run_bind. simpl.
  assert (at_requests sent (set_transcript (λ t, t ++ [line]) w)) as Hw'
    by (by eapply at_requests_subscribers; [| |exact Hw]).
  destruct (reasoner_bus w); simpl; [|done].
  exact (emit_at _ _ _ _ Hw').
Qed.

Lemma drain_lines_at sent token_callback lines rest w :
  returns_at sent token_callback → at_requests sent w →
  at_requests sent (drain_lines token_callback lines rest w).1.
Proof.
  intros Hcb. revert w. induction lines as [|line lines IH]; intros w Hw; simpl; [done|].
  destruct token_callback as [callback|]; [|by apply IH].
  destruct (Hcb line w Hw) as [Hw' Hr].
  destruct (callback line w) as [w' [[]|e]]; simpl in *; [by apply IH | done].
Qed.

Lemma consume_chunks_at sent token_callback chunks full_text line_buffer w :
  returns_at sent token_callback → at_requests sent w →
  at_requests sent (consume_chunks token_callback chunks full_text line_buffer w).1.
Proof.
  intros Hcb. revert full_text line_buffer w.
  induction chunks as [|chunk chunks IH]; intros full_text line_buffer w Hw; simpl; [done|].
  destruct (chunk_token chunk) as [token|]; [|by apply IH].
  destruct (split_lines (line_buffer +:+ token)) as [lines rest].
  pose proof (drain_lines_at sent token_callback lines rest w Hcb Hw) as Hd.
  destruct (drain_lines token_callback lines rest w) as [w' line_buffer']. by apply IH.
Qed.

(** The text assembled from a stream does not depend on the callback. *)
Lemma consume_chunks_text token_callback chunks full_text line_buffer w :
  (consume_chunks token_callback chunks full_text line_buffer w).2.1
  = full_text +:+ stream_text chunks.
Proof.
  revert full_text line_buffer w.
  induction chunks as [|chunk chunks IH]; intros full_text line_buffer w; simpl.
  - by rewrite append_empty_r.
  - destruct (chunk_token chunk) as [token|]; [|by apply IH].
    destruct (split_lines (line_buffer +:+ token)) as [lines rest].
    destruct (drain_lines token_callback lines rest w) as [w' line_buffer'].
    by rewrite IH, append_assoc.
Qed.

Lemma call_llm_stream_at sent prompt token_callback chunks :
  returns_at (sent ++ [prompt]) token_callback →
  backend (length sent) prompt = Response 200 chunks None →
  hoare (at_requests sent) (_call_llm_stream prompt token_callback)
    (λ w r, at_requests (sent ++ [prompt]) w ∧ r = Ok (stream_text chunks)).
Proof.
  intros Hcb Hreply w [Hq Hsent]. unfold _call_llm_stream.
  rewrite Hsent, Hreply. simpl.
  assert (at_requests (sent ++ [prompt]) (set_requests (λ r, r ++ [prompt]) w)) as Hw1.
  { split; [by eapply quiet_subscribers; [|exact Hq] | simpl; by rewrite Hsent]. }
  pose proof (consume_chunks_at _ token_callback chunks "" "" _ Hcb Hw1) as Hc.
  pose proof (consume_chunks_text token_callback chunks "" ""
                (set_requests (λ r, r ++ [prompt]) w)) as Ht.
  destruct (consume_chunks token_callback chunks "" "" _) as [w2 [full_text line_buffer]].
  simpl in *. subst full_text.
  destruct token_callback as [callback|]; [|done].
  destruct (String.eqb line_buffer ""); [done|].
  rewrite run_bind. destruct (Hcb line_buffer w2 Hc) as [Hw3 Hr].
  by destruct (callback line_buffer w2) as [w3 [[]|e]].
Qed.

Lemma try_call_llm_at sent prompt token_callback chunks :
  (0 < retries self)%nat →
  returns_at (sent ++ [prompt]) token_callback →
  backend (length sent) prompt = Response 200 chunks None →
  hoare (at_requests sent) (_try_call_llm self prompt token_callback)
    (λ w r, at_requests (sent ++ [prompt]) w ∧ r = Ok (stream_text chunks)).
Proof.
  intros Hpos Hcb Hreply w Hw. unfold _try_call_llm.
  destruct (retries self) as [|attempts]; [by apply Nat.lt_irrefl in Hpos|]. simpl.
  destruct (call_llm_stream_at sent prompt token_callback chunks Hcb Hreply w Hw) as [Hw' Hr].
  by destruct (_call_llm_stream prompt token_callback w) as [w' [text|e]].
Qed.

Lemma envelope_error_caught response_str e :
  envelope_error response_str = Some e → is_JSONDecode_or_Validation e = true.
Proof.
  unfold envelope_error, loads, validate.
  destruct (json_loads (PyStr.strip response_str)) as [parsed|]; [|by intros [= <-]].
  destruct (best_match _); [by intros [= <-] | done].
Qed.


Lemma think_reaches_reask sent input tm bus raw e
    (Q : World → result (list (string * json)) → Prop) :
  let first := prompt_for input (get_all_tools tm)
                 {| limit := 0; conversation_history := []; context_memory := [] |} in
  (0 < retries self)%nat →
  replies_with (length sent) first raw →
  envelope_error raw = Some e →
  hoare (at_requests (sent ++ [first])) (reask self input raw e)
    (λ w r, Q w r ∧ ∃ envelope, r = Ok envelope) →
  hoare (at_requests sent) (think self input (Some tm) bus) Q.
Proof.
  intros first Hpos (chunks & Hreply & Hraw) Herror Hreask. unfold think.
  eapply hoare_step with (P' := at_requests sent) (v := ()).
  { apply hoare_when; intros _; [|by intros w Hw].
    apply hoare_modify. intros w Hw. split; [|done].
    by eapply at_requests_subscribers; [| |exact Hw]. }
  eapply hoare_try_except with (R := λ w r, Q w r ∧ ∃ envelope, r = Ok envelope);
    [|by intros w a [? _]|by intros e' w [_ [? ?]]].
  unfold think_body. apply hoare_ret_bind.
  apply hoare_gets_const with (v := first); [done|].
  eapply hoare_step with (P' := at_requests sent) (v := ()); [apply emit_debug_at|].
  eapply hoare_step with (P' := at_requests sent) (v := ()).
  { apply hoare_modify. intros w Hw. split; [|done].
    by eapply at_requests_subscribers; [| |exact Hw]. }
  eapply hoare_step with (P' := at_requests (sent ++ [first])) (v := raw).
  { subst raw. apply try_call_llm_at; [done | | done].
    intros line. apply stream_callback_at. }
  apply hoare_gets_bind. intros lines.
  eapply hoare_step with (P' := at_requests (sent ++ [first])) (v := ()).
  { apply hoare_modify. intros w Hw. split; [|done].
    by eapply at_requests_subscribers; [| |exact Hw]. }
  apply hoare_gets_bind. intros rbus.
  eapply hoare_step with (P' := at_requests (sent ++ [first])) (v := ()).
  { destruct (debug_mode self && rbus); [apply emit_at|].
    destruct rbus; [apply emit_at | by apply hoare_ret]. }
  pose proof (envelope_error_caught raw e Herror) as Hcaught.
  eapply hoare_try_except_if
    with (R := λ w r, at_requests (sent ++ [first]) w ∧ r = Raise e).
  - apply hoare_lift_bind. unfold envelope_error in Herror.
    destruct (loads (PyStr.strip raw)) as [parsed|e0].
    + apply hoare_lift_bind.
      destruct (validate parsed LLM_RESPONSE_SCHEMA) as [[]|e0]; [done|].
      injection Herror as ->. by intros w Hw.
    + injection Herror as ->. by intros w Hw.
  - by intros w a [_ ?].
  - intros w e' [_ [= ->]] Hp. congruence.
  - intros e' _ w [Hw [= ->]]. exact (Hreask w Hw).
Qed.


(** From a request number on, the backend refuses every connection. *)
Lemma call_llm_stream_refused N prompt token_callback :
  (∀ n p, (N ≤ n)%nat → ∃ e, backend n p = ConnectionFailed e) →
  hoare (λ w, quiet w ∧ (N ≤ length (requests w))%nat)
    (_call_llm_stream prompt token_callback)
    (λ w r, (quiet w ∧ (N ≤ length (requests w))%nat) ∧ ∃ e, r = Raise e).
Proof.
  intros Hrefused w [Hq HN]. unfold _call_llm_stream.
  destruct (Hrefused (length (requests w)) prompt HN) as [e ->]. simpl.
  split; [|by eexists]. split; [by eapply quiet_subscribers; [|exact Hq]|].
  rewrite length_app. simpl. by apply Nat.le_trans with (length (requests w)), Nat.le_add_r.
Qed.

Lemma try_call_llm_refused N attempts last_error prompt token_callback :
  (∀ n p, (N ≤ n)%nat → ∃ e, backend n p = ConnectionFailed e) →
  hoare (λ w, quiet w ∧ (N ≤ length (requests w))%nat)
    (try_call_llm_from self attempts last_error prompt token_callback)
    (λ w r, (quiet w ∧ (N ≤ length (requests w))%nat) ∧ ∃ e, r = Raise e).
Proof.
  intros Hrefused. revert last_error.
  induction attempts as [|attempts IH]; intros last_error w Hw; simpl.
  - split; [done | by eexists].
  - destruct (call_llm_stream_refused N prompt token_callback Hrefused w Hw)
      as [Hw' [e He]].
    destruct (_call_llm_stream prompt token_callback w) as [w' r]. simpl in *. subst r.
    by apply IH.
Qed.

Lemma emit_debug_quiet event_name data :
  hoare quiet (emit_debug self event_name data) (λ w r, quiet w ∧ r = Ok ()).
Proof.
  intros w Hq.
  destruct (emit_debug_at (requests w) event_name data w (conj Hq eq_refl)) as [[? _] ?].
  done.
Qed.

Lemma reask_refused N input raw e :
  (∀ n p, (N ≤ n)%nat → ∃ e, backend n p = ConnectionFailed e) →
  hoare (λ w, quiet w ∧ (N ≤ length (requests w))%nat) (reask self input raw e)
    (λ w r, ∃ inner_e, r = Ok (final_fallback_parsed e inner_e raw)).
Proof.
  intros Hrefused. unfold reask.
  eapply hoare_try_except with (R := λ w r, quiet w ∧ ∃ e, r = Raise e).
  - eapply hoare_bind; [by apply try_call_llm_refused | |].
    + by intros text w [_ [e' ?]].
    + intros w e' [[Hq _] _]. split; [done | by eexists].
  - by intros w a [_ [e' ?]].
  - intros inner_e. eapply hoare_pre; [by intros w [Hq _]; exact Hq|].
    eapply hoare_step; [apply emit_debug_quiet|].
    apply hoare_ret. intros w _. by eexists.
Qed.

End LadderFacts.

Lemma quiet_without_subscribers w : subscribers w = ∅ → quiet w.
Proof.
  intros Hs event_name data. unfold EventBus.subscribed.
  rewrite Hs, lookup_empty. apply Forall_nil_2.
Qed.



(** The envelope that passes the raw text on is what [think] returns
    when the first answer fails the parse and the corrective call
    itself fails: here the backend refuses every later connection. *)
Lemma think_passes_raw_text_when_reask_fails `{env : Env}
    (self : LLMReasoner) (input : string) (tm : ToolManager) (bus : bool) (w : World)
    (raw : string) (e : exn) :
  quiet w →
  (0 < retries self)%nat →
  replies_with (length (requests w)) (prompt_for input (get_all_tools tm) (memory w)) raw →
  envelope_error raw = Some e →
  (∀ n p, (S (length (requests w)) ≤ n)%nat → ∃ e', backend n p = ConnectionFailed e') →
  ∃ w' inner_e,
    think self input (Some tm) bus w = (w', Ok (final_fallback_parsed e inner_e raw)) ∧
    response_text (final_fallback_parsed e inner_e raw)
      = Some ("Raw LLM output from initial attempt: " +:+ PyStr.strip raw).
Proof.
  intros Hquiet Hpos Hraw Herror Hrefused.
  pose proof (think_reaches_reask self (requests w) input tm bus raw e
                (λ w r, ∃ inner_e, r = Ok (final_fallback_parsed e inner_e raw))
                Hpos Hraw Herror) as Hthink.
  destruct (Hthink) with (w := w) as [inner_e Hr]; [|done|].
  - eapply hoare_pre; [|eapply hoare_post;
                         [apply (reask_refused self (S (length (requests w))) input raw e Hrefused)|]].
    + intros w1 [Hq Hsent]. split; [done|].
      rewrite Hsent, length_app. simpl. by rewrite Nat.add_1_r.
    + intros w1 r [inner_e ->]. split; by eexists.
  - destruct (think self input (Some tm) bus w) as [w' r]. simpl in Hr. subst r.
    by exists w', inner_e.
Qed.

(** ** The field completer *)

Section CompleterFacts.
Context `{env : Env}.
Variable reasoner : Reasoner.

Lemma try_except_returns {A} (c : M A) (fallback : A) w :
  ∃ a, (try_except c (λ _, mret fallback) w).2 = Ok a.
Proof. unfold try_except. destruct (c w) as [w' [a|e]]; by eexists. Qed.

Lemma lift_bind_ok {A B} (a : A) (k : A → M B) w :
  (lift_result (Ok a) ≫= k) w = k a w.
Proof. reflexivity. Qed.

Lemma json_get_object fields key fallback :
  json_get (JObj fields) key fallback = Ok (default fallback (dict_get key fields)).
Proof. reflexivity. Qed.

Lemma fill_single_field_returns tool_name field user_input config
    field_prompts schema current_input w :
  default (JObj []) (dict_get "field_prompts" config) = JObj field_prompts →
  ∃ v, (_fill_single_field reasoner tool_name field (JObj schema) user_input (JObj config)
          current_input w).2 = Ok v.
Proof.
  intros Hprompts. unfold _fill_single_field.
  rewrite (json_get_object config), Hprompts, lift_bind_ok.
  rewrite (json_get_object field_prompts), lift_bind_ok.
  rewrite !(json_get_object schema), !lift_bind_ok.
  apply try_except_returns.
Qed.

Lemma schema_of_example_properties example field :
  ∃ schema,
    default (JObj [])
      (dict_get field
         ((λ kv : string * json, (kv.1, JObj [("type", JStr (infer_type kv.2))])) <$> example))
    = JObj schema.
Proof.
  induction example as [|[k v] example IH]; simpl; [by eexists|].
  destruct (String.eqb field k); [by eexists | exact IH].
Qed.

Lemma field_schema_of_object tool field : ∃ schema, field_schema_of tool field = JObj schema.
Proof.
  unfold field_schema_of, example_schema.
  destruct (parsed_example tool) as [[| | | | | |example]|]; simpl; try by eexists.
  apply schema_of_example_properties.
Qed.

(** The loop over the missing fields, when the properties are those of
    the tool's schema: it returns, and a field that cannot be resolved
    keeps what the input had for it. *)
Lemma fill_fields_keeps_unresolved tool_name tool user_input x missing_fields :
  config_ok tool_name →
  cannot_resolve reasoner tool_name tool user_input x →
  ∀ filled_input w,
  ∃ w' filled,
    fill_fields reasoner tool_name
      (JObj (fields_of (default (JObj []) (dict_get "properties" (fields_of (example_schema tool))))))
      user_input (get_tool_prompt tool_name) missing_fields filled_input w
    = (w', Ok filled) ∧
    dict_get x filled = dict_get x filled_input.
Proof.
  intros (config & field_prompts & Hconfig & Hprompts) Hx.
  induction missing_fields as [|field rest IH]; intros filled_input w; simpl.
  { by exists w, filled_input. }
  rewrite lift_bind_ok.
  fold (field_schema_of tool field).
  rewrite run_bind.
  destruct (field_schema_of_object tool field) as [schema Hschema].
  pose proof (fill_single_field_returns tool_name field
                user_input config field_prompts schema filled_input w Hprompts) as [v Hv].
  rewrite <- Hconfig, <- Hschema in Hv.
  destruct (_fill_single_field reasoner tool_name field (field_schema_of tool field)
              user_input (get_tool_prompt tool_name) filled_input w) as [w1 r] eqn:E.
  simpl in Hv. subst r.
  destruct (decide (field = x)) as [->|Hne].
  - pose proof (Hx filled_input w) as Hnone. rewrite E in Hnone. simpl in Hnone.
    injection Hnone as ->. apply IH.
  - destruct (IH match v with
                 | JNull => filled_input
                 | _ => dict_set field v filled_input
                 end w1) as (w' & filled & Hrun & Hget).
    exists w', filled. split; [exact Hrun|]. rewrite Hget.
    destruct v; try done; by apply dict_get_set_ne.
Qed.


Lemma properties_object tool :
  default (JObj []) (dict_get "properties" (fields_of (example_schema tool)))
  = JObj (fields_of (default (JObj []) (dict_get "properties" (fields_of (example_schema tool))))).
Proof.
  unfold example_schema.
  by destruct (parsed_example tool) as [[| | | | | |example]|].
Qed.

Lemma required_fields_example tool x :
  x ∈ required_fields tool →
  ∃ example, example_schema tool = schema_of_example example ∧
             required_fields tool = dict_keys example.
Proof.
  unfold required_fields, example_schema.
  destruct (parsed_example tool) as [[| | | | | |example]|];
    try (by intros ?%elem_of_nil).
  intros _. exists example. split; [done|].
  change (json_strings (JArr (JStr <$> dict_keys example)) = dict_keys example).
  apply json_strings_JStr.
Qed.

Lemma best_match_root e rest : ve_path e = [] → best_match (e :: rest) = Some e.
Proof.
  intros Hpath. simpl. destruct (best_match rest) as [e'|]; [|done].
  by rewrite Hpath.
Qed.

Lemma validate_input_missing tool_name tool tm filled y others :
  dict_get tool_name (_tools tm) = Some tool →
  absent_fields tool filled = y :: others →
  validate_input (JStr tool_name) (JObj filled) tm = (false, required_message y).
Proof.
  intros Htool Habsent. unfold validate_input. simpl. rewrite Htool.
  destruct (required_fields_example tool y) as (example & Hschema & Hrequired).
  { apply list_elem_of_In.
    assert (In y (absent_fields tool filled)) as Hin by (rewrite Habsent; by left).
    unfold absent_fields in Hin. by apply filter_In in Hin as [? _]. }
  unfold absent_fields in Habsent. rewrite Hrequired in Habsent.
  unfold schema_for_validation. rewrite Hschema. unfold schema_of_example at 1.
  change (dict_mem "properties" _) with true. cbv iota.
  unfold validate. rewrite iter_errors_unfold, !fmap_cons, fmap_nil.
  rewrite keyword_type, keyword_required.
  unfold required_errors. rewrite json_strings_JStr, Habsent.
  change (type_errors (JStr "object") (JObj filled)) with (@nil verror).
  rewrite fmap_cons. simpl concat.
  by rewrite best_match_root.
Qed.

(** A required field that the completer cannot resolve has in the
    filled input what the partial input had for it: nothing when it was
    absent, its falsy value when it was present. *)
Lemma fill_keeps_unresolved tool_name tool tm tool_input user_input x w :
  dict_get tool_name (_tools tm) = Some tool →
  config_ok tool_name →
  cannot_resolve reasoner tool_name tool user_input x →
  ∃ w' filled,
    fill_missing_fields reasoner tool_name tool_input user_input tm w = (w', Ok filled) ∧
    dict_get x filled = dict_get x tool_input.
Proof.
  intros Htool Hconfig Hx. unfold fill_missing_fields. rewrite Htool.
  destruct (List.filter (is_missing tool_input) (required_fields tool)) as [|field rest].
  { by exists w, tool_input. }
  rewrite properties_object.
  by apply fill_fields_keeps_unresolved.
Qed.

End CompleterFacts.

(** C3, amended. A required field of the tool's schema that is missing
    or falsy in the partial input and that the completer cannot resolve
    is left by [fill_missing_fields] as the partial input had it: absent
    when it was absent, never set to an empty value, and with its falsy
    value when it was present.  When it is absent, the validation of the
    filled input fails with a required-property error: the field is
    among the required fields found absent, and the message names the
    first of them. *)
Theorem unresolved_field_is_left_as_it_was `{env : Env}
    (reasoner : Reasoner) (tool_name : string) (tool : Tool) (tm : ToolManager)
    (tool_input : list (string * json)) (user_input x : string) (w : World) :
  dict_get tool_name (_tools tm) = Some tool →
  config_ok tool_name →
  x ∈ required_fields tool →
  is_missing tool_input x = true →
  cannot_resolve reasoner tool_name tool user_input x →
  ∃ w' filled,
    fill_missing_fields reasoner tool_name tool_input user_input tm w = (w', Ok filled) ∧
    dict_get x filled = dict_get x tool_input ∧
    (dict_get x tool_input = None →
     ∃ y others,
       absent_fields tool filled = y :: others ∧
       x ∈ y :: others ∧
       validate_input (JStr tool_name) (JObj filled) tm = (false, required_message y)).
Proof.
  intros Htool Hconfig Hrequired _ Hx.
  destruct (fill_keeps_unresolved reasoner tool_name tool tm tool_input user_input x w
              Htool Hconfig Hx) as (w' & filled & Hrun & Hget).
  exists w', filled. split; [done|]. split; [done|].
  intros Habsent. rewrite Habsent in Hget.
  assert (In x (absent_fields tool filled)) as Hin.
  { unfold absent_fields. apply filter_In. split; [by apply list_elem_of_In|].
    unfold dict_mem. by rewrite Hget. }
  destruct (absent_fields tool filled) as [|y others] eqn:Hfields; [done|].
  exists y, others. split; [done|]. split; [by apply list_elem_of_In|].
  by eapply validate_input_missing.
Qed.

Lemma unresolved_field_is_left_as_it_was_witness :
  let text := "{" +:+ quoted "x" +:+ ": " +:+ quoted "hello" +:+ "}" in
  let env := Sample.runtime [(text, JObj [("x", JStr "hello")])] Sample.unreachable in
  let tool := {| name := "echo"; description := "Says it back.";
                 example_usage := Some text; input_schema := None;
                 run := λ _, Ok "done" |} in
  let tm := {| _tools := [("echo", tool)]; event_bus := false |} in
  let failing : Reasoner := λ _ _ _, raise (Exn RuntimeError "backend down") in
  ∃ w' filled,
    fill_missing_fields failing "echo" [] "say it" tm (Sample.world ∅) = (w', Ok filled) ∧
    dict_get "x" filled = dict_get "x" [] ∧
    (dict_get "x" (@nil (string * json)) = None →
     ∃ y others,
       absent_fields tool filled = y :: others ∧
       "x" ∈ y :: others ∧
       validate_input (JStr "echo") (JObj filled) tm = (false, required_message y)).
Proof.
  intros text env tool tm failing.
  apply (unresolved_field_is_left_as_it_was failing "echo" tool tm [] "say it" "x"
           (Sample.world ∅)).
  - reflexivity.
  - exists [], []. split; reflexivity.
  - vm_compute. apply list_elem_of_here.
  - reflexivity.
  - intros current_input w. reflexivity.
Defined.

(** C3 as stated fails for a field that is present but falsy: the tool
    requires [x], the partial input has [x] as the empty string, the
    completer cannot resolve it; the filled input still has [x], with
    its empty value, and the validation passes. *)
Lemma falsy_field_is_kept_and_passes_validation :
  let text := "{" +:+ quoted "x" +:+ ": " +:+ quoted "hello" +:+ "}" in
  let env := Sample.runtime [(text, JObj [("x", JStr "hello")])] Sample.unreachable in
  let tool := {| name := "echo"; description := "Says it back.";
                 example_usage := Some text; input_schema := None;
                 run := λ _, Ok "done" |} in
  let tm := {| _tools := [("echo", tool)]; event_bus := false |} in
  let failing : Reasoner := λ _ _ _, raise (Exn RuntimeError "backend down") in
  let tool_input := [("x", JStr "")] in
  required_fields tool = ["x"] ∧
  is_missing tool_input "x" = true ∧
  cannot_resolve failing "echo" tool "say it" "x" ∧
  (fill_missing_fields failing "echo" tool_input "say it" tm (Sample.world ∅)).2
    = Ok [("x", JStr "")] ∧
  validate_input (JStr "echo") (JObj [("x", JStr "")]) tm = (true, "").
Proof.
  intros text env tool tm failing tool_input.
  split; [vm_compute; reflexivity|]. split; [reflexivity|].
  split; [intros current_input w; reflexivity|].
  split; vm_compute; reflexivity.
Qed.
(** ** The orchestration loop *)

Section KernelFacts.
Context `{env : Env}.
Variable self : AgentKernel.

Lemma emit_kept o m t event_name data :
  hoare (kept o m t) (EventBus.emit event_name data) (λ w r, kept o m t w ∧ r = Ok ()).
Proof.
  intros w (Hq & Ho & Hm & Ht).
  destruct (emit_quiet event_name data w Hq) as [Hr Hq'].
  destruct (emit_frame event_name data w) as (_ & _ & Hm' & Ho' & Ht' & _).
  split; [|done]. repeat split; [done|congruence..].
Qed.

Lemma when_emit_kept o m t (b : bool) event_name data :
  hoare (kept o m t) (when b (EventBus.emit event_name data))
    (λ w r, kept o m t w ∧ r = Ok ()).
Proof. destruct b; [apply emit_kept | by intros w Hw]. Qed.

Lemma output_kept o m t message :
  hoare (kept o m t) (output message) (λ w r, kept (o ++ [message]) m t w ∧ r = Ok ()).
Proof.
  intros w (Hq & Ho & Hm & Ht). split; [|done].
  repeat split; simpl; [by eapply quiet_subscribers; [|exact Hq] | congruence..].
Qed.

Lemma memory_save_kept o m t r c md :
  hoare (kept o m t) (memory_save r c md)
    (λ w res, kept o (save_entry r c (JObj md) m) t w ∧ res = Ok ()).
Proof.
  intros w (Hq & Ho & Hm & Ht). split; [|done].
  repeat split; simpl; [by eapply quiet_subscribers; [|exact Hq] | congruence..].
Qed.

Lemma save_context_kept o m t key value category :
  hoare (kept o m t) (save_context key value category)
    (λ w res, kept o (save_context_entry key value category m) t w ∧ res = Ok ()).
Proof.
  intros w (Hq & Ho & Hm & Ht). split; [|done].
  repeat split; simpl; [by eapply quiet_subscribers; [|exact Hq] | congruence..].
Qed.

Lemma save_learned_kept o t learnable_info :
  ∀ m, hoare (kept o m t) (save_learned learnable_info)
         (λ w res, kept o (learned learnable_info m) t w ∧ res = Ok ()).
Proof.
  induction learnable_info as [|[info_type info_value] rest IH]; intros m; simpl.
  - by intros w Hw.
  - eapply hoare_step; [apply save_context_kept | apply IH].
Qed.

Lemma learned_history learnable_info m :
  conversation_history (learned learnable_info m) = conversation_history m ∧
  limit (learned learnable_info m) = limit m.
Proof.
  revert m. induction learnable_info as [|kv rest IH]; intros m; simpl; [done|].
  destruct (IH (save_context_entry ("learned_" +:+ kv.1) kv.2 "learned_facts" m)) as [-> ->].
  done.
Qed.

(** The loop body up to the call of the reasoner. *)
Lemma turn_body_reasoned user_input w w2 envelope :
  quiet w →
  reasoner self
    (_prepare_reasoning_prompt user_input (memory (before_reasoning user_input w)))
    (Some (tools self)) true (before_reasoning user_input w) = (w2, Ok envelope) →
  turn_body self user_input w =
  (when (negb (debug self)) (EventBus.emit "on_thought" (JObj envelope));;
   dispatch self user_input envelope) w2.
Proof.
  intros Hq Hreason. unfold turn_body.
  rewrite (bind_ok _ _ w (EventBus.emit "on_input" (JObj [("input", JStr user_input)]) w).1 ()).
  2:{ destruct (emit_quiet "on_input" (JObj [("input", JStr user_input)]) w Hq) as [Hr _].
      destruct (EventBus.emit "on_input" _ w) as [w1 r]. simpl in *. by subst. }
  rewrite (bind_ok _ _ _ (before_reasoning user_input w) ()) by reflexivity.
  rewrite (bind_ok _ _ _ (before_reasoning user_input w)
             (_prepare_reasoning_prompt user_input (memory (before_reasoning user_input w))))
    by reflexivity.
  by rewrite (bind_ok _ _ _ w2 envelope).
Qed.

Lemma dispatch_chat user_input envelope tool_input R o m t :
  dict_get "tool_name" envelope = Some (JStr "chat") →
  dict_get "tool_input" envelope = Some (JObj tool_input) →
  dict_get "response" tool_input = Some (JStr R) →
  hoare (kept o m t) (dispatch self user_input envelope)
    (λ w r,
       r = Ok () ∧
       kept (o ++ [JStr R])
            (learned (extract_learnable_info user_input)
               (save_entry "agent" (JStr R)
                  (JObj [("type", JStr "chat_response");
                         ("response_length", JInt (Z.of_nat (String.length R)))]) m))
            t w).
Proof.
  intros Hname Hinput Hresponse. unfold dispatch. rewrite Hname, Hinput.
  apply hoare_ret_bind.
  eapply hoare_step; [apply when_emit_kept|].
  unfold dict_mem. rewrite Hresponse.
  change (py_eq (default JNull (Some (JStr "chat"))) (JStr "chat") && true) with true.
  cbv iota. unfold chat_reply. rewrite Hresponse. cbn [from_option id].
  eapply hoare_step; [apply output_kept|].
  eapply hoare_step.
  { unfold _save_conversation_with_learning. cbn [py_len].
    apply hoare_ret_bind.
    eapply hoare_step; [apply memory_save_kept | apply save_learned_kept]. }
  destruct (debug self).
  - eapply hoare_post; [apply emit_kept|]. by intros w r [? ?].
  - eapply hoare_post; [apply emit_kept|]. by intros w r [? ?].
Qed.


End KernelFacts.

Lemma quiet_before_reasoning user_input w : quiet w → quiet (before_reasoning user_input w).
Proof.
  intros Hq. unfold before_reasoning.
  eapply quiet_subscribers;
    [|exact (proj2 (emit_quiet "on_input" (JObj [("input", JStr user_input)]) w Hq))].
  done.
Qed.

Lemma run_next `{env : Env} (self : AgentKernel) user_input rest w w' :
  run_turn self user_input w = (w', Ok ()) →
  AgentKernel_run self (user_input :: rest) w = AgentKernel_run self rest w'.
Proof. intros H. simpl. by rewrite (bind_ok _ _ _ _ _ H). Qed.

(** C5. In a turn whose reasoning envelope is the chat envelope with
    the response [R], the loop outputs [R] and nothing else, appends to
    the conversation history one entry with role [agent] and content [R]
    (the store then evicts the oldest entries beyond its limit),
    executes no tool, and goes on to the next turn.  The subscribers of
    the event bus are taken to return normally. *)
Theorem chat_turn_outputs_and_persists_response `{env : Env}
    (self : AgentKernel) (user_input : string) (envelope tool_input : list (string * json))
    (R : string) (w w2 : World) :
  quiet w →
  reasoner self
    (_prepare_reasoning_prompt user_input (memory (before_reasoning user_input w)))
    (Some (tools self)) true (before_reasoning user_input w) = (w2, Ok envelope) →
  quiet w2 →
  dict_get "tool_name" envelope = Some (JStr "chat") →
  dict_get "tool_input" envelope = Some (JObj tool_input) →
  dict_get "response" tool_input = Some (JStr R) →
  ∃ w' entry,
    run_turn self user_input w = (w', Ok ()) ∧
    outputs w' = outputs w2 ++ [JStr R] ∧
    role entry = "agent" ∧ content entry = JStr R ∧
    conversation_history (memory w') =
      (let h := conversation_history (memory w2) ++ [entry] in
       if (limit (memory w2) <? length h)%nat then tail_slice (limit (memory w2)) h else h) ∧
    tool_runs w' = tool_runs w2 ∧
    ∀ rest, AgentKernel_run self (user_input :: rest) w = AgentKernel_run self rest w'.
Proof.
  intros Hq Hreason Hq2 Hname Hinput Hresponse.
  assert (hoare (kept (outputs w2) (memory w2) (tool_runs w2))
            (when (negb (debug self)) (EventBus.emit "on_thought" (JObj envelope));;
             dispatch self user_input envelope)
            (λ w r,
               r = Ok () ∧
               kept (outputs w2 ++ [JStr R])
                    (learned (extract_learnable_info user_input)
                       (save_entry "agent" (JStr R)
                          (JObj [("type", JStr "chat_response");
                                 ("response_length", JInt (Z.of_nat (String.length R)))])
                          (memory w2)))
                    (tool_runs w2) w)) as Hrest.
  { eapply hoare_step; [apply when_emit_kept | by eapply dispatch_chat]. }
  specialize (Hrest w2 (conj Hq2 (conj eq_refl (conj eq_refl eq_refl)))).
  rewrite <- (turn_body_reasoned self user_input w w2 envelope Hq Hreason) in Hrest.
  destruct (turn_body self user_input w) as [w' r] eqn:Hbody. simpl in Hrest.
  destruct Hrest as (-> & _ & Ho & Hm & Ht).
  assert (run_turn self user_input w = (w', Ok ())) as Hturn
    by (unfold run_turn, try_except; by rewrite Hbody).
  exists w', {| role := "agent"; content := JStr R;
                metadata := JObj [("type", JStr "chat_response");
                                  ("response_length", JInt (Z.of_nat (String.length R)))] |}.
  split; [done|]. split; [done|]. split; [done|]. split; [done|].
  split; [|split; [done|]].
  - rewrite Hm. by destruct (learned_history (extract_learnable_info user_input)
                               (save_entry "agent" (JStr R)
                                  (JObj [("type", JStr "chat_response");
                                         ("response_length", JInt (Z.of_nat (String.length R)))])
                                  (memory w2))) as [-> _].
  - intros rest. by apply run_next.
Qed.

Lemma chat_turn_outputs_and_persists_response_witness :
  let env := Sample.runtime [] Sample.unreachable in
  let stub : Reasoner := λ _ _ _,
    mret [("thoughts", JStr "a greeting"); ("tool_name", JStr "chat");
          ("tool_input", JObj [("response", JStr "Hello")])] in
  let self := {| reasoner := stub;
                 tools := {| _tools := [("chat", Sample.chat_tool)]; event_bus := false |};
                 debug := false |} in
  let w := Sample.world ∅ in
  let w2 := before_reasoning "hi" w in
  ∃ w' entry,
    run_turn self "hi" w = (w', Ok ()) ∧
    outputs w' = outputs w2 ++ [JStr "Hello"] ∧
    role entry = "agent" ∧ content entry = JStr "Hello" ∧
    conversation_history (memory w') =
      (let h := conversation_history (memory w2) ++ [entry] in
       if (limit (memory w2) <? length h)%nat then tail_slice (limit (memory w2)) h else h) ∧
    tool_runs w' = tool_runs w2 ∧
    ∀ rest, AgentKernel_run self ("hi" :: rest) w = AgentKernel_run self rest w'.
Proof.
  intros env stub self w w2.
  apply (chat_turn_outputs_and_persists_response self "hi"
           [("thoughts", JStr "a greeting"); ("tool_name", JStr "chat");
            ("tool_input", JObj [("response", JStr "Hello")])]
           [("response", JStr "Hello")] "Hello" w w2).
  - by apply quiet_without_subscribers.
  - reflexivity.
  - by apply quiet_before_reasoning, quiet_without_subscribers.
  - reflexivity.
  - reflexivity.
  - reflexivity.
Defined.



(** ** The event bus at work *)

Lemma emit_calls_subscribers_in_order_witness :
  let first := {| cb_id := 1; cb_body := λ _, None |} in
  let second := {| cb_id := 2; cb_body := λ _, Some (Exn OtherError "boom") |} in
  let third := {| cb_id := 3; cb_body := λ _, None |} in
  let w := Sample.world
             (EventBus.subscribe "e" third
                (EventBus.subscribe "e" second (EventBus.subscribe "e" first ∅))) in
  let after := EventBus.emit "e" (JStr "payload") w in
  after.2 = Raise (Exn OtherError "boom") ∧
  deliveries after.1 = [(1, JStr "payload"); (2, JStr "payload")].
Proof.
  intros first second third w after.
  destruct (emit_calls_subscribers_in_order "e" (JStr "payload") w) as (_ & _ & Hraise & _).
  apply (Hraise [first] second [third] (Exn OtherError "boom")).
  - vm_compute. reflexivity.
  - apply Forall_cons. split; [reflexivity | apply Forall_nil_2].
  - reflexivity.
Defined.

(** ** Further properties of the event bus and the registry *)

Section DictDelFacts.
Context {A : Type}.
Implicit Types d : list (string * A).

Lemma dict_get_del_ne k k' d :
  k ≠ k' → dict_get k' (dict_del k d) = dict_get k' d.
Proof.
  intros Hne. induction d as [|[k0 v0] d IH]; simpl; [done|].
  destruct (String.eqb_spec k k0) as [->|Hk].
  - destruct (String.eqb_spec k' k0) as [->|]; [done|done].
  - simpl. by rewrite IH.
Qed.

Lemma dict_get_del_eq k d :
  NoDup (dict_keys d) → dict_get k (dict_del k d) = None.
Proof.
  unfold dict_keys. induction d as [|[k0 v0] d IH]; simpl; [done|].
  intros [Hk0 Hd]%NoDup_cons.
  destruct (String.eqb_spec k k0) as [->|Hk].
  - by apply dict_get_None_keys.
  - simpl. destruct (String.eqb_spec k k0); [done|]. by apply IH.
Qed.

Lemma dict_del_set_new k v d :
  dict_get k d = None → dict_del k (dict_set k v d) = d.
Proof.
  induction d as [|[k0 v0] d IH]; simpl.
  - by rewrite String.eqb_refl.
  - destruct (String.eqb_spec k k0) as [->|Hk]; [done|].
    intros Hd. simpl. destruct (String.eqb_spec k k0); [done|]. by rewrite IH.
Qed.

Lemma dict_mem_true k d : dict_mem k d = true ↔ is_Some (dict_get k d).
Proof. unfold dict_mem. destruct (dict_get k d); split; (done || by intros []). Qed.

Lemma dict_mem_false k d : dict_mem k d = false ↔ dict_get k d = None.
Proof. unfold dict_mem. by destruct (dict_get k d). Qed.

End DictDelFacts.

(** X1. [emit] delivers and does nothing else: the callbacks it calls are
    subscribers of the emitted event, taken in subscription order from
    the first one on, each called with the payload given; afterwards
    every event has the subscribers it had (the key a [defaultdict]
    creates for an unknown event cannot be told from an absent one), and
    nothing else of the world has changed. *)
Theorem emit_only_delivers (event_name : string) (data : json) (w : World) :
  let w' := (EventBus.emit event_name data w).1 in
  (∀ other, EventBus.subscribed other (subscribers w') = EventBus.subscribed other (subscribers w)) ∧
  (∃ calls, deliveries w' = deliveries w ++ calls ∧
            calls.*1 `prefix_of` cb_id <$> EventBus.subscribed event_name (subscribers w) ∧
            Forall (λ call, call.2 = data) calls) ∧
  requests w' = requests w ∧ transcript w' = transcript w ∧ memory w' = memory w ∧
  outputs w' = outputs w ∧ tool_runs w' = tool_runs w ∧ reasoner_bus w' = reasoner_bus w.
Proof.
  simpl. rewrite EventBusFacts.emit_unfold. simpl. split; [|split]; [| |done].
  - intros other. apply EventBusFacts.subscribed_getitem.
  - eexists. split; [done|].
    generalize (EventBus.subscribed event_name (subscribers w)).
    intros l. induction l as [|cb l [IH1 IH2]]; simpl; [split; [done|constructor]|].
    destruct (cb_body cb data); simpl.
    + split; [|by repeat constructor]. apply prefix_cons, prefix_nil.
    + destruct (EventBus.call_all l data) as [calls r]. simpl in *. split.
      * by apply prefix_cons.
      * by constructor.
Qed.

Section RegistryMoreFacts.
Context `{env : Env}.

Lemma register_tool_ok tool tm w tm' w' :
  register_tool tool tm w = (tm', w', Ok ()) →
  dict_get (name tool) (_tools tm) = None ∧
  tm' = {| _tools := _tools tm ++ [(name tool, tool)]; event_bus := event_bus tm |} ∧
  (event_bus tm = false → w' = w).
Proof.
  unfold register_tool.
  destruct (_ || _ || _); [done|].
  destruct (dict_mem (name tool) (_tools tm)) eqn:Hmem; [done|].
  apply dict_mem_false in Hmem. rewrite (dict_set_new _ _ _ Hmem).
  destruct (event_bus tm).
  - destruct (input_schema tool); [|done].
    destruct (EventBus.emit _ _ w) as [w1 r]. intros [= <- <- ->]. done.
  - intros [= <- <-]. done.
Qed.

Lemma dict_get_app_new {A} k (v : A) d :
  dict_get k d = None → dict_get k (d ++ [(k, v)]) = Some v.
Proof. intros H. rewrite <- (dict_set_new _ _ _ H). apply dict_get_set_eq. Qed.

Lemma dict_get_app_other {A} k k' (v : A) d :
  k ≠ k' → dict_get k' (d ++ [(k, v)]) = dict_get k' d.
Proof.
  intros Hne. induction d as [|[k0 v0] d IH]; simpl.
  - destruct (String.eqb_spec k' k); [by subst|done].
  - by rewrite IH.
Qed.

End RegistryMoreFacts.

(** X2. Once a tool is registered, its name is taken: registering any
    tool under the same name is refused with a [ValueError], and the
    refused call changes neither the registry nor the world. *)
Theorem registered_name_is_taken `{env : Env}
    (tool : Tool) (tm tm' : ToolManager) (w w' : World) :
  register_tool tool tm w = (tm', w', Ok ()) →
  ∀ again w2, name again = name tool →
    ∃ msg, register_tool again tm' w2 = (tm', w2, Raise (Exn ValueError msg)).
Proof.
  intros (Hnew & -> & _)%register_tool_ok again w2 Hname.
  apply register_tool_guards. right. simpl.
  apply dict_mem_true. rewrite Hname, (dict_get_app_new _ _ _ Hnew). by eexists.
Qed.

Lemma registered_name_is_taken_witness :
  let env := Sample.runtime [] Sample.unreachable in
  let tm' := {| _tools := [("chat", Sample.chat_tool)]; event_bus := false |} in
  ∃ msg, register_tool Sample.chat_tool tm' (Sample.world ∅)
         = (tm', Sample.world ∅, Raise (Exn ValueError msg)).
Proof.
  intros env tm'.
  apply (registered_name_is_taken Sample.chat_tool {| _tools := []; event_bus := false |} tm'
           (Sample.world ∅) (Sample.world ∅)); reflexivity.
Defined.

(** X3. A registration that succeeds can be read back: the tool is found
    under its name, it is the last of [get_all_tools], and the tools
    registered before are found as before. *)
Theorem registered_tool_is_found `{env : Env}
    (tool : Tool) (tm tm' : ToolManager) (w w' : World) :
  register_tool tool tm w = (tm', w', Ok ()) →
  get_tool_by_name (JStr (name tool)) tm' = Ok (Some tool) ∧
  tool_exists (name tool) tm' = true ∧
  get_all_tools tm' = get_all_tools tm ++ [tool] ∧
  ∀ other, other ≠ name tool →
    get_tool_by_name (JStr other) tm' = get_tool_by_name (JStr other) tm.
Proof.
  intros (Hnew & -> & _)%register_tool_ok. simpl. repeat split.
  - by rewrite (dict_get_app_new _ _ _ Hnew).
  - apply dict_mem_true. simpl. rewrite (dict_get_app_new _ _ _ Hnew). by eexists.
  - unfold get_all_tools, dict_values. simpl. by rewrite fmap_app.
  - intros other Hne. by rewrite dict_get_app_other.
Qed.

Lemma registered_tool_is_found_witness :
  let env := Sample.runtime [] Sample.unreachable in
  let tm := {| _tools := []; event_bus := false |} in
  let tm' := {| _tools := [("chat", Sample.chat_tool)]; event_bus := false |} in
  get_tool_by_name (JStr "chat") tm' = Ok (Some Sample.chat_tool) ∧
  tool_exists "chat" tm' = true ∧
  get_all_tools tm' = get_all_tools tm ++ [Sample.chat_tool] ∧
  ∀ other, other ≠ "chat" →
    get_tool_by_name (JStr other) tm' = get_tool_by_name (JStr other) tm.
Proof.
  intros env tm tm'.
  apply (registered_tool_is_found Sample.chat_tool tm tm' (Sample.world ∅) (Sample.world ∅)).
  reflexivity.
Defined.

(** X4. [unregister_tool] removes the named tool and no other: afterwards
    the name is not registered and every other name is found as before.
    It answers [False], changing nothing and emitting nothing, exactly
    when the name was not registered. *)
Theorem unregister_removes_only_that_tool `{env : Env}
    (tool_name : string) (tm : ToolManager) (w : World) :
  NoDup (dict_keys (_tools tm)) →
  let out := unregister_tool tool_name tm w in
  tool_exists tool_name out.1.1 = false ∧
  (∀ other, other ≠ tool_name →
     get_tool_by_name (JStr other) out.1.1 = get_tool_by_name (JStr other) tm) ∧
  (tool_exists tool_name tm = false ↔ out.2 = Ok false) ∧
  (tool_exists tool_name tm = false → out.1 = (tm, w)) ∧
  (tool_exists tool_name tm = true → event_bus tm = false →
     out.1.2 = w ∧ out.2 = Ok true).
Proof.
  intros Hkeys. unfold unregister_tool, tool_exists.
  destruct (dict_mem tool_name (_tools tm)) eqn:Hmem.
  - assert (∀ w' r, let out : ToolManager * World * result bool :=
              ({| _tools := dict_del tool_name (_tools tm); event_bus := event_bus tm |}, w', r) in
              dict_mem tool_name (_tools out.1.1) = false ∧
              (∀ other, other ≠ tool_name →
                 get_tool_by_name (JStr other) out.1.1 = get_tool_by_name (JStr other) tm))
      as Hdel.
    { intros w' r. simpl. split.
      - apply dict_mem_false. by apply dict_get_del_eq.
      - intros other Hne. by rewrite dict_get_del_ne. }
    destruct (event_bus tm).
    + destruct (EventBus.emit _ _ w) as [w1 r]. simpl.
      destruct (Hdel w1 (Ok true)) as [H1 H2]. simpl in *.
      repeat split; try done. by destruct r.
    + simpl. destruct (Hdel w (Ok true)) as [H1 H2]. simpl in *. by repeat split.
  - simpl. by repeat split.
Qed.

Lemma unregister_removes_only_that_tool_witness :
  let env := Sample.runtime [] Sample.unreachable in
  let tm := {| _tools := [("chat", Sample.chat_tool)]; event_bus := false |} in
  let out := unregister_tool "chat" tm (Sample.world ∅) in
  tool_exists "chat" out.1.1 = false ∧
  (∀ other, other ≠ "chat" →
     get_tool_by_name (JStr other) out.1.1 = get_tool_by_name (JStr other) tm) ∧
  (tool_exists "chat" tm = false ↔ out.2 = Ok false) ∧
  (tool_exists "chat" tm = false → out.1 = (tm, Sample.world ∅)) ∧
  (tool_exists "chat" tm = true → event_bus tm = false →
     out.1.2 = Sample.world ∅ ∧ out.2 = Ok true).
Proof.
  intros env tm.
  apply (unregister_removes_only_that_tool "chat" tm (Sample.world ∅)).
  simpl. apply NoDup_singleton.
Defined.

(** X5. Registering a tool and then unregistering it gives back the
    registry as it was (on a manager without an event bus). *)
Theorem register_then_unregister_restores `{env : Env}
    (tool : Tool) (tm tm' : ToolManager) (w w' : World) :
  event_bus tm = false →
  register_tool tool tm w = (tm', w', Ok ()) →
  unregister_tool (name tool) tm' w' = (tm, w, Ok true).
Proof.
  intros Hbus (Hnew & -> & Hw)%register_tool_ok. rewrite (Hw Hbus).
  unfold unregister_tool. simpl.
  rewrite <- (dict_set_new _ _ _ Hnew).
  replace (dict_mem (name tool) (dict_set (name tool) tool (_tools tm))) with true
    by (symmetry; apply dict_mem_true; rewrite dict_get_set_eq; by eexists).
  rewrite Hbus, (dict_del_set_new _ _ _ Hnew).
  destruct tm as [ts b]. simpl in *. by subst b.
Qed.

Lemma register_then_unregister_restores_witness :
  let env := Sample.runtime [] Sample.unreachable in
  let tm := {| _tools := []; event_bus := false |} in
  let tm' := {| _tools := [("chat", Sample.chat_tool)]; event_bus := false |} in
  unregister_tool "chat" tm' (Sample.world ∅) = (tm, Sample.world ∅, Ok true).
Proof.
  intros env tm tm'.
  apply (register_then_unregister_restores Sample.chat_tool tm tm' (Sample.world ∅) (Sample.world ∅));
    reflexivity.
Defined.

(** ** Further properties of input validation *)

Section ValidationFacts.
Context `{env : Env}.

Lemma best_match_None errors : best_match errors = None ↔ errors = [].
Proof.
  destruct errors as [|e rest]; [done|]. simpl.
  destruct (best_match rest) as [e'|]; [|done].
  by destruct (_ <? _)%nat.
Qed.

Lemma validate_ok instance schema :
  validate instance schema = Ok () ↔ iter_errors schema instance = [].
Proof.
  unfold validate. rewrite <- best_match_None.
  by destruct (best_match (iter_errors schema instance)).
Qed.

Lemma validate_raises instance schema e rest :
  iter_errors schema instance = e :: rest →
  ∃ e', e' ∈ e :: rest ∧ validate instance schema = Raise (Exn ValidationError (ve_message e')).
Proof.
  unfold validate. intros ->.
  assert (∀ l : list verror, match best_match l with Some x => x ∈ l | None => l = [] end) as H.
  { induction l as [|x l IH]; simpl; [done|].
    destruct (best_match l) as [y|]; [|by left].
    destruct (_ <? _)%nat; [by right|by left]. }
  specialize (H (e :: rest)). destruct (best_match (e :: rest)) as [x|]; [|done].
  by exists x.
Qed.

Lemma list_filter_nil {A} (p : A → bool) l :
  List.filter p l = [] ↔ Forall (λ x, p x = false) l.
Proof.
  induction l as [|x l IH]; simpl; [by split; [constructor|]|].
  destruct (p x) eqn:Hp.
  - split; [done|]. intros [? _]%Forall_cons. congruence.
  - rewrite IH, Forall_cons. split; [by intros ?; split|by intros [_ ?]].
Qed.

Lemma fmap_nil_iff {A B} (f : A → B) (l : list A) : f <$> l = [] ↔ l = [].
Proof. by destruct l. Qed.

Lemma required_errors_nil keys fields :
  required_errors (JArr (JStr <$> keys)) (JObj fields) = [] ↔
  Forall (λ k, is_Some (dict_get k fields)) keys.
Proof.
  unfold required_errors. rewrite json_strings_JStr, fmap_nil_iff, list_filter_nil.
  apply Forall_iff. intros k. rewrite negb_false_iff. apply dict_mem_true.
Qed.

Lemma typed_errors value ty :
  iter_errors (JObj [("type", JStr ty)]) value =
  if is_type value ty then []
  else [ {| ve_path := []; ve_validator := "type";
            ve_message := py_repr value +:+ " is not of type " +:+ py_repr (JStr ty) |} ].
Proof.
  rewrite iter_errors_unfold. cbn [fmap list_fmap concat]. rewrite keyword_type, app_nil_r.
  unfold type_errors. cbn [json_strings existsb]. rewrite orb_false_r.
  by destruct (is_type value ty).
Qed.

Lemma typed_property_errors fields k ty :
  property_errors fields (k, JObj [("type", JStr ty)]) = [] ↔
  ∀ value, dict_get k fields = Some value → is_type value ty = true.
Proof.
  unfold property_errors. cbn [fst snd].
  destruct (dict_get k fields) as [value|]; [|done].
  rewrite typed_errors. destruct (is_type value ty) eqn:Ht.
  - split; [|done]. by intros _ ? [= <-].
  - split; [done|]. intros H. specialize (H _ eq_refl). congruence.
Qed.

Lemma typed_property_errors_nil fields (example : list (string * json)) :
  concat (property_errors fields <$>
            ((λ kv : string * json, (kv.1, JObj [("type", JStr (infer_type kv.2))])) <$> example))
  = [] ↔
  Forall (λ kv : string * json,
            ∀ value, dict_get kv.1 fields = Some value → is_type value (infer_type kv.2) = true)
         example.
Proof.
  induction example as [|[k v] example IH]; [by split; [constructor|]|].
  rewrite !fmap_cons, Forall_cons, <- IH. cbn [concat fst snd].
  rewrite app_nil, typed_property_errors. done.
Qed.

Lemma validate_example_schema fields example :
  validate (JObj fields) (schema_of_example example) = Ok () ↔
  Forall (λ kv : string * json,
            ∃ value, dict_get kv.1 fields = Some value ∧
                     is_type value (infer_type kv.2) = true) example.
Proof.
  rewrite validate_ok. unfold schema_of_example. rewrite iter_errors_unfold.
  cbn [fmap list_fmap concat]. rewrite keyword_type, keyword_required, keyword_properties.
  rewrite app_nil_r, !app_nil. unfold type_errors at 1. cbn [json_strings existsb is_type].
  rewrite required_errors_nil, typed_property_errors_nil.
  unfold dict_keys. rewrite Forall_fmap. split.
  - intros (_ & Hreq & Hty). rewrite Forall_forall in *. intros kv Hkv.
    destruct (Hreq kv Hkv) as [value Hv]. exists value. split; [done|]. by apply (Hty kv Hkv).
  - intros H. rewrite Forall_forall in H. split; [done|]. split; apply Forall_forall.
    + intros kv Hkv. destruct (H kv Hkv) as (value & Hv & _). simpl. by exists value.
    + intros kv Hkv value Hv. destruct (H kv Hkv) as (value' & Hv' & Ht). congruence.
Qed.

End ValidationFacts.

(** X6. What [validate_input] accepts for a tool whose example parses to
    an object: exactly the inputs that give every field of the example,
    each with a value of the type inferred from the example.  Fields the
    example does not have are accepted as they come. *)
Theorem validate_input_accepts_example_shaped_inputs `{env : Env}
    (tool_name : string) (tool : Tool) (tm : ToolManager)
    (example input : list (string * json)) :
  dict_get tool_name (_tools tm) = Some tool →
  parsed_example tool = Some (JObj example) →
  validate_input (JStr tool_name) (JObj input) tm = (true, "") ↔
  Forall (λ kv : string * json,
            ∃ value, dict_get kv.1 input = Some value ∧
                     is_type value (infer_type kv.2) = true) example.
Proof.
  intros Htool Hex. rewrite <- validate_example_schema.
  unfold validate_input, get_tool_by_name. rewrite Htool.
  unfold schema_for_validation, example_schema. rewrite Hex.
  unfold schema_of_example at 1. cbn [dict_mem dict_get String.eqb Ascii.eqb Bool.eqb].
  fold (schema_of_example example).
  destruct (validate (JObj input) (schema_of_example example)) as [[]|e]; by split.
Qed.

Lemma validate_input_accepts_example_shaped_inputs_witness :
  let text := "{" +:+ quoted "x" +:+ ": " +:+ quoted "hello" +:+ "}" in
  let env := Sample.runtime [(text, JObj [("x", JStr "hello")])] Sample.unreachable in
  let tool := {| name := "echo"; description := "Says it back.";
                 example_usage := Some text; input_schema := None;
                 run := λ _, Ok "done" |} in
  let tm := {| _tools := [("echo", tool)]; event_bus := false |} in
  validate_input (JStr "echo") (JObj [("x", JStr "bye"); ("y", JInt 1)]) tm = (true, "") ↔
  Forall (λ kv : string * json,
            ∃ value, dict_get kv.1 [("x", JStr "bye"); ("y", JInt 1)] = Some value ∧
                     is_type value (infer_type kv.2) = true) [("x", JStr "hello")].
Proof.
  intros text env tool tm.
  apply (validate_input_accepts_example_shaped_inputs "echo" tool tm); reflexivity.
Defined.



(** ** Further properties of the memory store *)

Lemma save_entry_suffix (r : string) (c md : json) (m : Memory) :
  conversation_history (save_entry r c md m)
    `suffix_of` conversation_history m ++ [ {| role := r; content := c; metadata := md |} ].
Proof.
  simpl. destruct (_ <? _)%nat; [|done].
  unfold tail_slice. destruct (limit m); [done|apply suffix_drop].
Qed.

(** X8. What [save] leaves in the history: the entry just saved is the
    last one, the history is the end of the old history followed by the
    entry, and with a positive limit its length is capped at the limit.
    With limit 0 nothing is ever evicted, [history[-0:]] being the whole
    list. *)
Theorem save_keeps_the_latest_entries (r : string) (c md : json) (m : Memory) :
  let entry := {| role := r; content := c; metadata := md |} in
  let old := conversation_history m in
  let new := conversation_history (save_entry r c md m) in
  last new = Some entry ∧
  new `suffix_of` old ++ [entry] ∧
  length new = (if (limit m =? 0)%nat then S (length old)
                else S (length old) `min` limit m) ∧
  limit (save_entry r c md m) = limit m ∧
  context_memory (save_entry r c md m) = context_memory m.
Proof.
  simpl. set (entry := {| role := r; content := c; metadata := md |}).
  set (h := conversation_history m ++ [entry]).
  assert (length h = S (length (conversation_history m))) as Hlen.
  { unfold h. rewrite length_app. simpl. lia. }
  destruct (Nat.ltb_spec (limit m) (length h)) as [Hlt|Hge].
  - unfold tail_slice. destruct (limit m) as [|n] eqn:Hlimit; simpl.
    + rewrite Hlen. repeat split; try done. apply last_snoc.
    + repeat split.
      * unfold h. rewrite drop_app_le by (rewrite length_app; simpl; lia).
        apply last_snoc.
      * apply suffix_drop.
      * rewrite length_drop. lia.
  - repeat split; try done.
    + apply last_snoc.
    + destruct (limit m); simpl; lia.
Qed.

Section ContextFacts.

Lemma context_value_saved key value category m :
  context_value category key (save_context_entry key value category m) = Some value.
Proof.
  unfold context_value, save_context_entry. simpl.
  rewrite dict_get_set_eq. simpl. apply dict_get_set_eq.
Qed.

Lemma context_value_other key value category m c k :
  (c, k) ≠ (category, key) →
  context_value c k (save_context_entry key value category m) = context_value c k m.
Proof.
  intros Hne. unfold context_value, save_context_entry. simpl.
  destruct (decide (c = category)) as [->|Hc].
  - rewrite dict_get_set_eq. simpl.
    rewrite dict_get_set_ne by congruence.
    by destruct (dict_get category (context_memory m)).
  - by rewrite dict_get_set_ne.
Qed.

End ContextFacts.

(** X9. What [save_context] stores is read back under its category and
    key, replacing what was there; every other category and key keeps
    its value, and the conversation history is not touched. *)
Theorem saved_context_is_read_back (key : string) (value : json) (category : string)
    (m : Memory) :
  let m' := save_context_entry key value category m in
  context_value category key m' = Some value ∧
  (∀ c k, (c, k) ≠ (category, key) → context_value c k m' = context_value c k m) ∧
  conversation_history m' = conversation_history m ∧
  limit m' = limit m.
Proof.
  simpl. split; [apply context_value_saved|]. split; [|done].
  intros c k. apply context_value_other.
Qed.

Section ConversationContextFacts.
Context `{env : Env}.

Lemma join_head_nonempty sep c p rest : PyStr.join sep (String c p :: rest) ≠ "".
Proof. destruct rest; simpl; [done|]. by rewrite append_cons. Qed.

Lemma tail_slice_nil {A} n (l : list A) : tail_slice n l = [] ↔ l = [].
Proof.
  split; [|by intros ->; destruct n].
  destruct n as [|n]; [done|]. simpl. intros H.
  apply (f_equal length) in H. rewrite length_drop in H. simpl in H.
  destruct l; [done|]. simpl in H. lia.
Qed.

Lemma conversation_context_empty last_n m :
  get_conversation_context last_n m = "" ↔
  conversation_history m = [] ∧ context_memory m = [].
Proof.
  unfold get_conversation_context. split.
  - intros H.
    destruct (tail_slice last_n (conversation_history m)) as [|e l] eqn:Hrecent.
    + apply tail_slice_nil in Hrecent. split; [done|].
      destruct (context_memory m); [done|].
      cbn [app] in H. by apply (join_head_nonempty _ "010"%char "RELEVANT CONTEXT:") in H.
    + rewrite <- app_comm_cons in H. by apply join_head_nonempty in H.
  - intros [-> ->]. by destruct last_n.
Qed.

Lemma length_append (a b : string) :
  String.length (a +:+ b) = String.length a + String.length b.
Proof. induction a as [|c a IH]; [done|]. rewrite append_cons. simpl. by rewrite IH. Qed.

End ConversationContextFacts.

(** X10. The conversation context handed to the reasoner is empty exactly
    when the memory holds neither a conversation entry nor a context
    category, and exactly then [inject_memory_context] passes the prompt
    on unchanged. *)
Theorem memory_context_is_injected_unless_memory_is_empty `{env : Env}
    (prompt : string) (m : Memory) (context_limit : nat) :
  (get_conversation_context context_limit m = "" ↔
   conversation_history m = [] ∧ context_memory m = []) ∧
  (inject_memory_context prompt m context_limit = prompt ↔
   conversation_history m = [] ∧ context_memory m = []).
Proof.
  split; [apply conversation_context_empty|].
  rewrite <- (conversation_context_empty context_limit). unfold inject_memory_context.
  destruct (String.eqb_spec (get_conversation_context context_limit m) "") as [->|Hne].
  - done.
  - split; [|done]. intros H. apply (f_equal String.length) in H.
    rewrite !length_append in H. simpl in H. lia.
Qed.

(** ** Further properties of the calls to the backend *)

Section RetryFacts.
Context `{env : Env}.
Variable self : LLMReasoner.

Lemma set_requests_nil w : set_requests (λ r, r ++ []) w = w.
Proof. destruct w. unfold set_requests. simpl. by rewrite app_nil_r. Qed.

Lemma set_requests_more prompt n w :
  set_requests (λ r, r ++ replicate n prompt) (set_requests (λ r, r ++ [prompt]) w)
  = set_requests (λ r, r ++ replicate (S n) prompt) w.
Proof. unfold set_requests. simpl. by rewrite <- app_assoc. Qed.

Lemma call_llm_stream_is_refused prompt token_callback w :
  refused (length (requests w)) prompt →
  ∃ e, _call_llm_stream prompt token_callback w
       = (set_requests (λ r, r ++ [prompt]) w, Raise e).
Proof.
  unfold refused, _call_llm_stream.
  destruct (backend (length (requests w)) prompt) as [e|status_code chunks broken].
  - by exists e.
  - intros Hstatus. apply Nat.eqb_neq in Hstatus. rewrite Hstatus. by eexists.
Qed.

Lemma try_call_llm_from_refused attempts prompt token_callback :
  ∀ last_error w,
  (∀ i, (i < attempts)%nat → refused (length (requests w) + i) prompt) →
  ∃ detail,
    try_call_llm_from self attempts last_error prompt token_callback w =
    (set_requests (λ r, r ++ replicate attempts prompt) w,
     Raise (Exn RuntimeError
              ("LLM failed after " +:+ py_repr (JInt (Z.of_nat (retries self))) +:+
               " retries: " +:+ detail))).
Proof.
  induction attempts as [|attempts IH]; intros last_error w Hrefused; simpl.
  - rewrite set_requests_nil. by eexists.
  - destruct (call_llm_stream_is_refused prompt token_callback w) as [e ->].
    { specialize (Hrefused 0%nat). rewrite Nat.add_0_r in Hrefused. apply Hrefused. lia. }
    destruct (IH (Some e) (set_requests (λ r, r ++ [prompt]) w)) as [detail ->].
    { intros i Hi. simpl. rewrite length_app. simpl.
      replace (length (requests w) + 1 + i)%nat with (length (requests w) + S i)%nat by lia.
      apply Hrefused. lia. }
    rewrite set_requests_more. by exists detail.
Qed.

Lemma drain_lines_no_callback lines rest w :
  drain_lines None lines rest w = (w, rest).
Proof. induction lines as [|line lines IH]; simpl; [done|apply IH]. Qed.

Lemma consume_chunks_no_callback chunks full_text line_buffer w :
  (consume_chunks None chunks full_text line_buffer w).1 = w.
Proof.
  revert full_text line_buffer. induction chunks as [|chunk chunks IH];
    intros full_text line_buffer; simpl; [done|].
  destruct (chunk_token chunk) as [token|]; [|apply IH].
  destruct (split_lines (line_buffer +:+ token)) as [lines rest].
  rewrite drain_lines_no_callback. apply IH.
Qed.

Lemma call_llm_stream_no_callback prompt chunks w :
  backend (length (requests w)) prompt = Response 200 chunks None →
  _call_llm_stream prompt None w
  = (set_requests (λ r, r ++ [prompt]) w, Ok (stream_text chunks)).
Proof.
  intros Hreply. unfold _call_llm_stream. rewrite Hreply. simpl.
  pose proof (consume_chunks_no_callback chunks "" "" (set_requests (λ r, r ++ [prompt]) w)) as Hw.
  pose proof (consume_chunks_text None chunks "" "" (set_requests (λ r, r ++ [prompt]) w)) as Ht.
  destruct (consume_chunks None chunks "" "" _) as [w2 [full_text line_buffer]].
  simpl in *. by subst.
Qed.

Lemma try_call_llm_from_succeeds failures more prompt chunks :
  ∀ last_error w,
  (∀ i, (i < failures)%nat → refused (length (requests w) + i) prompt) →
  backend (length (requests w) + failures) prompt = Response 200 chunks None →
  try_call_llm_from self (failures + S more) last_error prompt None w =
  (set_requests (λ r, r ++ replicate (S failures) prompt) w, Ok (stream_text chunks)).
Proof.
  induction failures as [|failures IH]; intros last_error w Hrefused Hreply; simpl.
  - rewrite Nat.add_0_r in Hreply. by rewrite (call_llm_stream_no_callback _ _ _ Hreply).
  - destruct (call_llm_stream_is_refused prompt None w) as [e ->].
    { specialize (Hrefused 0%nat). rewrite Nat.add_0_r in Hrefused. apply Hrefused. lia. }
    rewrite IH.
    + by rewrite set_requests_more.
    + intros i Hi. simpl. rewrite length_app. simpl.
      replace (length (requests w) + 1 + i)%nat with (length (requests w) + S i)%nat by lia.
      apply Hrefused. lia.
    + simpl. rewrite length_app. simpl.
      by replace (length (requests w) + 1 + failures)%nat
        with (length (requests w) + S failures)%nat by lia.
Qed.

End RetryFacts.

(** X11. When the backend refuses every attempt (no connection, or a
    status other than 200), [_try_call_llm] sends the prompt exactly
    [retries] times, changes nothing else, and raises a [RuntimeError]
    that tells the number of retries; with [retries = 0] it raises
    without sending anything. *)
Theorem try_call_llm_gives_up_after_retries `{env : Env}
    (self : LLMReasoner) (prompt : string) (token_callback : option (string → M unit))
    (w : World) :
  (∀ i, (i < retries self)%nat → refused (length (requests w) + i) prompt) →
  ∃ detail,
    _try_call_llm self prompt token_callback w =
    (set_requests (λ r, r ++ replicate (retries self) prompt) w,
     Raise (Exn RuntimeError
              ("LLM failed after " +:+ py_repr (JInt (Z.of_nat (retries self))) +:+
               " retries: " +:+ detail))).
Proof. apply try_call_llm_from_refused. Qed.

Lemma try_call_llm_gives_up_after_retries_witness :
  let env := Sample.runtime [] Sample.unreachable in
  let self := {| retries := 3; debug_mode := false |} in
  ∃ detail,
    _try_call_llm self "hello" None (Sample.world ∅) =
    (set_requests (λ r, r ++ ["hello"; "hello"; "hello"]) (Sample.world ∅),
     Raise (Exn RuntimeError
              ("LLM failed after " +:+ py_repr (JInt 3) +:+ " retries: " +:+ detail))).
Proof.
  intros env self.
  apply (try_call_llm_gives_up_after_retries self "hello" None (Sample.world ∅)).
  intros i _. exact I.
Defined.

(** X12. [_try_call_llm] stops at the first attempt that succeeds: when
    the first [failures] attempts are refused and the next one, still
    within the retry ceiling, delivers a complete stream, the text of
    that stream is returned after exactly [failures + 1] requests, all
    with the same prompt. *)
Theorem try_call_llm_stops_at_first_success `{env : Env}
    (self : LLMReasoner) (prompt : string) (failures : nat) (chunks : list string)
    (w : World) :
  (failures < retries self)%nat →
  (∀ i, (i < failures)%nat → refused (length (requests w) + i) prompt) →
  backend (length (requests w) + failures) prompt = Response 200 chunks None →
  _try_call_llm self prompt None w =
  (set_requests (λ r, r ++ replicate (S failures) prompt) w, Ok (stream_text chunks)).
Proof.
  intros Hlt Hrefused Hreply. unfold _try_call_llm.
  replace (retries self) with (failures + S (retries self - S failures))%nat by lia.
  by apply try_call_llm_from_succeeds.
Qed.

Lemma try_call_llm_stops_at_first_success_witness :
  let env := Sample.runtime [("c", JObj [("response", JStr "fine")])]
               (λ n _, match n with
                       | O => ConnectionFailed (Exn OtherError "connection refused")
                       | S _ => Response 200 ["c"] None
                       end) in
  let self := {| retries := 3; debug_mode := false |} in
  _try_call_llm self "hello" None (Sample.world ∅) =
  (set_requests (λ r, r ++ ["hello"; "hello"]) (Sample.world ∅), Ok (stream_text ["c"])).
Proof.
  intros env self.
  apply (try_call_llm_stops_at_first_success self "hello" 1 ["c"] (Sample.world ∅)).
  - simpl. lia.
  - intros i Hi. assert (i = 0)%nat as -> by lia. exact I.
  - reflexivity.
Defined.

Section TranscriptFacts.
Context `{env : Env}.

Lemma append_empty_l (a : string) : "" +:+ a = a.
Proof. done. Qed.

Lemma join_empty_cons p rest : PyStr.join "" (p :: rest) = p +:+ PyStr.join "" rest.
Proof. destruct rest; simpl; [by rewrite append_empty_r|done]. Qed.

Lemma join_empty_app l l' :
  PyStr.join "" (l ++ l') = PyStr.join "" l +:+ PyStr.join "" l'.
Proof.
  induction l as [|p l IH]; [done|].
  rewrite <- app_comm_cons, !join_empty_cons, IH. by rewrite append_assoc.
Qed.

Lemma rev_app_append s : ∀ acc, String.rev_app s acc = String.rev s +:+ acc.
Proof.
  unfold String.rev. induction s as [|c s IH]; intros acc; simpl; [done|].
  rewrite (IH (String c acc)), (IH (String c "")). by rewrite append_assoc.
Qed.

Lemma rev_cons c s : String.rev (String c s) = String.rev s +:+ String c "".
Proof. unfold String.rev at 1. simpl. apply rev_app_append. Qed.

(** Splitting a buffer into lines loses nothing. *)
Lemma split_lines_from_adds_up s :
  ∀ current,
    PyStr.join "" (split_lines_from current s).1 +:+ (split_lines_from current s).2
    = String.rev current +:+ s.
Proof.
  induction s as [|c s IH]; intros current; simpl.
  - by rewrite append_empty_r.
  - destruct (Ascii.eqb c "010"%char).
    + specialize (IH ""). destruct (split_lines_from "" s) as [lines rest].
      cbn [fst snd] in *.
      rewrite join_empty_cons, append_assoc, IH, rev_cons. by rewrite append_assoc.
    + rewrite IH, rev_cons. by rewrite append_assoc.
Qed.

Lemma split_lines_adds_up s :
  PyStr.join "" (split_lines s).1 +:+ (split_lines s).2 = s.
Proof. apply (split_lines_from_adds_up s ""). Qed.

Lemma stream_callback_records line w :
  quiet w →
  ∃ w', stream_callback line w = (w', Ok ()) ∧ quiet w' ∧
        transcript w' = transcript w ++ [line] ∧ requests w' = requests w.
Proof.
  intros Hq. unfold stream_callback. rewrite run_bind. simpl. rewrite run_bind. simpl.
  assert (quiet (set_transcript (λ t, t ++ [line]) w)) as Hq'
    by (by eapply quiet_subscribers; [|exact Hq]).
  destruct (reasoner_bus w); simpl; [|by eexists].
  destruct (emit_quiet "on_llm_stream_line" (JObj [("line", JStr line)]) _ Hq') as [Hr Hq2].
  destruct (emit_frame "on_llm_stream_line" (JObj [("line", JStr line)])
              (set_transcript (λ t, t ++ [line]) w)) as (Hreq & Ht & _).
  destruct (EventBus.emit _ _ _) as [w' r]. simpl in *. subst r. by exists w'.
Qed.

Lemma drain_lines_records lines rest :
  ∀ w, quiet w →
  ∃ w', drain_lines (Some stream_callback) lines rest w = (w', rest) ∧ quiet w' ∧
        transcript w' = transcript w ++ lines ∧ requests w' = requests w.
Proof.
  induction lines as [|line lines IH]; intros w Hq; simpl.
  - exists w. by rewrite app_nil_r.
  - destruct (stream_callback_records line w Hq) as (w1 & -> & Hq1 & Ht1 & Hr1).
    destruct (IH w1 Hq1) as (w2 & -> & Hq2 & Ht2 & Hr2).
    exists w2. repeat split; [done| |congruence].
    by rewrite Ht2, Ht1, <- app_assoc.
Qed.

Lemma consume_chunks_records chunks :
  ∀ full_text line_buffer w, quiet w →
  ∃ w' line_buffer',
    consume_chunks (Some stream_callback) chunks full_text line_buffer w
    = (w', (full_text +:+ stream_text chunks, line_buffer')) ∧
    quiet w' ∧ requests w' = requests w ∧
    PyStr.join "" (transcript w') +:+ line_buffer'
    = PyStr.join "" (transcript w) +:+ line_buffer +:+ stream_text chunks.
Proof.
  induction chunks as [|chunk chunks IH]; intros full_text line_buffer w Hq.
  - exists w, line_buffer. simpl. by rewrite !append_empty_r.
  - cbn [consume_chunks stream_text foldr].
    fold (stream_text chunks).
    destruct (chunk_token chunk) as [token|]; [|by apply IH].
    pose proof (split_lines_adds_up (line_buffer +:+ token)) as Hsplit.
    destruct (split_lines (line_buffer +:+ token)) as [lines rest]. simpl in Hsplit.
    destruct (drain_lines_records lines rest w Hq) as (w1 & -> & Hq1 & Ht1 & Hr1).
    destruct (IH (full_text +:+ token) rest w1 Hq1) as (w2 & buffer & -> & Hq2 & Hr2 & Ht2).
    exists w2, buffer. repeat split; [|done|congruence|].
    + by rewrite append_assoc.
    + rewrite Ht2, Ht1, join_empty_app, append_assoc.
      by rewrite <- (append_assoc (PyStr.join "" lines)), Hsplit, !append_assoc.
Qed.

End TranscriptFacts.

(** X13. Streaming loses nothing: when the backend delivers a complete
    stream and the subscribers return normally, the lines handed to the
    stream callback, put together, are exactly the text
    [_call_llm_stream] returns, and one request has been sent. *)
Theorem streamed_lines_add_up_to_the_response `{env : Env}
    (prompt : string) (chunks : list string) (w : World) :
  quiet w →
  backend (length (requests w)) prompt = Response 200 chunks None →
  ∃ w',
    _call_llm_stream prompt (Some stream_callback) w = (w', Ok (stream_text chunks)) ∧
    PyStr.join "" (transcript w') = PyStr.join "" (transcript w) +:+ stream_text chunks ∧
    requests w' = requests w ++ [prompt] ∧
    quiet w'.
Proof.
  intros Hq Hreply. unfold _call_llm_stream. rewrite Hreply. simpl.
  assert (quiet (set_requests (λ r, r ++ [prompt]) w)) as Hq1
    by (by eapply quiet_subscribers; [|exact Hq]).
  destruct (consume_chunks_records chunks "" "" _ Hq1)
    as (w2 & line_buffer & -> & Hq2 & Hr2 & Ht2).
  simpl in Hr2, Ht2. rewrite append_empty_l.
  destruct (String.eqb_spec line_buffer "") as [->|Hne].
  - exists w2. rewrite append_empty_r in Ht2. by repeat split.
  - rewrite run_bind.
    destruct (stream_callback_records line_buffer w2 Hq2) as (w3 & -> & Hq3 & Ht3 & Hr3).
    exists w3. repeat split; [|congruence|done].
    by rewrite Ht3, join_empty_app, join_empty_cons, append_empty_r.
Qed.

Lemma streamed_lines_add_up_to_the_response_witness :
  let env := Sample.runtime [("c", JObj [("response", JStr "fine")])]
               (λ _ _, Response 200 ["c"] None) in
  ∃ w',
    _call_llm_stream "hello" (Some stream_callback) (Sample.world ∅)
    = (w', Ok (stream_text ["c"])) ∧
    PyStr.join "" (transcript w')
    = PyStr.join "" (transcript (Sample.world ∅)) +:+ stream_text ["c"] ∧
    requests w' = requests (Sample.world ∅) ++ ["hello"] ∧
    quiet w'.
Proof.
  intros env.
  apply (streamed_lines_add_up_to_the_response "hello" ["c"] (Sample.world ∅));
    [by apply quiet_without_subscribers | reflexivity].
Defined.

(** ** Invariants of the world kept by the reasoner and by the loop *)

Section PreservesRules.
Context {A B : Type}.
Variable I : World → Prop.

Lemma preserves_ret (a : A) : preserves I (mret a).
Proof. by intros w Hw. Qed.

Lemma preserves_raise e : preserves I (raise e : M A).
Proof. by intros w Hw. Qed.

Lemma preserves_gets (f : World → A) : preserves I (gets f).
Proof. by intros w Hw. Qed.

Lemma preserves_lift_result (r : result A) : preserves I (lift_result r).
Proof. by intros w Hw. Qed.

Lemma preserves_bind (c : M A) (k : A → M B) :
  preserves I c → (∀ a, preserves I (k a)) → preserves I (c ≫= k).
Proof. intros Hc Hk. eapply hoare_seq; [exact Hc | exact Hk | done]. Qed.

Lemma preserves_try_except (c : M A) (h : exn → M A) :
  preserves I c → (∀ e, preserves I (h e)) → preserves I (try_except c h).
Proof.
  intros Hc Hh. eapply hoare_try_except; [exact Hc | done |]. intros e. apply Hh.
Qed.

Lemma preserves_try_except_if (p : exn → bool) (c : M A) (h : exn → M A) :
  preserves I c → (∀ e, preserves I (h e)) → preserves I (try_except_if p c h).
Proof.
  intros Hc Hh. eapply hoare_try_except_if; [exact Hc | done | done |].
  intros e _. apply Hh.
Qed.

End PreservesRules.

Lemma preserves_modify (I : World → Prop) (f : World → World) :
  (∀ w, I w → I (f w)) → preserves I (modify f).
Proof. intros Hf. by apply hoare_modify. Qed.

Lemma preserves_when (I : World → Prop) (b : bool) (c : M unit) :
  preserves I c → preserves I (when b c).
Proof. intros Hc. apply hoare_when; [done|]. by intros _ w Hw. Qed.

Lemma hoare_after {A B} (I : World → Prop) (c : M A) (k : A → M B)
    (Q : World → result B → Prop) :
  preserves I c →
  (∀ a, hoare I (k a) Q) →
  (∀ w e, I w → Q w (Raise e)) →
  hoare I (c ≫= k) Q.
Proof. apply hoare_seq. Qed.

Lemma preserves_then {A} (I : World → Prop) (c : M A) (Q : World → result A → Prop) :
  preserves I c → (∀ w r, I w → Q w r) → hoare I c Q.
Proof. intros Hc HQ. eapply hoare_post; [exact Hc|]. intros w r. apply HQ. Qed.

Ltac preserve :=
  repeat match goal with
  | |- preserves _ (mret _) => apply preserves_ret
  | |- preserves _ (raise _) => apply preserves_raise
  | |- preserves _ (gets _) => apply preserves_gets
  | |- preserves _ (lift_result _) => apply preserves_lift_result
  | |- preserves _ (when _ _) => apply preserves_when
  | |- preserves _ (_ ≫= _) => apply preserves_bind; [|intros ?]
  | |- preserves _ (try_except_if _ _ _) => apply preserves_try_except_if; [|intros ?]
  | |- preserves _ (try_except _ _) => apply preserves_try_except; [|intros ?]
  | H : ∀ event_name data, preserves _ (EventBus.emit event_name data)
    |- preserves _ (EventBus.emit _ _) => apply H
  | |- preserves _ (if ?b then _ else _) => destruct b
  | |- preserves _ (match ?x with Some _ => _ | None => _ end) => destruct x
  | H : preserves ?I ?c |- preserves ?I ?c => exact H
  end.

Section ThinkInvariance.
Context `{env : Env}.
Variable I : World → Prop.
Hypothesis I_requests : ∀ prompt w, I w → I (set_requests (λ r, r ++ [prompt]) w).
Hypothesis I_transcript : ∀ f w, I w → I (set_transcript f w).
Hypothesis I_transcript_saved :
  ∀ c md w, I w → I (set_memory (save_entry "llm_transcript" c md) w).
Hypothesis I_reasoner_bus : ∀ b w, I w → I (set_reasoner_bus b w).
Hypothesis I_emit : ∀ event_name data, preserves I (EventBus.emit event_name data).
Variable self : LLMReasoner.

Lemma emit_debug_preserves event_name data : preserves I (emit_debug self event_name data).
Proof. unfold emit_debug. preserve. Qed.

Lemma stream_callback_preserves line : preserves I (stream_callback line).
Proof.
  unfold stream_callback. preserve.
  apply preserves_modify. intros w. apply I_transcript.
Qed.

Lemma drain_lines_preserves (token_callback : option (string → M unit)) lines rest w :
  (∀ callback line, token_callback = Some callback → preserves I (callback line)) →
  I w → I (drain_lines token_callback lines rest w).1.
Proof.
  intros Hcb. revert w. induction lines as [|line lines IH]; intros w Hw; simpl; [done|].
  destruct token_callback as [callback|]; [|by apply IH].
  pose proof (Hcb callback line eq_refl w Hw) as Hw'.
  destruct (callback line w) as [w' [[]|e]]; simpl in *; [by apply IH | done].
Qed.

Lemma consume_chunks_preserves (token_callback : option (string → M unit))
    chunks full_text line_buffer w :
  (∀ callback line, token_callback = Some callback → preserves I (callback line)) →
  I w → I (consume_chunks token_callback chunks full_text line_buffer w).1.
Proof.
  intros Hcb. revert full_text line_buffer w.
  induction chunks as [|chunk chunks IH]; intros full_text line_buffer w Hw; simpl; [done|].
  destruct (chunk_token chunk) as [token|]; [|by apply IH].
  destruct (split_lines (line_buffer +:+ token)) as [lines rest].
  pose proof (drain_lines_preserves token_callback lines rest w Hcb Hw) as Hd.
  destruct (drain_lines token_callback lines rest w) as [w' line_buffer']. by apply IH.
Qed.

Lemma call_llm_stream_preserves prompt (token_callback : option (string → M unit)) :
  (∀ callback line, token_callback = Some callback → preserves I (callback line)) →
  preserves I (_call_llm_stream prompt token_callback).
Proof.
  intros Hcb w Hw. unfold _call_llm_stream.
  pose proof (I_requests prompt w Hw) as Hw1.
  destruct (backend (length (requests w)) prompt) as [e|status_code chunks broken]; [done|].
  destruct (negb (status_code =? 200)%nat); [done|].
  pose proof (consume_chunks_preserves token_callback chunks "" "" _ Hcb Hw1) as Hc.
  destruct (consume_chunks token_callback chunks "" "" _) as [w2 [full_text line_buffer]].
  simpl in Hc. destruct broken; [done|].
  destruct token_callback as [callback|]; [|done].
  destruct (String.eqb line_buffer ""); [done|].
  assert (preserves I (callback line_buffer ;; mret full_text)) as Hlast
    by (preserve; by apply Hcb).
  exact (Hlast w2 Hc).
Qed.

Lemma try_call_llm_from_preserves attempts last_error prompt
    (token_callback : option (string → M unit)) :
  (∀ callback line, token_callback = Some callback → preserves I (callback line)) →
  preserves I (try_call_llm_from self attempts last_error prompt token_callback).
Proof.
  intros Hcb. revert last_error.
  induction attempts as [|attempts IH]; intros last_error w Hw; simpl; [done|].
  pose proof (call_llm_stream_preserves prompt token_callback Hcb w Hw) as Hw'.
  destruct (_call_llm_stream prompt token_callback w) as [w' [text|e]]; [done|].
  by apply IH.
Qed.

Lemma try_call_llm_preserves prompt (token_callback : option (string → M unit)) :
  (∀ callback line, token_callback = Some callback → preserves I (callback line)) →
  preserves I (_try_call_llm self prompt token_callback).
Proof. apply try_call_llm_from_preserves. Qed.

Lemma transcript_saved_preserves c : preserves I (memory_save "llm_transcript" c []).
Proof. apply preserves_modify. intros w. apply I_transcript_saved. Qed.

Lemma reask_preserves input response_str e : preserves I (reask self input response_str e).
Proof.
  unfold reask. preserve; try apply emit_debug_preserves.
  by apply try_call_llm_preserves.
Qed.

Lemma think_body_preserves input tools : preserves I (think_body self input tools).
Proof.
  unfold think_body. preserve.
  - apply emit_debug_preserves.
  - apply preserves_modify. intros w. apply I_transcript.
  - apply try_call_llm_preserves. intros callback line [= <-].
    apply stream_callback_preserves.
  - apply transcript_saved_preserves.
  - apply emit_debug_preserves.
  - apply reask_preserves.
Qed.

Lemma think_preserves input tools bus : preserves I (think self input tools bus).
Proof.
  unfold think. preserve.
  - apply preserves_modify. intros w. apply I_reasoner_bus.
  - apply think_body_preserves.
  - apply emit_debug_preserves.
Qed.

End ThinkInvariance.

(** X14. [think] keeps to itself: whatever the backend and the
    subscribers do, it writes nothing to the output channel, runs no
    tool and leaves the context memory alone; the only entries it adds
    to the conversation history are [llm_transcript] entries, and the
    requests already sent stay as they were. *)
Theorem think_only_adds_transcript_entries `{env : Env}
    (self : LLMReasoner) (input : string) (tools : option ToolManager) (bus : bool)
    (w : World) :
  let w' := (think self input tools bus w).1 in
  outputs w' = outputs w ∧
  tool_runs w' = tool_runs w ∧
  context_memory (memory w') = context_memory (memory w) ∧
  limit (memory w') = limit (memory w) ∧
  Forall (λ entry, entry ∈ conversation_history (memory w) ∨ role entry = "llm_transcript")
         (conversation_history (memory w')) ∧
  requests w `prefix_of` requests w'.
Proof.
  set (I := λ w' : World,
         outputs w' = outputs w ∧
         tool_runs w' = tool_runs w ∧
         context_memory (memory w') = context_memory (memory w) ∧
         limit (memory w') = limit (memory w) ∧
         Forall (λ entry, entry ∈ conversation_history (memory w) ∨
                          role entry = "llm_transcript")
                (conversation_history (memory w')) ∧
         requests w `prefix_of` requests w').
  assert (I w) as Hw.
  { repeat split; try done. apply Forall_forall. by left. }
  refine (think_preserves I _ _ _ _ _ self input tools bus w Hw).
  - intros prompt w1 (? & ? & ? & ? & ? & Hp). repeat split; try done.
    simpl. by apply prefix_app_r.
  - intros f w1 (? & ? & ? & ? & ? & ?). by repeat split.
  - intros c md w1 (? & ? & ? & ? & Hall & ?). repeat split; try done.
    destruct (save_entry_suffix "llm_transcript" c md (memory w1)) as [evicted Heq].
    assert (Forall (λ entry, entry ∈ conversation_history (memory w) ∨
                             role entry = "llm_transcript")
                   (conversation_history (memory w1) ++
                    [ {| role := "llm_transcript"; content := c; metadata := md |} ])) as Hmore.
    { apply Forall_app. split; [done|]. constructor; [by right|constructor]. }
    rewrite Heq in Hmore. by apply Forall_app in Hmore as [_ ?].
  - intros b w1 (? & ? & ? & ? & ? & ?). by repeat split.
  - intros event_name data w1 (Ho & Ht & Hc & Hl & Hh & Hr).
    destruct (emit_frame event_name data w1) as (Hr' & _ & Hm' & Ho' & Ht' & _).
    simpl in *. unfold I. rewrite Hr', Hm', Ho', Ht'. by repeat split.
Qed.

Section AnswerFacts.
Context `{env : Env}.
Variable self : LLMReasoner.

(** [think] on an answer that parses and fits the envelope schema. *)
Lemma think_answers_parsed sent input tm bus raw parsed :
  let first := prompt_for input (get_all_tools tm)
                 {| limit := 0; conversation_history := []; context_memory := [] |} in
  (0 < retries self)%nat →
  replies_with (length sent) first raw →
  loads (PyStr.strip raw) = Ok parsed →
  validate parsed LLM_RESPONSE_SCHEMA = Ok () →
  hoare (at_requests sent) (think self input (Some tm) bus)
    (λ w r, r = Ok (if _validate_reasoning_result parsed (get_all_tools tm)
                    then fields_of parsed else _fallback_response input) ∧
            requests w = sent ++ [first]).
Proof.
  intros first Hpos (chunks & Hreply & Hraw) Hloads Hvalid. unfold think.
  eapply hoare_step with (P' := at_requests sent) (v := ()).
  { apply hoare_when; intros _; [|by intros w Hw].
    apply hoare_modify. intros w Hw. split; [|done].
    by eapply at_requests_subscribers; [| |exact Hw]. }
  set (answer := if _validate_reasoning_result parsed (get_all_tools tm)
                 then fields_of parsed else _fallback_response input).
  eapply hoare_try_except
    with (R := λ w r, r = Ok answer ∧ requests w = sent ++ [first]);
    [|done|by intros e' w [? _]].
  unfold think_body. apply hoare_ret_bind.
  apply hoare_gets_const with (v := first); [done|].
  eapply hoare_step with (P' := at_requests sent) (v := ()); [apply emit_debug_at|].
  eapply hoare_step with (P' := at_requests sent) (v := ()).
  { apply hoare_modify. intros w Hw. split; [|done].
    by eapply at_requests_subscribers; [| |exact Hw]. }
  eapply hoare_step with (P' := at_requests (sent ++ [first])) (v := raw).
  { subst raw. apply try_call_llm_at; [done | | done].
    intros line. apply stream_callback_at. }
  apply hoare_gets_bind. intros lines.
  eapply hoare_step with (P' := at_requests (sent ++ [first])) (v := ()).
  { apply hoare_modify. intros w Hw. split; [|done].
    by eapply at_requests_subscribers; [| |exact Hw]. }
  apply hoare_gets_bind. intros rbus.
  eapply hoare_step with (P' := at_requests (sent ++ [first])) (v := ()).
  { destruct (debug_mode self && rbus); [apply emit_at|].
    destruct rbus; [apply emit_at | by apply hoare_ret]. }
  eapply hoare_try_except_if
    with (R := λ w r, r = Ok answer ∧ requests w = sent ++ [first]);
    [|done|by intros w e' [? _]|by intros e' _ w [? _]].
  apply hoare_lift_bind. rewrite Hloads.
  apply hoare_lift_bind. rewrite Hvalid.
  unfold answer. destruct (_validate_reasoning_result parsed (get_all_tools tm)); simpl.
  - eapply hoare_step with (P' := at_requests (sent ++ [first])) (v := ());
      [apply emit_debug_at|].
    apply hoare_ret. by intros w [_ ?].
  - apply hoare_ret. by intros w [_ ?].
Qed.

End AnswerFacts.

(** X15. A well-formed answer goes through unchanged: when the backend's
    first answer parses, fits the envelope schema and names a tool of
    the catalog, [think] returns that envelope as it is, after a single
    request (retry ceiling of at least one, subscribers that return
    normally). *)
Theorem think_returns_valid_answer_unchanged `{env : Env}
    (self : LLMReasoner) (input : string) (tm : ToolManager) (bus : bool) (w : World)
    (raw : string) (parsed : json) :
  quiet w →
  (0 < retries self)%nat →
  replies_with (length (requests w)) (prompt_for input (get_all_tools tm) (memory w)) raw →
  loads (PyStr.strip raw) = Ok parsed →
  validate parsed LLM_RESPONSE_SCHEMA = Ok () →
  _validate_reasoning_result parsed (get_all_tools tm) = true →
  ∃ w',
    think self input (Some tm) bus w = (w', Ok (fields_of parsed)) ∧
    requests w' = requests w ++ [prompt_for input (get_all_tools tm) (memory w)] ∧
    JObj (fields_of parsed) = parsed.
Proof.
  intros Hq Hpos Hraw Hloads Hvalid Hknown.
  destruct (think_answers_parsed self (requests w) input tm bus raw parsed
              Hpos Hraw Hloads Hvalid w) as [Hr Hreq]; [done|].
  rewrite Hknown in Hr.
  destruct (think self input (Some tm) bus w) as [w' r]. simpl in *. subst r.
  exists w'. repeat split; [done|].
  unfold _validate_reasoning_result in Hknown. by destruct parsed.
Qed.

Lemma think_returns_valid_answer_unchanged_witness :
  let envelope := JObj [("thoughts", JStr "a greeting"); ("tool_name", JStr "chat");
                        ("tool_input", JObj [("response", JStr "Hello")])] in
  let env := Sample.runtime [("c", JObj [("response", JStr "e")]); ("e", envelope)]
               (λ _ _, Response 200 ["c"] None) in
  let self := {| retries := 3; debug_mode := false |} in
  let tm := {| _tools := [("chat", Sample.chat_tool)]; event_bus := false |} in
  let w := Sample.world ∅ in
  ∃ w',
    think self "hi" (Some tm) true w = (w', Ok (fields_of envelope)) ∧
    requests w' = requests w ++ [prompt_for "hi" (get_all_tools tm) (memory w)] ∧
    JObj (fields_of envelope) = envelope.
Proof.
  intros envelope env self tm w.
  apply (think_returns_valid_answer_unchanged self "hi" tm true w "e" envelope).
  - by apply quiet_without_subscribers.
  - simpl. lia.
  - exists ["c"]. split; reflexivity.
  - reflexivity.
  - reflexivity.
  - reflexivity.
Defined.

(** X16. An answer that fits the envelope schema but names a tool the
    catalog does not have is not re-asked: [think] answers with the
    fallback chat envelope after that single request. *)
Theorem think_rejects_unknown_tool_without_reasking `{env : Env}
    (self : LLMReasoner) (input : string) (tm : ToolManager) (bus : bool) (w : World)
    (raw : string) (parsed : json) :
  quiet w →
  (0 < retries self)%nat →
  replies_with (length (requests w)) (prompt_for input (get_all_tools tm) (memory w)) raw →
  loads (PyStr.strip raw) = Ok parsed →
  validate parsed LLM_RESPONSE_SCHEMA = Ok () →
  _validate_reasoning_result parsed (get_all_tools tm) = false →
  ∃ w',
    think self input (Some tm) bus w = (w', Ok (_fallback_response input)) ∧
    requests w' = requests w ++ [prompt_for input (get_all_tools tm) (memory w)] ∧
    chat_envelope (_fallback_response input).
Proof.
  intros Hq Hpos Hraw Hloads Hvalid Hunknown.
  destruct (think_answers_parsed self (requests w) input tm bus raw parsed
              Hpos Hraw Hloads Hvalid w) as [Hr Hreq]; [done|].
  rewrite Hunknown in Hr.
  destruct (think self input (Some tm) bus w) as [w' r]. simpl in *. subst r.
  exists w'. repeat split; [done|]. by eexists.
Qed.

Lemma think_rejects_unknown_tool_without_reasking_witness :
  let envelope := JObj [("thoughts", JStr "needs a forecast"); ("tool_name", JStr "weather");
                        ("tool_input", JObj [("city", JStr "Paris")])] in
  let env := Sample.runtime [("c", JObj [("response", JStr "e")]); ("e", envelope)]
               (λ _ _, Response 200 ["c"] None) in
  let self := {| retries := 3; debug_mode := false |} in
  let tm := {| _tools := [("chat", Sample.chat_tool)]; event_bus := false |} in
  let w := Sample.world ∅ in
  ∃ w',
    think self "forecast?" (Some tm) true w = (w', Ok (_fallback_response "forecast?")) ∧
    requests w' = requests w ++ [prompt_for "forecast?" (get_all_tools tm) (memory w)] ∧
    chat_envelope (_fallback_response "forecast?").
Proof.
  intros envelope env self tm w.
  apply (think_rejects_unknown_tool_without_reasking self "forecast?" tm true w "e" envelope).
  - by apply quiet_without_subscribers.
  - simpl. lia.
  - exists ["c"]. split; reflexivity.
  - reflexivity.
  - reflexivity.
  - reflexivity.
Defined.

(** ** Further properties of the field completer *)

Section CompleterMoreFacts.
Context `{env : Env}.

Lemma parse_field_value_returns s field_type :
  ∃ v, _parse_field_value (JStr s) field_type = Ok v.
Proof.
  unfold _parse_field_value.
  destruct (py_eq field_type (JStr "boolean")); [by eexists|].
  destruct (py_eq field_type (JStr "integer")).
  { unfold int_of. destruct (py_int _); by eexists. }
  destruct (py_eq field_type (JStr "number")).
  { unfold float_of. destruct (py_float _); by eexists. }
  destruct (existsb _ _); [|by eexists].
  unfold loads. destruct (json_loads _); by eexists.
Qed.

Lemma think_without_catalog self input w :
  debug_mode self = false →
  ∃ e, think self input None false w = (w, Ok (error_fallback_parsed e input)).
Proof.
  intros Hdebug. unfold think, think_body, emit_debug. rewrite Hdebug. by eexists.
Qed.

Lemma fill_fields_frame reasoner tool_name properties user_input config missing_fields :
  ∀ filled_input w w' filled,
  fill_fields reasoner tool_name properties user_input config missing_fields filled_input w
  = (w', Ok filled) →
  (∀ field, field ∉ missing_fields → dict_get field filled = dict_get field filled_input) ∧
  (∀ field, is_Some (dict_get field filled_input) → is_Some (dict_get field filled)).
Proof.
  induction missing_fields as [|x missing_fields IH]; intros filled_input w w' filled; simpl.
  - by intros [= <- <-].
  - rewrite run_bind. unfold lift_result at 1.
    destruct (json_get properties x (JObj [])) as [field_schema|e]; [|done].
    rewrite run_bind.
    destruct (_fill_single_field reasoner tool_name x field_schema user_input config
                filled_input w) as [w1 [filled_value|e]]; [|done].
    intros Hrest. apply IH in Hrest as [Hother Hkept]. split.
    + intros field [Hx Hfield]%not_elem_of_cons. rewrite (Hother field Hfield).
      destruct filled_value; try done; by rewrite dict_get_set_ne.
    + intros field Hsome. apply Hkept.
      destruct filled_value; try done;
        (destruct (decide (x = field)) as [->|Hne];
         [rewrite dict_get_set_eq; by eexists | by rewrite dict_get_set_ne]).
Qed.

End CompleterMoreFacts.

(** X17. With [LLMReasoner] as the reasoner the field completer never
    reaches the backend: it calls [think] without a tool catalog, [think]
    fails on the catalog and answers with its fallback chat envelope,
    and the value of the field is parsed from that apology text.  No
    request is sent and the world is left as it was (debug mode off). *)
Theorem field_completion_with_llm_reasoner_uses_the_apology `{env : Env}
    (self : LLMReasoner) (tool_name field_name : string) (schema : list (string * json))
    (user_input : string) (config field_prompts current_input : list (string * json))
    (w : World) :
  debug_mode self = false →
  default (JObj []) (dict_get "field_prompts" config) = JObj field_prompts →
  let field_type := default (JStr "string") (dict_get "type" schema) in
  let prompt :=
    _build_field_prompt tool_name field_name (py_str field_type)
      (py_str (default (JStr (field_name +:+ " field")) (dict_get "description" schema)))
      user_input current_input
      (py_str (default (JStr "") (dict_get field_name field_prompts))) in
  let apology :=
    "I'm having trouble processing that request. Could you rephrase it? You asked: "
    +:+ prompt in
  _fill_single_field (think self) tool_name field_name (JObj schema) user_input
    (JObj config) current_input w
  = (w, _parse_field_value (JStr apology) field_type).
Proof.
  intros Hdebug Hprompts field_type prompt apology.
  unfold _fill_single_field.
  rewrite (json_get_object config), lift_bind_ok, Hprompts.
  rewrite (json_get_object field_prompts), lift_bind_ok.
  rewrite !(json_get_object schema), !lift_bind_ok.
  fold field_type. fold prompt.
  unfold try_except. rewrite run_bind.
  destruct (think_without_catalog self prompt w Hdebug) as [e ->].
  cbn [error_fallback_parsed _fallback_response dict_set dict_get String.eqb Ascii.eqb
       Bool.eqb from_option id py_eq].
  rewrite json_get_object, lift_bind_ok.
  cbn [dict_get String.eqb Ascii.eqb Bool.eqb from_option id]. fold apology.
  unfold lift_result.
  by destruct (parse_field_value_returns apology field_type) as [v ->].
Qed.

Lemma field_completion_with_llm_reasoner_uses_the_apology_witness :
  let env := Sample.runtime [] Sample.unreachable in
  let self := {| retries := 3; debug_mode := false |} in
  let field_type := JStr "string" in
  let prompt :=
    _build_field_prompt "echo" "x" "string" "x field" "say it" [] "" in
  let apology :=
    "I'm having trouble processing that request. Could you rephrase it? You asked: "
    +:+ prompt in
  _fill_single_field (think self) "echo" "x" (JObj []) "say it" (JObj []) [] (Sample.world ∅)
  = (Sample.world ∅, _parse_field_value (JStr apology) field_type).
Proof.
  intros env self.
  apply (field_completion_with_llm_reasoner_uses_the_apology self "echo" "x" [] "say it"
           [] [] [] (Sample.world ∅)); reflexivity.
Defined.

(** X18. [fill_missing_fields] touches nothing but the required fields it
    found missing: every other field of the result has the value the
    input gave it, and no field of the input is dropped. *)
Theorem fill_changes_only_missing_required_fields `{env : Env}
    (reasoner : Reasoner) (tool_name : string) (tool : Tool) (tm : ToolManager)
    (tool_input filled : list (string * json)) (user_input : string) (w w' : World) :
  dict_get tool_name (_tools tm) = Some tool →
  fill_missing_fields reasoner tool_name tool_input user_input tm w = (w', Ok filled) →
  (∀ field, ¬ (field ∈ required_fields tool ∧ is_missing tool_input field = true) →
     dict_get field filled = dict_get field tool_input) ∧
  (∀ field, is_Some (dict_get field tool_input) → is_Some (dict_get field filled)).
Proof.
  intros Htool. unfold fill_missing_fields. rewrite Htool.
  destruct (List.filter (is_missing tool_input) (required_fields tool)) as [|x l] eqn:Hmissing.
  - by intros [= <- <-].
  - intros [Hother Hkept]%fill_fields_frame. split; [|done].
    intros field Hfield. apply Hother. rewrite <- Hmissing.
    intros [? ?]%list_elem_of_In%filter_In. apply Hfield. split; [|done].
    by apply list_elem_of_In.
Qed.

Lemma fill_changes_only_missing_required_fields_witness :
  let text := "{" +:+ quoted "x" +:+ ": " +:+ quoted "hello" +:+ "}" in
  let env := Sample.runtime [(text, JObj [("x", JStr "hello")])] Sample.unreachable in
  let tool := {| name := "echo"; description := "Says it back.";
                 example_usage := Some text; input_schema := None;
                 run := λ _, Ok "done" |} in
  let tm := {| _tools := [("echo", tool)]; event_bus := false |} in
  let answering : Reasoner := λ _ _ _,
    mret [("tool_name", JStr "chat"); ("tool_input", JObj [("response", JStr "bye")])] in
  let tool_input := [("y", JInt 1)] in
  let filled := [("y", JInt 1); ("x", JStr "bye")] in
  (∀ field, ¬ (field ∈ required_fields tool ∧ is_missing tool_input field = true) →
     dict_get field filled = dict_get field tool_input) ∧
  (∀ field, is_Some (dict_get field tool_input) → is_Some (dict_get field filled)).
Proof.
  intros text env tool tm answering tool_input filled.
  apply (fill_changes_only_missing_required_fields answering "echo" tool tm tool_input filled
           "say it" (Sample.world ∅) (Sample.world ∅)); reflexivity.
Defined.

Lemma fill_missing_fields_complete `{env : Env}
    (reasoner : Reasoner) (tool_name : string) (tm : ToolManager)
    (tool_input : list (string * json)) (user_input : string) (w : World) :
  (∀ tool, dict_get tool_name (_tools tm) = Some tool →
     Forall (λ field, is_missing tool_input field = false) (required_fields tool)) →
  fill_missing_fields reasoner tool_name tool_input user_input tm w = (w, Ok tool_input).
Proof.
  intros Hcomplete. unfold fill_missing_fields.
  destruct (dict_get tool_name (_tools tm)) as [tool|]; [|done].
  specialize (Hcomplete tool eq_refl). apply list_filter_nil in Hcomplete.
  by rewrite Hcomplete.
Qed.

(** X19. When the tool is not registered, or every required field of its
    schema is given with a truthy value, [fill_missing_fields] returns
    the input as it is, without calling the reasoner and without
    changing the world. *)
Theorem fill_returns_complete_input_unchanged `{env : Env}
    (reasoner : Reasoner) (tool_name : string) (tm : ToolManager)
    (tool_input : list (string * json)) (user_input : string) (w : World) :
  (∀ tool, dict_get tool_name (_tools tm) = Some tool →
     Forall (λ field, is_missing tool_input field = false) (required_fields tool)) →
  fill_missing_fields reasoner tool_name tool_input user_input tm w = (w, Ok tool_input).
Proof. apply fill_missing_fields_complete. Qed.

Lemma fill_returns_complete_input_unchanged_witness :
  let text := "{" +:+ quoted "x" +:+ ": " +:+ quoted "hello" +:+ "}" in
  let env := Sample.runtime [(text, JObj [("x", JStr "hello")])] Sample.unreachable in
  let tool := {| name := "echo"; description := "Says it back.";
                 example_usage := Some text; input_schema := None;
                 run := λ _, Ok "done" |} in
  let tm := {| _tools := [("echo", tool)]; event_bus := false |} in
  let failing : Reasoner := λ _ _ _, raise (Exn RuntimeError "backend down") in
  fill_missing_fields failing "echo" [("x", JStr "bye")] "say it" tm (Sample.world ∅)
  = (Sample.world ∅, Ok [("x", JStr "bye")]).
Proof.
  intros text env tool tm failing.
  apply (fill_returns_complete_input_unchanged failing "echo" tm [("x", JStr "bye")]
           "say it" (Sample.world ∅)).
  intros tool' [= <-]. by repeat constructor.
Defined.

(** ** Invariants kept by the pieces of the loop *)

Section KernelInvariance.
Context `{env : Env}.
Variable I : World → Prop.
Hypothesis I_output : ∀ message w, I w → I (set_outputs (λ o, o ++ [message]) w).
Hypothesis I_memory : ∀ f w, I w → I (set_memory f w).
Hypothesis I_emit : ∀ event_name data, preserves I (EventBus.emit event_name data).
Variable reasoner : Reasoner.
Hypothesis I_reasoner : reasoner_preserves I reasoner.

Lemma output_preserves message : preserves I (output message).
Proof. apply preserves_modify. intros w. apply I_output. Qed.

Lemma memory_save_preserves r c md : preserves I (memory_save r c md).
Proof. apply preserves_modify. intros w. apply I_memory. Qed.

Lemma save_context_preserves key value category : preserves I (save_context key value category).
Proof. apply preserves_modify. intros w. apply I_memory. Qed.

Lemma save_learned_preserves learnable_info : preserves I (save_learned learnable_info).
Proof.
  induction learnable_info as [|[info_type info_value] rest IH]; simpl; preserve.
  apply save_context_preserves.
Qed.

Lemma save_conversation_preserves user_input agent_output :
  preserves I (_save_conversation_with_learning user_input agent_output).
Proof.
  unfold _save_conversation_with_learning. preserve.
  - apply memory_save_preserves.
  - apply save_learned_preserves.
Qed.

Lemma fill_single_field_preserves tool_name field_name field_schema user_input tool_config
    current_input :
  preserves I (_fill_single_field reasoner tool_name field_name field_schema user_input
                 tool_config current_input).
Proof. unfold _fill_single_field. preserve. apply I_reasoner. Qed.

Lemma fill_fields_preserves tool_name properties user_input config missing_fields :
  ∀ filled_input,
    preserves I (fill_fields reasoner tool_name properties user_input config missing_fields
                   filled_input).
Proof.
  induction missing_fields as [|field rest IH]; intros filled_input; simpl; preserve.
  - apply fill_single_field_preserves.
  - apply IH.
Qed.

Lemma fill_missing_fields_preserves tool_name tool_input user_input tm :
  preserves I (fill_missing_fields reasoner tool_name tool_input user_input tm).
Proof.
  unfold fill_missing_fields. preserve. apply fill_fields_preserves.
Qed.

Lemma chat_reply_preserves self user_input tool_input :
  preserves I (chat_reply self user_input tool_input).
Proof.
  unfold chat_reply. preserve.
  - apply output_preserves.
  - apply save_conversation_preserves.
Qed.

Lemma missing_tool_preserves self user_input tool_name tool_input :
  preserves I (missing_tool self user_input tool_name tool_input).
Proof.
  unfold missing_tool. preserve;
    first [apply output_preserves | apply memory_save_preserves | apply save_context_preserves].
Qed.

End KernelInvariance.

Section UnobtrusiveFacts.
Context `{env : Env}.

Lemma emit_preserves_quiet event_name data :
  preserves quiet (EventBus.emit event_name data).
Proof. intros w Hw. by apply emit_quiet. Qed.

Lemma emit_preserves_frame {A} (f : World → A) (v : A) event_name data :
  (∀ w, f (EventBus.emit event_name data w).1 = f w) →
  preserves (λ w, f w = v) (EventBus.emit event_name data).
Proof. intros Hf w Hw. simpl. by rewrite Hf. Qed.

Lemma think_unobtrusive self : unobtrusive (think self).
Proof.
  intros prompt tools bus w. simpl. repeat split.
  - refine (think_preserves quiet _ _ _ _ _ self prompt tools bus w).
    + intros p w1. by apply quiet_subscribers.
    + intros f w1. by apply quiet_subscribers.
    + intros c md w1. by apply quiet_subscribers.
    + intros b w1. by apply quiet_subscribers.
    + apply emit_preserves_quiet.
  - refine (think_preserves (λ w', outputs w' = outputs w) _ _ _ _ _
              self prompt tools bus w eq_refl); try done.
    intros event_name data. apply emit_preserves_frame. intros w1. apply emit_frame.
  - refine (think_preserves (λ w', tool_runs w' = tool_runs w) _ _ _ _ _
              self prompt tools bus w eq_refl); try done.
    intros event_name data. apply emit_preserves_frame. intros w1. apply emit_frame.
Qed.

End UnobtrusiveFacts.

Section AnsweredFacts.
Context `{env : Env}.
Variable self : AgentKernel.
Hypothesis Hreasoner : unobtrusive (reasoner self).

Lemma answered_weaken n w : answered (S n) w → answered n w.
Proof. intros [? ?]. split; [done|lia]. Qed.

Lemma answered_output n message w :
  answered n w → answered (S n) (set_outputs (λ o, o ++ [message]) w).
Proof.
  intros [Hq Hn]. split; [by eapply quiet_subscribers; [|exact Hq]|].
  simpl. rewrite length_app. simpl. lia.
Qed.

Lemma answered_memory n f w : answered n w → answered n (set_memory f w).
Proof. intros [Hq Hn]. split; [by eapply quiet_subscribers; [|exact Hq]|done]. Qed.

Lemma answered_emit n event_name data :
  hoare (answered n) (EventBus.emit event_name data) (λ w r, answered n w ∧ r = Ok ()).
Proof.
  intros w [Hq Hn]. destruct (emit_quiet event_name data w Hq) as [Hr Hq'].
  destruct (emit_frame event_name data w) as (_ & _ & _ & Ho & _).
  repeat split; [done| |done]. simpl in Ho. by rewrite Ho.
Qed.

Lemma answered_emit_preserves n event_name data :
  preserves (answered n) (EventBus.emit event_name data).
Proof. intros w Hw. by apply answered_emit. Qed.

Lemma answered_reasoner n : reasoner_preserves (answered n) (reasoner self).
Proof.
  intros prompt tools bus w [Hq Hn].
  destruct (Hreasoner prompt tools bus w) as (Hq' & Ho & _). simpl in *.
  split; [by apply Hq'|]. by rewrite Ho.
Qed.

Lemma answered_output_preserves n message : preserves (answered n) (output message).
Proof.
  apply output_preserves. intros m w Hw. by apply answered_weaken, answered_output.
Qed.

Lemma answered_memory_save n r c md : preserves (answered n) (memory_save r c md).
Proof. apply memory_save_preserves. intros f w. apply answered_memory. Qed.

Lemma answered_save_context n key value category :
  preserves (answered n) (save_context key value category).
Proof. apply save_context_preserves. intros f w. apply answered_memory. Qed.

Lemma answered_run_tool n tool tool_input : preserves (answered n) (run_tool tool tool_input).
Proof.
  unfold run_tool. preserve. apply preserves_modify.
  intros w [Hq Hn]. split; [by eapply quiet_subscribers; [|exact Hq]|done].
Qed.

Lemma answers_seq {A} n (c : M A) (k : A → M unit) :
  preserves (answered n) c →
  (∀ a, hoare (answered n) (k a) (turn_post n)) →
  hoare (answered n) (c ≫= k) (turn_post n).
Proof. intros Hc Hk. eapply hoare_seq; [exact Hc | exact Hk | done]. Qed.

Lemma answers_with n (c : M unit) :
  preserves (answered (S n)) c → hoare (answered (S n)) c (turn_post n).
Proof.
  intros Hc. eapply hoare_post; [exact Hc|].
  intros w [[]|e] Hw; simpl; [done|by apply answered_weaken].
Qed.

Lemma answers_after_output n message (k : M unit) :
  preserves (answered (S n)) k →
  hoare (answered n) (output message ;; k) (turn_post n).
Proof.
  intros Hk. eapply hoare_bind with (R := λ w _, answered (S n) w).
  - apply hoare_modify. intros w. apply answered_output.
  - intros _. by apply answers_with.
  - intros w e Hw. by apply answered_weaken.
Qed.

Lemma chat_reply_answers n user_input tool_input :
  hoare (answered n) (chat_reply self user_input tool_input) (turn_post n).
Proof.
  unfold chat_reply. apply answers_after_output.
  pose proof (answered_emit_preserves (S n)) as Hemit. preserve.
  apply save_conversation_preserves. intros f w. apply answered_memory.
Qed.

Lemma missing_tool_answers n user_input tool_name tool_input :
  hoare (answered n) (missing_tool self user_input tool_name tool_input) (turn_post n).
Proof.
  unfold missing_tool. pose proof (answered_emit_preserves (S n)) as Hemit.
  destruct (truthy _); apply answers_after_output; preserve;
    first [apply answered_memory_save | apply answered_save_context].
Qed.

Lemma use_tool_answers n user_input tool tool_name original_input :
  hoare (answered n) (use_tool self user_input tool tool_name original_input) (turn_post n).
Proof.
  unfold use_tool. pose proof (answered_emit_preserves n) as Hemit.
  apply answers_seq.
  { apply fill_missing_fields_preserves, answered_reasoner. }
  intros tool_input. apply answers_seq; [preserve|]. intros _.
  destruct (validate_input tool_name (JObj tool_input) (tools self)) as [valid error_msg].
  destruct valid; simpl.
  - apply answers_seq; [apply answered_run_tool|]. intros tool_output.
    apply answers_seq; [preserve|]. intros _.
    apply answers_seq; [apply answered_memory_save|]. intros _.
    apply answers_seq; [apply answered_save_context|]. intros _.
    apply answers_after_output. apply answered_emit_preserves.
  - apply answers_after_output. apply answered_memory_save.
Qed.

Lemma dispatch_answers n user_input reasoning_result :
  hoare (answered n) (dispatch self user_input reasoning_result) (turn_post n).
Proof.
  unfold dispatch. pose proof (answered_emit_preserves n) as Hemit.
  apply answers_seq.
  { destruct (dict_get "tool_input" reasoning_result) as [[]|]; preserve. }
  intros tool_input. apply answers_seq; [preserve|]. intros _.
  destruct (_ && _); [apply chat_reply_answers|].
  apply answers_seq; [preserve|]. intros [tool|].
  - apply use_tool_answers.
  - apply missing_tool_answers.
Qed.

Lemma turn_body_answers n user_input :
  hoare (answered n) (turn_body self user_input) (turn_post n).
Proof.
  unfold turn_body. pose proof (answered_emit_preserves n) as Hemit.
  apply answers_seq; [preserve|]. intros _.
  apply answers_seq; [apply answered_memory_save|]. intros _.
  apply answers_seq; [preserve|]. intros enhanced_prompt.
  apply answers_seq; [apply answered_reasoner|]. intros reasoning_result.
  apply answers_seq; [preserve|]. intros _.
  apply dispatch_answers.
Qed.

Lemma run_turn_answers n user_input :
  hoare (answered n) (run_turn self user_input) (λ w r, answered (S n) w ∧ r = Ok ()).
Proof.
  unfold run_turn. eapply hoare_try_except; [apply turn_body_answers| |].
  - by intros w [] Hw.
  - intros e. simpl.
    eapply hoare_step with (P' := answered (S n)) (v := ()).
    { apply hoare_modify. intros w Hw. split; [by apply answered_output|done]. }
    eapply hoare_step with (P' := answered (S n)) (v := ()).
    { apply hoare_modify. intros w Hw. split; [by apply answered_memory|done]. }
    apply answered_emit.
Qed.

Lemma run_answers inputs :
  ∀ n, hoare (answered n) (AgentKernel_run self inputs)
         (λ w r, answered (n + length inputs) w ∧ r = Ok ()).
Proof.
  induction inputs as [|user_input rest IH]; intros n; simpl.
  - apply hoare_ret. intros w Hw. by rewrite Nat.add_0_r.
  - eapply hoare_step; [apply run_turn_answers|].
    eapply hoare_post; [apply IH|]. intros w r [Hw ->]. split; [|done].
    by replace (n + S (length rest))%nat with (S n + length rest)%nat by lia.
Qed.

End AnsweredFacts.

(** X20. The loop answers every input and survives every turn: with
    subscribers that return normally and a reasoner that keeps to itself
    (as [LLMReasoner.think] does), [run] never ends with an exception,
    whatever the reasoner, the tools or the backend do, and each input
    read adds at least one message to the output channel. *)
Theorem every_input_is_answered `{env : Env}
    (self : AgentKernel) (inputs : list string) (w : World) :
  unobtrusive (reasoner self) →
  quiet w →
  ∃ w',
    AgentKernel_run self inputs w = (w', Ok ()) ∧
    quiet w' ∧
    (length (outputs w) + length inputs ≤ length (outputs w'))%nat.
Proof.
  intros Hreasoner Hq.
  destruct (run_answers self Hreasoner inputs (length (outputs w)) w) as [[Hq' Hn] Hr].
  { by split. }
  destruct (AgentKernel_run self inputs w) as [w' r]. simpl in *. subst r.
  by exists w'.
Qed.

Lemma every_input_is_answered_witness :
  let env := Sample.runtime [] Sample.unreachable in
  let self := {| reasoner := think {| retries := 2; debug_mode := false |};
                 tools := {| _tools := [("chat", Sample.chat_tool)]; event_bus := false |};
                 debug := false |} in
  let w := Sample.world ∅ in
  ∃ w',
    AgentKernel_run self ["hi"; "2 + 2"] w = (w', Ok ()) ∧
    quiet w' ∧
    (length (outputs w) + length ["hi"; "2 + 2"] ≤ length (outputs w'))%nat.
Proof.
  intros env self w.
  apply (every_input_is_answered self ["hi"; "2 + 2"] w).
  - apply think_unobtrusive.
  - by apply quiet_without_subscribers.
Defined.

Section ValidatedRunFacts.
Context `{env : Env}.
Variable self : AgentKernel.
Hypothesis Hreasoner : unobtrusive (reasoner self).

Lemma validate_input_true tool_name input tm msg :
  validate_input tool_name input tm = (true, msg) → msg = "".
Proof.
  unfold validate_input. destruct (get_tool_by_name tool_name tm) as [[tool|]|]; try done.
  destruct (validate input (schema_for_validation tool)); [by intros [= <-]|done].
Qed.

Lemma runs_emit t event_name data :
  preserves (λ w, tool_runs w = t) (EventBus.emit event_name data).
Proof. apply emit_preserves_frame. intros w. apply emit_frame. Qed.

Lemma runs_reasoner t : reasoner_preserves (λ w, tool_runs w = t) (reasoner self).
Proof.
  intros prompt tools bus w Hw.
  destruct (Hreasoner prompt tools bus w) as (_ & _ & Ht). simpl in *. congruence.
Qed.

Lemma ran_validated_emit tm t event_name data :
  preserves (ran_validated tm t) (EventBus.emit event_name data).
Proof.
  intros w Hw. simpl. unfold ran_validated.
  destruct (emit_frame event_name data w) as (_ & _ & _ & _ & Ht & _).
  simpl in Ht. by rewrite Ht.
Qed.

Lemma use_tool_validated t user_input tool tool_name original_input :
  get_tool_by_name tool_name (tools self) = Ok (Some tool) →
  hoare (λ w, tool_runs w = t) (use_tool self user_input tool tool_name original_input)
    (λ w _, ran_validated (tools self) t w).
Proof.
  intros Htool. unfold use_tool. pose proof (runs_emit t) as Hemit.
  eapply hoare_after; [|intros tool_input|by left].
  { apply fill_missing_fields_preserves, runs_reasoner. }
  eapply hoare_after; [preserve|intros _|by left].
  destruct (validate_input tool_name (JObj tool_input) (tools self))
    as [valid error_msg] eqn:Hvalid.
  destruct valid; simpl.
  - apply validate_input_true in Hvalid as Hmsg. subst error_msg.
    assert (∀ w, tool_runs w = t ++ [(name tool, JObj tool_input)] →
                 ran_validated (tools self) t w) as Hran.
    { intros w Hw. right. by exists tool_name, tool, tool_input. }
    eapply hoare_bind
      with (R := λ w _, tool_runs w = t ++ [(name tool, JObj tool_input)]).
    + intros w Hw. unfold run_tool. rewrite run_bind. simpl. by rewrite Hw.
    + intros tool_output. apply preserves_then; [|intros w r Hw; apply (Hran w Hw)].
      pose proof (runs_emit (t ++ [(name tool, JObj tool_input)])) as Hemit'.
      preserve;
        first [apply output_preserves | apply memory_save_preserves
              | apply save_context_preserves]; done.
    + intros w e Hw. by apply Hran.
  - apply preserves_then; [|by intros w r Hw; left; exact Hw].
    preserve; first [by apply output_preserves | by apply memory_save_preserves].
Qed.

Lemma dispatch_validated t user_input reasoning_result :
  hoare (λ w, tool_runs w = t) (dispatch self user_input reasoning_result)
    (λ w _, ran_validated (tools self) t w).
Proof.
  unfold dispatch. pose proof (runs_emit t) as Hemit.
  eapply hoare_after; [|intros tool_input|by left].
  { destruct (dict_get "tool_input" reasoning_result) as [[]|]; preserve. }
  eapply hoare_after; [preserve|intros _|by left].
  destruct (_ && _).
  { apply preserves_then; [|by intros w r Hw; left; exact Hw].
    by apply chat_reply_preserves. }
  destruct (get_tool_by_name _ (tools self)) as [[tool|]|e] eqn:Htool.
  - apply hoare_lift_bind. by apply use_tool_validated.
  - apply hoare_lift_bind.
    apply preserves_then; [|by intros w r Hw; left; exact Hw].
    by apply missing_tool_preserves.
  - apply hoare_lift_bind. by left.
Qed.

Lemma turn_body_validated t user_input :
  hoare (λ w, tool_runs w = t) (turn_body self user_input)
    (λ w _, ran_validated (tools self) t w).
Proof.
  unfold turn_body. pose proof (runs_emit t) as Hemit.
  eapply hoare_after; [preserve|intros _|by left].
  eapply hoare_after; [by apply memory_save_preserves|intros _|by left].
  eapply hoare_after; [preserve|intros enhanced_prompt|by left].
  eapply hoare_after; [apply runs_reasoner|intros reasoning_result|by left].
  eapply hoare_after; [preserve|intros _|by left].
  apply dispatch_validated.
Qed.

Lemma run_turn_validated t user_input :
  hoare (λ w, tool_runs w = t) (run_turn self user_input)
    (λ w _, ran_validated (tools self) t w).
Proof.
  unfold run_turn.
  eapply hoare_try_except; [apply turn_body_validated|done|].
  intros e. apply preserves_then; [|done].
  pose proof (ran_validated_emit (tools self) t) as Hemit.
  preserve; first [by apply output_preserves | by apply memory_save_preserves].
Qed.

End ValidatedRunFacts.

(** X21. A pass of the loop runs at most one tool, and only a registered
    one on an input that [validate_input] accepted (after completion of
    the missing fields): a chat answer, an unknown tool, a rejected
    input or a failure on the way run nothing.  The reasoner is one that
    keeps to itself, as [LLMReasoner.think] does. *)
Theorem tools_run_only_on_validated_input `{env : Env}
    (self : AgentKernel) (user_input : string) (w : World) :
  unobtrusive (reasoner self) →
  let w' := (run_turn self user_input w).1 in
  tool_runs w' = tool_runs w ∨
  ∃ tool_name tool input,
    get_tool_by_name tool_name (tools self) = Ok (Some tool) ∧
    validate_input tool_name (JObj input) (tools self) = (true, "") ∧
    tool_runs w' = tool_runs w ++ [(name tool, JObj input)].
Proof.
  intros Hreasoner. exact (run_turn_validated self Hreasoner (tool_runs w) user_input w eq_refl).
Qed.

Lemma tools_run_only_on_validated_input_witness :
  let env := Sample.runtime [] Sample.unreachable in
  let self := {| reasoner := think {| retries := 2; debug_mode := false |};
                 tools := {| _tools := [("chat", Sample.chat_tool)]; event_bus := false |};
                 debug := false |} in
  let w := Sample.world ∅ in
  let w' := (run_turn self "hi" w).1 in
  tool_runs w' = tool_runs w ∨
  ∃ tool_name tool input,
    get_tool_by_name tool_name (tools self) = Ok (Some tool) ∧
    validate_input tool_name (JObj input) (tools self) = (true, "") ∧
    tool_runs w' = tool_runs w ++ [(name tool, JObj input)].
Proof.
  intros env self w.
  apply (tools_run_only_on_validated_input self "hi" w).
  apply think_unobtrusive.
Defined.

(** X22. [SimpleReasoner] cannot serve the loop: the loop calls [think]
    with the keyword [event_bus], which [SimpleReasoner.think] does not
    take, so every pass ends in the crash report of a [TypeError].  The
    input and the report are stored, no tool runs, and the loop goes
    on (subscribers that return normally). *)
Theorem simple_reasoner_fails_every_turn `{env : Env}
    (tm : ToolManager) (debug_flag : bool) (user_input : string) (w : World) :
  quiet w →
  let self := {| reasoner := SimpleReasoner_think; tools := tm; debug := debug_flag |} in
  ∃ w' e user_entry system_entry,
    run_turn self user_input w = (w', Ok ()) ∧
    exn_type e = TypeError ∧
    outputs w' = outputs w ++ [crash_message e] ∧
    tool_runs w' = tool_runs w ∧
    role user_entry = "user" ∧ content user_entry = JStr user_input ∧
    role system_entry = "system" ∧ content system_entry = crash_message e ∧
    conversation_history (memory w') `suffix_of`
      conversation_history (memory w) ++ [user_entry; system_entry].
Proof.
  intros Hq self.
  set (e := Exn TypeError "think() got an unexpected keyword argument 'event_bus'").
  set (md1 := JObj [("input_length", JInt (Z.of_nat (String.length user_input)));
                    ("tool_context", JStr "conversation_start")]).
  set (md2 := JObj [("type", JStr "system_error");
                    ("exception_type", JStr (exception_name e))]).
  set (m1 := save_entry "user" (JStr user_input) md1 (memory w)).
  set (m2 := save_entry "system" (crash_message e) md2 m1).
  assert (hoare (kept (outputs w) (memory w) (tool_runs w)) (run_turn self user_input)
            (λ w' r, kept (outputs w ++ [crash_message e]) m2 (tool_runs w) w' ∧ r = Ok ()))
    as Hturn.
  { unfold run_turn.
    eapply hoare_try_except
      with (R := λ w' r, kept (outputs w) m1 (tool_runs w) w' ∧ r = Raise e).
    - unfold turn_body.
      eapply hoare_step; [apply emit_kept|].
      eapply hoare_step; [apply memory_save_kept|].
      apply hoare_gets_bind. intros enhanced_prompt. by intros w1 Hw1.
    - by intros w1 a [_ ?].
    - intros e' w1 [Hw1 [= ->]]. revert w1 Hw1.
      change (hoare (kept (outputs w) m1 (tool_runs w))
                (output (crash_message e);;
                 memory_save "system" (crash_message e)
                   [("type", JStr "system_error");
                    ("exception_type", JStr (exception_name e))];;
                 EventBus.emit "on_error" (JObj [("error", crash_message e)]))
                (λ w' r, kept (outputs w ++ [crash_message e]) m2 (tool_runs w) w' ∧
                         r = Ok ())).
      eapply hoare_step; [apply output_kept|].
      eapply hoare_step; [apply memory_save_kept|].
      apply emit_kept. }
  destruct (Hturn w) as [(Hq' & Ho & Hm & Ht) Hr]; [done|].
  destruct (run_turn self user_input w) as [w' r]. simpl in Hq', Ho, Hm, Ht, Hr. subst r.
  exists w', e, {| role := "user"; content := JStr user_input; metadata := md1 |},
    {| role := "system"; content := crash_message e; metadata := md2 |}.
  repeat split; try done. rewrite Hm.
  destruct (save_entry_suffix "system" (crash_message e) md2 m1) as [l2 H2].
  destruct (save_entry_suffix "user" (JStr user_input) md1 (memory w)) as [l1 H1].
  fold m1 in H1, H2. fold m2 in H2. exists (l1 ++ l2).
  rewrite <- app_assoc, <- H2, app_assoc, <- H1. by rewrite <- app_assoc.
Qed.

Lemma simple_reasoner_fails_every_turn_witness :
  let env := Sample.runtime [] Sample.unreachable in
  let tm := {| _tools := [("chat", Sample.chat_tool)]; event_bus := false |} in
  let w := Sample.world ∅ in
  let self := {| reasoner := SimpleReasoner_think; tools := tm; debug := false |} in
  ∃ w' e user_entry system_entry,
    run_turn self "2 + 2" w = (w', Ok ()) ∧
    exn_type e = TypeError ∧
    outputs w' = outputs w ++ [crash_message e] ∧
    tool_runs w' = tool_runs w ∧
    role user_entry = "user" ∧ content user_entry = JStr "2 + 2" ∧
    role system_entry = "system" ∧ content system_entry = crash_message e ∧
    conversation_history (memory w') `suffix_of`
      conversation_history (memory w) ++ [user_entry; system_entry].
Proof.
  intros env tm w.
  apply (simple_reasoner_fails_every_turn tm false "2 + 2" w).
  by apply quiet_without_subscribers.
Defined.

(** ** The command-line interface *)

(** X23. What [CLIInterface.input] returns is a real message: the
    trimmed text of a line that was typed, never one of the exit
    commands (compared without regard to case), and never empty unless
    empty messages are allowed; the lines read before it were blank and
    were skipped, and the lines after it are left to be read. *)
Theorem cli_input_returns_a_typed_message
    (self : CLIInterface) (keys rest : list keyboard) (message : string) :
  CLIInterface_input self keys = (Some message, rest) →
  ∃ blanks text,
    keys = (Line <$> blanks) ++ Line text :: rest ∧
    message = PyStr.strip text ∧
    (PyStr.lower message ∉ exit_commands self) ∧
    (allow_empty self = false → message ≠ "") ∧
    (allow_empty self = true → blanks = []) ∧
    Forall (λ blank, PyStr.strip blank = "") blanks.
Proof.
  induction keys as [|[text|] keys IH]; simpl; [done| |done].
  destruct (existsb _ _) eqn:Hexit; [done|].
  assert (PyStr.lower (PyStr.strip text) ∉ exit_commands self) as Hnot.
  { intros Hin. rewrite existsb_eqb_elem in Hexit. by apply bool_decide_eq_false in Hexit. }
  destruct (String.eqb_spec (PyStr.strip text) "") as [Hblank|Hfull].
  - destruct (allow_empty self) eqn:Hallow.
    + intros [= <- <-]. exists [], text. by repeat split.
    + intros (blanks & text' & -> & -> & Hcmd & Hne & Hall & Hblanks)%IH.
      exists (text :: blanks), text'. repeat split; try done. by constructor.
  - intros [= <- <-]. exists [], text. by repeat split.
Qed.

Lemma cli_input_returns_a_typed_message_witness :
  let self := CLIInterface_init false None in
  ∃ blanks text,
    [Line "   "; Line " hello "; Line "Quit"] = (Line <$> blanks) ++ Line text :: [Line "Quit"] ∧
    "hello" = PyStr.strip text ∧
    (PyStr.lower "hello" ∉ exit_commands self) ∧
    (allow_empty self = false → "hello" ≠ "") ∧
    (allow_empty self = true → blanks = []) ∧
    Forall (λ blank, PyStr.strip blank = "") blanks.
Proof.
  intros self.
  apply (cli_input_returns_a_typed_message self
           [Line "   "; Line " hello "; Line "Quit"] [Line "Quit"] "hello").
  reflexivity.
Defined.

(** X24. [CLIInterface.input] ends the session, and reads no further, at
    the first line that is an exit command once trimmed and put in
    lower case, at an interrupt, and at the end of the input; blank
    lines before that are skipped unless empty messages are allowed.
    An interface built without exit commands, or with an empty list of
    them, has the commands exit, quit and q. *)
Theorem cli_input_ends_the_session
    (self : CLIInterface) (keys rest : list keyboard) :
  CLIInterface_input self keys = (None, rest) →
  (∃ blanks, Forall (λ blank, PyStr.strip blank = "") blanks ∧
     ((keys = (Line <$> blanks) ∧ rest = []) ∨
      keys = (Line <$> blanks) ++ Interrupt :: rest ∨
      ∃ text, keys = (Line <$> blanks) ++ Line text :: rest ∧
              PyStr.lower (PyStr.strip text) ∈ exit_commands self)) ∧
  (∀ allow, exit_commands (CLIInterface_init allow None) = ["exit"; "quit"; "q"] ∧
            exit_commands (CLIInterface_init allow (Some [])) = ["exit"; "quit"; "q"]).
Proof.
  intros Hend. split; [|done]. revert Hend.
  induction keys as [|[text|] keys IH]; simpl.
  - intros [= <-]. exists []. split; [constructor|]. by left.
  - destruct (existsb _ _) eqn:Hexit.
    { intros [= <-]. exists []. split; [constructor|]. right. right. exists text.
      split; [done|]. rewrite existsb_eqb_elem in Hexit. by apply bool_decide_eq_true in Hexit. }
    destruct (String.eqb_spec (PyStr.strip text) "") as [Hblank|Hfull]; [|done].
    destruct (allow_empty self); [done|].
    intros (blanks & Hblanks & Hkeys)%IH. exists (text :: blanks).
    split; [by constructor|].
    destruct Hkeys as [[-> ->]|[->|(text' & -> & Hcmd)]].
    + by left.
    + right. by left.
    + right. right. by exists text'.
  - intros [= <-]. exists []. split; [constructor|]. right. by left.
Qed.

Lemma cli_input_ends_the_session_witness :
  let self := CLIInterface_init false (Some []) in
  (∃ blanks, Forall (λ blank, PyStr.strip blank = "") blanks ∧
     (([Line "  "; Line " QUIT "; Line "more"] = (Line <$> blanks) ∧ [Line "more"] = []) ∨
      [Line "  "; Line " QUIT "; Line "more"] = (Line <$> blanks) ++ Interrupt :: [Line "more"] ∨
      ∃ text, [Line "  "; Line " QUIT "; Line "more"]
              = (Line <$> blanks) ++ Line text :: [Line "more"] ∧
              PyStr.lower (PyStr.strip text) ∈ exit_commands self)) ∧
  (∀ allow, exit_commands (CLIInterface_init allow None) = ["exit"; "quit"; "q"] ∧
            exit_commands (CLIInterface_init allow (Some [])) = ["exit"; "quit"; "q"]).
Proof.
  intros self.
  apply (cli_input_ends_the_session self [Line "  "; Line " QUIT "; Line "more"] [Line "more"]).
  reflexivity.
Defined.

(** ** The branches of the loop for a named tool *)

Section TurnFacts.
Context `{env : Env}.
Variable self : AgentKernel.





Lemma run_turn_dispatched user_input w w2 envelope (Q : World → Prop) :
  quiet w →
  reasoner self
    (_prepare_reasoning_prompt user_input (memory (before_reasoning user_input w)))
    (Some (tools self)) true (before_reasoning user_input w) = (w2, Ok envelope) →
  quiet w2 →
  hoare (kept (outputs w2) (memory w2) (tool_runs w2)) (dispatch self user_input envelope)
    (λ w r, r = Ok () ∧ Q w) →
  ∃ w', run_turn self user_input w = (w', Ok ()) ∧ Q w'.
Proof.
  intros Hq Hreason Hq2 Hdispatch.
  assert (hoare (kept (outputs w2) (memory w2) (tool_runs w2))
            (when (negb (debug self)) (EventBus.emit "on_thought" (JObj envelope));;
             dispatch self user_input envelope)
            (λ w r, r = Ok () ∧ Q w)) as Hrest.
  { eapply hoare_step; [apply when_emit_kept | exact Hdispatch]. }
  specialize (Hrest w2 (conj Hq2 (conj eq_refl (conj eq_refl eq_refl)))).
  rewrite <- (turn_body_reasoned self user_input w w2 envelope Hq Hreason) in Hrest.
  destruct (turn_body self user_input w) as [w' r] eqn:Hbody. simpl in Hrest.
  destruct Hrest as [-> HQ].
  exists w'. split; [|done]. unfold run_turn, try_except. by rewrite Hbody.
Qed.


End TurnFacts.









(** ** The prompt the loop hands to the reasoner *)

Section PromptFacts.
Context `{env : Env}.

Lemma prefix_append (needle rest : string) : String.prefix needle (needle +:+ rest) = true.
Proof.
  induction needle as [|c needle IH]; [by destruct rest|].
  rewrite append_cons. simpl. by destruct (ascii_dec c c).
Qed.

Lemma contains_prefix (needle hay : string) :
  String.prefix needle hay = true → PyStr.contains needle hay = true.
Proof. destruct hay; simpl; by intros ->. Qed.

Lemma contains_append (needle before after : string) :
  PyStr.contains needle (before +:+ needle +:+ after) = true.
Proof.
  induction before as [|c before IH].
  - rewrite append_empty_l. apply contains_prefix, prefix_append.
  - rewrite append_cons. simpl. rewrite IH. by destruct needle; [|destruct (ascii_dec _ _)];
      try destruct (String.prefix _ _).
Qed.

Lemma join_around sep (line : string) (before after : list string) :
  ∃ a b, PyStr.join sep (before ++ line :: after) = a +:+ line +:+ b.
Proof.
  induction before as [|p before (a & b & IH)]; simpl.
  - destruct after as [|q after]; [exists "", ""|exists "", (sep +:+ PyStr.join sep (q :: after))].
    + by rewrite append_empty_r.
    + done.
  - exists (p +:+ sep +:+ a), b.
    destruct (before ++ line :: after) as [|q l] eqn:Heq.
    { by destruct before. }
    rewrite IH. by rewrite !append_assoc.
Qed.

Lemma tail_slice_last {A} n (l : list A) : last (tail_slice n l) = last l.
Proof.
  destruct n as [|n]; [done|]. simpl.
  destruct (decide (length l ≤ S n)) as [Hle|Hgt].
  - by replace (length l - S n)%nat with 0%nat by lia.
  - assert (last l = last (take (length l - S n) l ++ drop (length l - S n) l)) as ->
      by (by rewrite take_drop).
    rewrite last_app. destruct (last (drop (length l - S n) l)) eqn:Hlast; [done|].
    apply last_None in Hlast. apply (f_equal length) in Hlast.
    rewrite length_drop in Hlast. simpl in Hlast. lia.
Qed.

Lemma context_mentions_last_entry last_n m entry :
  last (conversation_history m) = Some entry →
  PyStr.contains (role entry +:+ ": " +:+ py_str (content entry))
    (get_conversation_context last_n m) = true.
Proof.
  intros Hlast. unfold get_conversation_context.
  rewrite <- (tail_slice_last last_n) in Hlast.
  match goal with |- context [_ ++ ?c] => generalize c end. intros context.
  apply last_Some in Hlast as [earlier Hlast]. rewrite Hlast.
  destruct (earlier ++ [entry]) as [|e0 recent] eqn:Heq; [by destruct earlier|].
  rewrite <- Heq, fmap_app. cbn [fmap list_fmap].
  set (line := λ e : MemoryEntry, role e +:+ ": " +:+ py_str (content e)).
  destruct (join_around PyStr.nl (line entry)
              ("RECENT CONVERSATION:" :: (line <$> earlier)) context) as (a & b & Hjoin).
  match goal with
  | |- context [PyStr.join _ ?l] =>
      replace l with (("RECENT CONVERSATION:" :: (line <$> earlier)) ++ line entry :: context)
        by (by rewrite <- !app_comm_cons, <- app_assoc)
  end.
  rewrite Hjoin. apply contains_append.
Qed.

End PromptFacts.

(** X29. The reasoner is never handed the bare input: the loop stores the
    input before it prepares the prompt, so the conversation context is
    never empty, the prompt is always the context block followed by the
    request, and the context itself already mentions the input, as the
    line [user: <input>]. *)
Theorem reasoner_prompt_always_carries_context `{env : Env}
    (user_input : string) (w : World) :
  let m := memory (before_reasoning user_input w) in
  let context := get_conversation_context 8 m in
  context ≠ "" ∧
  PyStr.contains ("user: " +:+ user_input) context = true ∧
  _prepare_reasoning_prompt user_input m =
    "CONVERSATION CONTEXT:" +:+ PyStr.nl +:+ context +:+ PyStr.nl +:+ PyStr.nl +:+
    "CURRENT REQUEST:" +:+ PyStr.nl +:+ user_input +:+ PyStr.nl +:+ PyStr.nl +:+
    "Please consider the above context when responding. Reference previous conversations when relevant.".
Proof.
  intros m context.
  set (md := JObj [("input_length", JInt (Z.of_nat (String.length user_input)));
                   ("tool_context", JStr "conversation_start")]).
  set (entry := {| role := "user"; content := JStr user_input; metadata := md |}).
  assert (last (conversation_history m) = Some entry) as Hlast.
  { unfold m, before_reasoning. cbn [memory set_memory]. fold md.
    set (m0 := memory _).
    destruct (save_entry_suffix "user" (JStr user_input) md m0) as [evicted Heq].
    fold entry in Heq.
    assert (conversation_history (save_entry "user" (JStr user_input) md m0) ≠ []) as Hne.
    { simpl. destruct (_ <? _)%nat eqn:Hlt.
      - intros Hnil%tail_slice_nil. by destruct (conversation_history m0).
      - by destruct (conversation_history m0). }
    apply (f_equal last) in Heq. rewrite last_snoc, last_app in Heq.
    destruct (last (conversation_history (save_entry "user" (JStr user_input) md m0)))
      as [y|] eqn:Hl; [done|].
    apply last_None in Hl. by apply Hne in Hl. }
  assert (context ≠ "") as Hcontext.
  { unfold context. intros [Hnil _]%conversation_context_empty. by rewrite Hnil in Hlast. }
  repeat split; [done| |].
  - exact (context_mentions_last_entry 8 m entry Hlast).
  - unfold _prepare_reasoning_prompt, inject_memory_context. fold context.
    by destruct (String.eqb_spec context "").
Qed.

Lemma save_entry_last (r : string) (c md : json) (m : Memory) :
  last (conversation_history (save_entry r c md m))
  = Some {| role := r; content := c; metadata := md |}.
Proof.
  destruct (save_entry_suffix r c md m) as [evicted Heq].
  apply (f_equal last) in Heq. rewrite last_snoc, last_app in Heq.
  destruct (last (conversation_history (save_entry r c md m))) as [y|] eqn:Hl; [done|].
  apply last_None in Hl. revert Hl. simpl. destruct (_ <? _)%nat.
  - intros Hnil%tail_slice_nil. by destruct (conversation_history m).
  - by destruct (conversation_history m).
Qed.

(** X30. When the backend is unreachable, a pass of the loop with
    [LLMReasoner] still answers: what is written to the output channel,
    and stored as the agent's answer, is the apology of
    [_fallback_response], which quotes the whole prompt the reasoner was
    given, conversation context included; no tool runs and the loop goes
    on (subscribers that return normally). *)
Theorem unreachable_backend_turn_apologises `{env : Env}
    (llm : LLMReasoner) (tm : ToolManager) (debug_flag : bool) (user_input : string)
    (w : World) :
  quiet w →
  (∀ n prompt, ∃ e, backend n prompt = ConnectionFailed e) →
  let self := {| reasoner := think llm; tools := tm; debug := debug_flag |} in
  let prompt :=
    _prepare_reasoning_prompt user_input (memory (before_reasoning user_input w)) in
  let apology :=
    "I'm having trouble processing that request. Could you rephrase it? You asked: "
    +:+ prompt in
  ∃ w' entry,
    run_turn self user_input w = (w', Ok ()) ∧
    outputs w' = outputs w ++ [JStr apology] ∧
    tool_runs w' = tool_runs w ∧
    last (conversation_history (memory w')) = Some entry ∧
    role entry = "agent" ∧ content entry = JStr apology.
Proof.
  intros Hq Hdown self prompt apology.
  set (w1 := before_reasoning user_input w).
  assert (quiet w1) as Hq1 by (by apply quiet_before_reasoning).
  assert (outputs w1 = outputs w ∧ tool_runs w1 = tool_runs w) as [Ho1 Ht1].
  { unfold w1, before_reasoning. simpl.
    by destruct (emit_frame "on_input" (JObj [("input", JStr user_input)]) w)
      as (_ & _ & _ & ? & ? & _). }
  pose proof (think_unreachable llm true prompt (Some tm) true Hdown w1 (λ _, Hq1)) as Hthink.
  assert (quiet (think llm prompt (Some tm) true w1).1 ∧
          outputs (think llm prompt (Some tm) true w1).1 = outputs w ∧
          tool_runs (think llm prompt (Some tm) true w1).1 = tool_runs w)
    as (Hq2 & Ho2 & Ht2).
  { destruct (think_unobtrusive llm prompt (Some tm) true w1) as (H1 & H2 & H3).
    cbv zeta in H1, H2, H3. split; [by apply H1|]. split; congruence. }
  destruct (think llm prompt (Some tm) true w1) as [w2 [envelope|e]] eqn:Hreason;
    cbn [fst snd] in Hthink, Hq2, Ho2, Ht2; [|by destruct Hthink].
  destruct Hthink as [e ->].
  set (md := JObj [("type", JStr "chat_response");
                   ("response_length", JInt (Z.of_nat (String.length apology)))]).
  destruct (run_turn_dispatched self user_input w w2 (error_fallback_parsed e prompt)
              (kept (outputs w2 ++ [JStr apology])
                 (learned (extract_learnable_info user_input)
                    (save_entry "agent" (JStr apology) md (memory w2)))
                 (tool_runs w2)))
    as (w' & Hturn & _ & Ho & Hm & Ht); [done|exact Hreason|exact Hq2| |].
  { apply (dispatch_chat self user_input (error_fallback_parsed e prompt)
             [("response", JStr apology)] apology); reflexivity. }
  exists w', {| role := "agent"; content := JStr apology; metadata := md |}.
  split; [done|]. split; [congruence|]. split; [congruence|]. split; [|done].
  rewrite Hm.
  destruct (learned_history (extract_learnable_info user_input)
              (save_entry "agent" (JStr apology) md (memory w2))) as [-> _].
  apply save_entry_last.
Qed.

Lemma unreachable_backend_turn_apologises_witness :
  let env := Sample.runtime [] Sample.unreachable in
  let llm := {| retries := 2; debug_mode := false |} in
  let tm := {| _tools := [("chat", Sample.chat_tool)]; event_bus := false |} in
  let w := Sample.world ∅ in
  let self := {| reasoner := think llm; tools := tm; debug := false |} in
  let prompt := _prepare_reasoning_prompt "hi" (memory (before_reasoning "hi" w)) in
  let apology :=
    "I'm having trouble processing that request. Could you rephrase it? You asked: "
    +:+ prompt in
  ∃ w' entry,
    run_turn self "hi" w = (w', Ok ()) ∧
    outputs w' = outputs w ++ [JStr apology] ∧
    tool_runs w' = tool_runs w ∧
    last (conversation_history (memory w')) = Some entry ∧
    role entry = "agent" ∧ content entry = JStr apology.
Proof.
  intros env llm tm w.
  apply (unreachable_backend_turn_apologises llm tm false "hi" w).
  - by apply quiet_without_subscribers.
  - intros n prompt. by eexists.
Defined.
